(** * Genetic search over feed-forward architectures: a shallow embedding

    The development follows [vowel_classifier_ga.py]: the model builder
    [Net], the population operators [selection], [crossover] and [mutate],
    the fitness evaluator [compute_fitness] and the generation loop with
    its best-overall tracker and breeding step.

    Python objects are modelled as follows.
    - A gene is a [dict]: an insertion-ordered association list from
      attribute names to Python values.
    - A Python float is denoted by a rational number, a decimal literal by
      the decimal it spells. The one comparison of the program in which
      the rounding of a literal could matter, [random.random() < 0.1],
      has the same outcome for the binary64 value of [0.1]
      ([mutation_rate_binary64]).
    - An exception is a [Raise] result.
    - The constructors [nn.Linear] and [nn.Dropout] check their arguments
      as the library does; the memory of the machine is not modelled.
    - The random module is a tape of draws threaded through the calls. *)

From Stdlib Require Import ZArith QArith String List Lia.
From stdpp Require Import base tactics option list sorting strings gmap.

Local Open Scope string_scope.
Local Open Scope Z_scope.
Local Open Scope list_scope.

(** ** Python values, exceptions and dictionaries *)

Module Py.

Inductive value :=
  | VNone
  | VInt (n : Z)
  | VFloat (x : Q)
  | VStr (s : string).

Inductive exn :=
  | KeyError (key : string)
  | IndexError
  | ValueError
  | ZeroDivisionError
  | TypeError
  | RuntimeError.

(** The outcome of a call. [Timeout] is not a Python outcome: it is what a
    [while] loop of the model returns when its fuel runs out. *)
Inductive result (A : Type) :=
  | Ok (a : A)
  | Raise (e : exn)
  | Timeout.
Arguments Ok {A} a.
Arguments Raise {A} e.
Arguments Timeout {A}.

Global Instance result_ret : MRet result := λ A, Ok.
Global Instance result_bind : MBind result := λ A B f m,
  match m with
  | Ok a => f a
  | Raise e => Raise e
  | Timeout => Timeout
  end.
Global Instance result_fmap : FMap result := λ A B f m,
  match m with
  | Ok a => Ok (f a)
  | Raise e => Raise e
  | Timeout => Timeout
  end.

(** [bool(v)]: [None], zero and the empty string are false. *)
Definition truthy (v : value) : bool :=
  match v with
  | VNone => false
  | VInt n => negb (n =? 0)
  | VFloat x => negb (Qeq_bool x 0)
  | VStr s => negb (s =? "")%string
  end.

(** [v == "name"] for a string literal on the right. *)
Definition eq_str (v : value) (name : string) : bool :=
  match v with
  | VStr s => (s =? name)%string
  | _ => false
  end.

Definition dict := list (string * value).

Definition keys (d : dict) : list string := d.*1.

Fixpoint lookup_key (key : string) (d : dict) : option value :=
  match d with
  | [] => None
  | (k, v) :: d' => if (k =? key)%string then Some v else lookup_key key d'
  end.

(** [d[key]] *)
Definition getitem (d : dict) (key : string) : result value :=
  match lookup_key key d with
  | Some v => Ok v
  | None => Raise (KeyError key)
  end.

(** [d[key] = v]: an existing key keeps its position, a new one goes last. *)
Fixpoint setitem (key : string) (v : value) (d : dict) : dict :=
  match d with
  | [] => [(key, v)]
  | (k, w) :: d' =>
      if (k =? key)%string then (k, v) :: d' else (k, w) :: setitem key v d'
  end.

End Py.
Export Py.

(** ** The layers of [torch.nn] that a model is assembled from *)

Inductive layer :=
  | Linear (in_features out_features : value)
  | ReLU
  | LeakyReLU
  | Sigmoid
  | Tanh
  | Softmax
  | Dropout (p : value).

(** The [nn.Sequential] container built from [layers], the only attribute
    of a [Net]. *)
Record Net := { network : list layer }.

(** ** [Net.__init__] *)

(** The [if]/[elif] chain on [gene["activation"]]: what it appends. *)
Definition activation_layers (activation : value) : list layer :=
  if eq_str activation "relu" then [ReLU]
  else if eq_str activation "leaky_relu" then [LeakyReLU]
  else if eq_str activation "sigmoid" then [Sigmoid]
  else if eq_str activation "tanh" then [Tanh]
  else [].

(** [x < y] on floats. *)
Definition Qltb (x y : Q) : bool := negb (Qle_bool y x).

(** [nn.Linear(in_features, out_features)]. The constructor allocates the
    weight with [torch.empty((out_features, in_features))], which takes
    integers only (TypeError) and refuses a negative one (RuntimeError);
    a width of zero gives an empty tensor. The size of the machine is not
    part of the model: a tensor of any size is allocated. *)
Definition nn_Linear (in_features out_features : value) : result layer :=
  match in_features, out_features with
  | VInt i, VInt o =>
      if (i <? 0) || (o <? 0) then Raise RuntimeError
      else Ok (Linear in_features out_features)
  | _, _ => Raise TypeError
  end.

(** [nn.Dropout(p)]. The constructor starts with
    [if p < 0 or p > 1: raise ValueError]; the comparison raises TypeError
    for [None] and for a string. *)
Definition nn_Dropout (p : value) : result layer :=
  match p with
  | VInt n => if (n <? 0) || (1 <? n) then Raise ValueError else Ok (Dropout p)
  | VFloat x =>
      if Qltb x 0 || Qltb 1 x then Raise ValueError else Ok (Dropout p)
  | VNone | VStr _ => Raise TypeError
  end.

(** [if gene["dropout_rate"]: layers.append(nn.Dropout(gene["dropout_rate"]))] *)
Definition dropout_layers (dropout_rate : value) : result (list layer) :=
  if truthy dropout_rate then
    dropout ← nn_Dropout dropout_rate; Ok [dropout]
  else Ok [].

(** The hidden-layer loop, with [layers] and [input_features] as the loop
    state. *)
Fixpoint Net_hidden (genome : list dict) (layers : list layer)
    (input_features : value) : result (list layer * value) :=
  match genome with
  | [] => Ok (layers, input_features)
  | gene :: genome' =>
      num_neurons ← getitem gene "num_neurons";
      linear ← nn_Linear input_features num_neurons;
      let layers := layers ++ [linear] in
      activation ← getitem gene "activation";
      let layers := layers ++ activation_layers activation in
      dropout_rate ← getitem gene "dropout_rate";
      dropout ← dropout_layers dropout_rate;
      let layers := layers ++ dropout in
      input_features ← getitem gene "num_neurons";
      Net_hidden genome' layers input_features
  end.

Definition Net_init (genome : list dict) (D K : Z) : result Net :=
  '(layers, input_features) ← Net_hidden genome [] (VInt D);
  output ← nn_Linear input_features (VInt K);
  Ok {| network := layers ++ [output] |}.

(** ** The builder as the specification words it (section 4.1)

    The specification's data model types a gene; [build] appends, for each
    gene, the fully-connected layer, the nonlinearity that the gene names
    and a dropout layer when a rate is given. *)

Module Spec.

Inductive activation_name := relu | leaky_relu | sigmoid | tanh | softmax.

Record Gene := {
  num_neurons : Z;
  activation : activation_name;
  dropout_rate : option Q;
}.

Definition name_of (a : activation_name) : string :=
  match a with
  | relu => "relu"
  | leaky_relu => "leaky_relu"
  | sigmoid => "sigmoid"
  | tanh => "tanh"
  | softmax => "softmax"
  end.

Definition nonlinearity (a : activation_name) : layer :=
  match a with
  | relu => ReLU
  | leaky_relu => LeakyReLU
  | sigmoid => Sigmoid
  | tanh => Tanh
  | softmax => Softmax
  end.

Definition dropout_value (d : option Q) : value :=
  match d with
  | None => VNone
  | Some p => VFloat p
  end.

Definition gene_layers (width : Z) (g : Gene) : list layer :=
  [Linear (VInt width) (VInt (num_neurons g)); nonlinearity (activation g)]
  ++ match dropout_rate g with
     | None => []
     | Some p => [Dropout (VFloat p)]
     end.

Fixpoint build_from (genome : list Gene) (width : Z) : list layer :=
  match genome with
  | [] => []
  | g :: genome' => gene_layers width g ++ build_from genome' (num_neurons g)
  end.

Definition last_width (genome : list Gene) (D : Z) : Z :=
  foldl (λ _ g, num_neurons g) D genome.

Definition build (genome : list Gene) (D K : Z) : list layer :=
  build_from genome D ++ [Linear (VInt (last_width genome D)) (VInt K)].

(** The invariant of the data model: a positive width, and a rate that is
    absent or strictly between 0 and 1. *)
Definition valid (g : Gene) : Prop :=
  0 < num_neurons g ∧
  match dropout_rate g with
  | None => True
  | Some p => (0 < p)%Q ∧ (p < 1)%Q
  end.

(** The dictionary [d] carries the fields of the typed gene [g]. *)
Definition represents (d : dict) (g : Gene) : Prop :=
  getitem d "num_neurons" = Ok (VInt (num_neurons g)) ∧
  getitem d "activation" = Ok (VStr (name_of (activation g))) ∧
  getitem d "dropout_rate" = Ok (dropout_value (dropout_rate g)).

End Spec.

(** ** The interpreter state: gene objects and the random module

    A gene dictionary is a mutable object: [mutate] assigns to its keys in
    place, and the same object can be reached from several genomes. The
    store maps object identities to dictionaries. A genome is the list of
    its genes' identities; lists are only ever appended to while they are
    being built ([child], [next_generation]), so they are kept as values. *)

Definition loc := nat.
Definition Genome := list loc.

Record state := State {
  heap : gmap loc dict;
  tape : list N;
}.

Definition M (A : Type) : Type := state → result (A * state).

Global Instance M_ret : MRet M := λ A a σ, Ok (a, σ).
Global Instance M_bind : MBind M := λ A B f m σ,
  match m σ with
  | Ok (a, σ') => f a σ'
  | Raise e => Raise e
  | Timeout => Timeout
  end.
Global Instance M_fmap : FMap M := λ A B f m σ,
  match m σ with
  | Ok (a, σ') => Ok (f a, σ')
  | Raise e => Raise e
  | Timeout => Timeout
  end.

Definition lift {A} (x : result A) : M A := λ σ,
  match x with
  | Ok a => Ok (a, σ)
  | Raise e => Raise e
  | Timeout => Timeout
  end.

(** A new dictionary object holding [d]. *)
Definition alloc (d : dict) : M loc := λ σ,
  let l := fresh (dom (heap σ)) in
  Ok (l, State (<[l:=d]> (heap σ)) (tape σ)).

Definition read (l : loc) : M dict := λ σ, Ok (heap σ !!! l, σ).

(** [gene[key]] on the object [gene] *)
Definition getitem_at (gene : loc) (key : string) : M value := λ σ,
  lift (getitem (heap σ !!! gene) key) σ.

(** [gene[key] = v] on the object [gene] *)
Definition setitem_at (gene : loc) (key : string) (v : value) : M unit := λ σ,
  Ok ((), State (<[gene := setitem key v (heap σ !!! gene)]> (heap σ)) (tape σ)).

(** The values of the genes of a genome, as [Net] reads them. *)
Definition deref (h : gmap loc dict) (g : Genome) : list dict :=
  (λ l, h !!! l) <$> g.

(** *** The [random] module

    Every primitive consumes draws from the tape; a draw can be any
    number, and an exhausted tape keeps yielding 0. *)

Definition draw : M N := λ σ,
  match tape σ with
  | [] => Ok (0%N, σ)
  | n :: t => Ok (n, State (heap σ) t)
  end.

(** [random.choice(seq)] *)
Definition random_choice {A} (seq : list A) : M A :=
  n ← draw;
  match seq !! N.to_nat (n mod N.of_nat (length seq)) with
  | Some x => mret x
  | None => lift (Raise IndexError)
  end.

(** [random.random()]: a multiple of 2^-53 in [0, 1). *)
Definition random_random : M Q :=
  n ← draw;
  mret (Z.of_N (n mod 9007199254740992) # 9007199254740992)%Q.

(** [random.randint(a, b)] *)
Definition random_randint (a b : Z) : M Z :=
  if b <? a then lift (Raise ValueError)
  else n ← draw; mret (a + Z.of_N n mod (b - a + 1)).

(** [random.sample(population, 2)]: two distinct positions. The second is
    drawn from the pool in which the last element has taken the place of
    the first pick. *)
Definition random_sample2 {A} (population : list A) : M (A * A) :=
  let n := length population in
  if (n <? 2)%nat then lift (Raise ValueError)
  else
    d1 ← draw;
    d2 ← draw;
    let i := N.to_nat (d1 mod N.of_nat n) in
    let j0 := N.to_nat (d2 mod N.of_nat (n - 1)) in
    let j := if (j0 =? i)%nat then (n - 1)%nat else j0 in
    match population !! i, population !! j with
    | Some x, Some y => mret (x, y)
    | _, _ => lift (Raise IndexError)
    end.

(** ** [generate_initial_population] *)

Record Blueprint := {
  max_n_layers : Z;
  neurons : list value;
  activations : list value;
  dropout : list value;
}.

Fixpoint generate_genome (n_layers : nat) (blueprint : Blueprint)
    (genome : Genome) : M Genome :=
  match n_layers with
  | O => mret genome
  | S n =>
      num_neurons ← random_choice (neurons blueprint);
      activation ← random_choice (activations blueprint);
      dropout_rate ← random_choice (dropout blueprint);
      gene ← alloc [("num_neurons", num_neurons);
                    ("activation", activation);
                    ("dropout_rate", dropout_rate)];
      generate_genome n blueprint (genome ++ [gene])
  end.

Fixpoint generate_population (size : nat) (blueprint : Blueprint)
    (population : list Genome) : M (list Genome) :=
  match size with
  | O => mret population
  | S n =>
      n_layers ← random_randint 1 (max_n_layers blueprint);
      genome ← generate_genome (Z.to_nat n_layers) blueprint [];
      generate_population n blueprint (population ++ [genome])
  end.

Definition generate_initial_population (size : nat) (blueprint : Blueprint)
    : M (list Genome) :=
  generate_population size blueprint [].

(** ** [selection] *)

(** [sorted(pairs, key=lambda x: x[0], reverse=True)]: the stable sort by
    decreasing key. Inserting from the right, an element goes in front of
    the first one whose key is not greater than its own, so that it stays
    in front of the equal keys that followed it. *)
Fixpoint insert_desc {A} (x : Q * A) (l : list (Q * A)) : list (Q * A) :=
  match l with
  | [] => [x]
  | y :: l' => if Qltb x.1 y.1 then y :: insert_desc x l' else x :: l
  end.

Definition sorted_reverse {A} (pairs : list (Q * A)) : list (Q * A) :=
  foldr insert_desc [] pairs.

Definition selection {A} (population : list A) (fitnesses : list Q)
    (num_parents : nat) : list A :=
  let sorted_population := (sorted_reverse (zip fitnesses population)).*2 in
  take num_parents sorted_population.

(** Decreasing keys. *)
Definition desc {A} : relation (Q * A) := λ x y, (y.1 <= x.1)%Q.

(** The pairs whose key equals [q], in the order of the list. *)
Definition with_key {A} (q : Q) (l : list (Q * A)) : list (Q * A) :=
  List.filter (λ x, Qeq_bool x.1 q) l.

(** ** Genes in the store *)

(** The attribute keys of a gene. *)
Definition gene_keys : list string :=
  ["num_neurons"; "activation"; "dropout_rate"].

(** The object [l] of the store [h] is a gene with exactly these keys. *)
Definition is_gene (h : gmap loc dict) (l : loc) : Prop :=
  ∃ d, h !! l = Some d ∧ keys d ≡ₚ gene_keys.

(** The dictionary [d'] has the keys of [d1], and under each of them the
    value that [d1] or [d2] has there. *)
Definition crossed (d1 d2 d' : dict) : Prop :=
  keys d' = keys d1 ∧
  ∀ k, k ∈ keys d1 →
    ∃ v, getitem d' k = Ok v ∧ (getitem d1 k = Ok v ∨ getitem d2 k = Ok v).

(** ** [crossover] *)

(** The loop [for key in gene1]. *)
Fixpoint crossover_keys (ks : list string) (gene1 gene2 child_gene : loc)
    : M unit :=
  match ks with
  | [] => mret ()
  | key :: ks' =>
      b ← random_choice [true; false];
      v ← (if b : bool then getitem_at gene1 key else getitem_at gene2 key);
      setitem_at child_gene key v;;
      crossover_keys ks' gene1 gene2 child_gene
  end.

(** The loop [for gene1, gene2 in zip(parent1, parent2)]. *)
Fixpoint crossover_zip (pairs : list (loc * loc)) (child : Genome)
    : M Genome :=
  match pairs with
  | [] => mret child
  | (gene1, gene2) :: pairs' =>
      child_gene ← alloc [];
      ks ← keys <$> read gene1;
      crossover_keys ks gene1 gene2 child_gene;;
      crossover_zip pairs' (child ++ [child_gene])
  end.

Definition crossover (parent1 parent2 : Genome) : M Genome :=
  crossover_zip (zip parent1 parent2) [].

(** ** [mutate] *)

Definition mutation_neurons : list value := [VInt 4; VInt 8; VInt 16; VInt 32].
Definition mutation_activations : list value :=
  [VStr "relu"; VStr "sigmoid"; VStr "tanh"; VStr "softmax"].
Definition mutation_dropout : list value :=
  [VNone; VFloat 0.1; VFloat 0.2; VFloat 0.3].

(** The body of the loop over the items: the [if]/[elif] chain on [key]. *)
Definition mutate_item (key : string) (gene : loc) : M unit :=
  if (key =? "num_neurons")%string then
    v ← random_choice mutation_neurons; setitem_at gene key v
  else if (key =? "activation")%string then
    v ← random_choice mutation_activations; setitem_at gene key v
  else if (key =? "dropout_rate")%string then
    v ← random_choice mutation_dropout; setitem_at gene key v
  else mret ().

(** The loop [for key, _ in gene.items()]. *)
Fixpoint mutate_items (ks : list string) (gene : loc) : M unit :=
  match ks with
  | [] => mret ()
  | key :: ks' => mutate_item key gene;; mutate_items ks' gene
  end.

(** The body of the loop over the genes, for a given value of the local
    [mutation_rate]. *)
Definition mutate_gene (mutation_rate : Q) (gene : loc) : M unit :=
  x ← random_random;
  if Qltb x mutation_rate then
    ks ← keys <$> read gene; mutate_items ks gene
  else mret ().

(** The loop [for gene in genome]. *)
Fixpoint mutate_genes (mutation_rate : Q) (genes : Genome) : M unit :=
  match genes with
  | [] => mret ()
  | gene :: genes' =>
      mutate_gene mutation_rate gene;; mutate_genes mutation_rate genes'
  end.

Definition mutate_with (mutation_rate : Q) (genome : Genome) : M Genome :=
  mutate_genes mutation_rate genome;; mret genome.

(** [mutate] sets [mutation_rate = 0.1] before its loop. *)
Definition mutate (genome : Genome) : M Genome := mutate_with 0.1 genome.

(** ** [compute_fitness]

    The tensor library is a parameter: [initialise] stands for the fresh
    parameters and optimizer state of a built model, [optimizer_step] for
    one pass of [zero_grad], forward, loss, [backward] and [step] on a
    batch, [loss_item] for the loss it reports, [predict] for the row-wise
    argmax of the output in evaluation mode and [argmax] for the row-wise
    argmax of a one-hot target. *)

Section Fitness.
Context {model data target : Type}.
Variable initialise : Net → model.
Variable optimizer_step : model → data * target → model.
Variable loss_item : model → data * target → Q.
Variable predict : model → data → list nat.
Variable argmax : target → list nat.

(** A training provider: [len(train_loader)] and the batches that its
    successive iterations yield (a provider may reshuffle). *)
Record Loader := {
  len : nat;
  batches : nat → list (data * target);
}.

(** The loop [for batch_idx, (data, target) in enumerate(train_loader)]. *)
Fixpoint train_epoch (bs : list (data * target)) (m : model)
    (epoch_loss : Q) : model * Q :=
  match bs with
  | [] => (m, epoch_loss)
  | b :: bs' =>
      train_epoch bs' (optimizer_step m b) (epoch_loss + loss_item m b)%Q
  end.

(** The loop [for epoch in range(epochs)]; the average loss that it
    prints divides by [total_batches]. *)
Fixpoint train (epochs epoch : nat) (train_loader : Loader) (m : model)
    (total_loss : Q) : result (model * Q) :=
  match epochs with
  | O => Ok (m, total_loss)
  | S epochs' =>
      let '(m', epoch_loss) := train_epoch (batches train_loader epoch) m 0%Q in
      average_epoch_loss ←
        (if (len train_loader =? 0)%nat then Raise ZeroDivisionError
         else Ok (epoch_loss / inject_Z (Z.of_nat (len train_loader)))%Q);
      train epochs' (S epoch) train_loader m' (total_loss + epoch_loss)%Q
  end.

(** [pred.eq(target).sum().item()] *)
Definition count_equal (pred tgt : list nat) : nat :=
  length (filter (λ p, p.1 = p.2) (zip pred tgt)).

(** The loop [for data, target in test_loader]. *)
Fixpoint evaluate (test_loader : list (data * target)) (m : model)
    (correct total : nat) : nat * nat :=
  match test_loader with
  | [] => (correct, total)
  | (x, y) :: rest =>
      let pred := predict m x in
      let tgt := argmax y in
      evaluate rest m (correct + count_equal pred tgt)%nat
               (total + length tgt)%nat
  end.

Definition compute_fitness (genome : list dict) (train_loader : Loader)
    (test_loader : list (data * target)) (epochs : nat) (D K : Z)
    : result Q :=
  net ← Net_init genome D K;
  '(m, total_loss) ← train epochs 0 train_loader (initialise net) 0%Q;
  let '(correct, total) := evaluate test_loader m 0%nat 0%nat in
  if (total =? 0)%nat then Raise ZeroDivisionError
  else Ok (Z.of_nat correct # Pos.of_nat total)%Q.
End Fitness.

(** The batches of the first [epochs] iterations of a training provider,
    in the order in which they are yielded. *)
Definition passes {data target : Type} (train_loader : @Loader data target)
    (epochs : nat) : list (data * target) :=
  concat (batches train_loader <$> seq 0 epochs).

(** The validation samples that the model [m] classifies as their target
    says, and all validation samples. *)
Definition correct_count {model data target : Type}
    (predict : model → data → list nat) (argmax : target → list nat)
    (m : model) (test_loader : list (data * target)) : nat :=
  sum_list ((λ b, count_equal (predict m b.1) (argmax b.2)) <$> test_loader).

Definition total_count {data target : Type} (argmax : target → list nat)
    (test_loader : list (data * target)) : nat :=
  sum_list ((λ b, length (argmax b.2)) <$> test_loader).

(** ** The generation loop *)

(** [float("-inf")] or a float. *)
Inductive efloat :=
  | NegInf
  | Fin (q : Q).

(** [x > best] for a float [x] *)
Definition exceeds (x : Q) (best : efloat) : bool :=
  match best with
  | NegInf => true
  | Fin b => Qltb b x
  end.

(** [max(fitnesses)]: the first of the largest elements. *)
Definition py_max (l : list Q) : result Q :=
  match l with
  | [] => Raise ValueError
  | x :: l' => Ok (foldl (λ m y, if Qltb m y then y else m) x l')
  end.

(** [fitnesses.index(x)]: the first position that holds a value equal to
    [x]. *)
Fixpoint py_index (x : Q) (l : list Q) : result nat :=
  match l with
  | [] => Raise ValueError
  | y :: l' => if Qeq_bool y x then Ok O else S <$> py_index x l'
  end.

(** [l[i]] *)
Definition py_nth {A} (l : list A) (i : nat) : result A :=
  match l !! i with
  | Some x => Ok x
  | None => Raise IndexError
  end.

(** The variables of the main program. [observed] is a ghost variable: the
    fitness lists of the generations processed so far, which the program
    prints and does not keep. *)
Record GA := {
  population : list Genome;
  best_overall_fitness : efloat;
  best_overall_architecture : option Genome;
  observed : list (list Q);
}.

Section Orchestrator.
Variables population_size num_parents : nat.
(** [fitness generation idx genes] stands for the call of
    [compute_fitness] on the genome at position [idx] of generation
    [generation]: training is not reproducible from one call to the
    next. *)
Variable fitness : nat → nat → list dict → result Q.

(** The loop [for idx, genome in enumerate(population)]. *)
Fixpoint evaluate_population (generation idx : nat)
    (population : list Genome) (fitnesses : list Q) : M (list Q) :=
  match population with
  | [] => mret fitnesses
  | genome :: population' =>
      f ← (λ σ, lift (fitness generation idx (deref (heap σ) genome)) σ);
      evaluate_population generation (S idx) population' (fitnesses ++ [f])
  end.

(** One child: [random.sample], [crossover], [mutate]. *)
Definition make_child (parents : list Genome) : M Genome :=
  '(parent1, parent2) ← random_sample2 parents;
  child ← crossover parent1 parent2;
  mutate child.

(** The loop [while len(next_generation) < population_size]. *)
Fixpoint breed_while (fuel : nat) (parents next_generation : list Genome)
    : M (list Genome) :=
  if (length next_generation <? population_size)%nat then
    match fuel with
    | O => lift Timeout
    | S fuel' =>
        child ← make_child parents;
        breed_while fuel' parents (next_generation ++ [child])
    end
  else mret next_generation.

(** [next_generation = parents[:]] and the loop. *)
Definition breed (fuel : nat) (parents : list Genome) : M (list Genome) :=
  breed_while fuel parents parents.

(** The best-overall tracking of one generation. *)
Definition track (s : GA) (fitnesses : list Q) : result GA :=
  m ← py_max fitnesses;
  max_fitness_idx ← py_index m fitnesses;
  best_fitness_this_gen ← py_nth fitnesses max_fitness_idx;
  best_architecture_this_gen ← py_nth (population s) max_fitness_idx;
  if exceeds best_fitness_this_gen (best_overall_fitness s) then
    Ok {| population := population s;
          best_overall_fitness := Fin best_fitness_this_gen;
          best_overall_architecture := Some best_architecture_this_gen;
          observed := observed s ++ [fitnesses] |}
  else
    Ok {| population := population s;
          best_overall_fitness := best_overall_fitness s;
          best_overall_architecture := best_overall_architecture s;
          observed := observed s ++ [fitnesses] |}.

(** The body of [for generation in range(num_generations)]. *)
Definition generation_body (fuel generation : nat) (s : GA) : M GA :=
  fitnesses ← evaluate_population generation 0 (population s) [];
  let parents := selection (population s) fitnesses num_parents in
  s' ← lift (track s fitnesses);
  next_generation ← breed fuel parents;
  mret {| population := next_generation;
          best_overall_fitness := best_overall_fitness s';
          best_overall_architecture := best_overall_architecture s';
          observed := observed s' |}.

Fixpoint generation_loop (fuel : nat) (generations : list nat) (s : GA)
    : M GA :=
  match generations with
  | [] => mret s
  | generation :: generations' =>
      s' ← generation_body fuel generation s;
      generation_loop fuel generations' s'
  end.

(** The state before the loop. *)
Definition initial (population : list Genome) : GA :=
  {| population := population;
     best_overall_fitness := NegInf;
     best_overall_architecture := None;
     observed := [] |}.

Definition run (fuel num_generations : nat) (blueprint : Blueprint) : M GA :=
  population ← generate_initial_population population_size blueprint;
  generation_loop fuel (seq 0 num_generations) (initial population).
End Orchestrator.

(** ** The best-overall tracker, as an invariant *)

Definition efloat_le (a b : efloat) : Prop :=
  match a, b with
  | NegInf, _ => True
  | Fin _, NegInf => False
  | Fin x, Fin y => (x <= y)%Q
  end.

(** The stored fitness is the largest of the fitness values observed so
    far: minus infinity when nothing was observed, else one of the
    observed values that none of them exceeds. *)
Definition running_maximum (s : GA) : Prop :=
  match best_overall_fitness s with
  | NegInf => observed s = []
  | Fin b =>
      b ∈ concat (observed s) ∧ ∀ x, x ∈ concat (observed s) → (x <= b)%Q
  end.

(** ** Breeding, as a relation

    [child_of parents σ child σ']: from the state [σ], [child] is made of
    two parents at distinct positions of [parents] by [crossover] and then
    [mutate], which leaves the state [σ']. *)
Inductive child_of (parents : list Genome) (σ : state) (child : Genome)
    (σ' : state) : Prop :=
  | child_of_intro i j parent1 parent2 σ1 crossed_child σ2 :
      i ≠ j →
      parents !! i = Some parent1 →
      parents !! j = Some parent2 →
      random_sample2 parents σ = Ok ((parent1, parent2), σ1) →
      crossover parent1 parent2 σ1 = Ok (crossed_child, σ2) →
      mutate crossed_child σ2 = Ok (child, σ') →
      child_of parents σ child σ'.

(** A sequence of children made one after the other. *)
Inductive children_of (parents : list Genome)
    : state → list Genome → state → Prop :=
  | children_nil σ : children_of parents σ [] σ
  | children_cons σ child σ1 children σ' :
      child_of parents σ child σ1 →
      children_of parents σ1 children σ' →
      children_of parents σ (child :: children) σ'.

(** What [mutate_item] draws from for a key. *)
Definition candidates (key : string) : list value :=
  if (key =? "num_neurons")%string then mutation_neurons
  else if (key =? "activation")%string then mutation_activations
  else if (key =? "dropout_rate")%string then mutation_dropout
  else [].

(** All three attributes of [d] are in the mutation candidate sets. *)
Definition resampled (d : dict) : Prop :=
  (∃ v, getitem d "num_neurons" = Ok v ∧
        v ∈ [VInt 4; VInt 8; VInt 16; VInt 32]) ∧
  (∃ v, getitem d "activation" = Ok v ∧
        v ∈ [VStr "relu"; VStr "sigmoid"; VStr "tanh"; VStr "softmax"]) ∧
  (∃ v, getitem d "dropout_rate" = Ok v ∧
        v ∈ [VNone; VFloat 0.1; VFloat 0.2; VFloat 0.3]).

(** ** Inputs used by the examples *)

Definition softmax_gene : dict :=
  [("num_neurons", VInt 8); ("activation", VStr "softmax");
   ("dropout_rate", VNone)].

Definition relu_gene : dict :=
  [("num_neurons", VInt 16); ("activation", VStr "relu");
   ("dropout_rate", VFloat 0.2)].

(** The gene of the docstring of [selection]: no dropout key. *)
Definition docstring_gene : dict :=
  [("num_neurons", VInt 32); ("activation", VStr "relu")].

Definition typed_softmax_gene : Spec.Gene :=
  {| Spec.num_neurons := 8; Spec.activation := Spec.softmax;
     Spec.dropout_rate := None |}.

Definition typed_relu_gene : Spec.Gene :=
  {| Spec.num_neurons := 16; Spec.activation := Spec.relu;
     Spec.dropout_rate := Some 0.2%Q |}.

(** A store with two genes, and a tape. *)
Definition example_heap : gmap loc dict :=
  <[1%nat := relu_gene]> (<[0%nat := softmax_gene]> ∅).

Definition example_state : state :=
  State example_heap [0; 1; 1; 7; 3; 2; 5; 1; 2; 3; 4]%N.

(** A population over the example store and its fitness list. *)
Definition example_population : list Genome :=
  [[0%nat]; [1%nat]; [0%nat; 1%nat]].

Definition example_fitnesses : list Q := [0.5; 0.9; 0.7]%Q.

(** A stand-in for the fitness evaluator: the genome at position [idx] of
    generation [generation] scores (idx + generation + 1) / 8. *)
Definition example_fitness (generation idx : nat) (genes : list dict)
    : result Q :=
  Ok (Z.of_nat (idx + generation + 1) # 8)%Q.

(** The main program's variables and the state after the first
    generation of the example. *)
Definition example_first_generation : result (GA * state) :=
  generation_loop 3 2 example_fitness 1 (seq 0 1)
    (initial example_population) example_state.

Definition example_GA_1 : GA :=
  Eval vm_compute in
    match example_first_generation with
    | Ok (s, _) => s
    | _ => initial []
    end.

Definition example_state_1 : state :=
  Eval vm_compute in
    match example_first_generation with
    | Ok (_, σ) => σ
    | _ => example_state
    end.

(** A training provider without batches, one with a single batch, and a
    validation provider with one batch of one sample. *)
Definition empty_loader : @Loader unit unit :=
  {| len := 0; batches := λ _, [] |}.

Definition one_batch_loader : @Loader unit unit :=
  {| len := 1; batches := λ _, [((), ())] |}.

Definition one_sample : list (unit * unit) := [((), ())].

(** ** Observations on a built model *)

(** What the constructors accept: [nn.Linear] a non-negative integer,
    [nn.Dropout] a number between 0 and 1. *)
Definition is_width (v : value) : Prop := ∃ n, v = VInt n ∧ 0 ≤ n.

Definition is_rate (v : value) : Prop :=
  match v with
  | VInt n => 0 ≤ n ≤ 1
  | VFloat p => (0 <= p)%Q ∧ (p <= 1)%Q
  | VNone | VStr _ => False
  end.

(** A gene that passes every lookup and every check of the builder: the
    three keys, a width that [nn.Linear] accepts, and a dropout rate that
    counts as false or that [nn.Dropout] accepts. *)
Definition buildable (d : dict) : Prop :=
  (∃ n, getitem d "num_neurons" = Ok n ∧ is_width n) ∧
  (∃ a, getitem d "activation" = Ok a) ∧
  (∃ p, getitem d "dropout_rate" = Ok p ∧ (truthy p = true → is_rate p)).

(** The candidates of the data model: a positive integer width, and a
    rate that is [None] or a float between 0 and 1. *)
Definition positive_width (v : value) : Prop := ∃ n, v = VInt n ∧ 1 ≤ n.

Definition rate_or_none (v : value) : Prop :=
  v = VNone ∨ ∃ p, v = VFloat p ∧ (0 <= p)%Q ∧ (p <= 1)%Q.

(** Every attribute key is a key of [d]. *)
Definition has_gene_keys (d : dict) : Prop :=
  ∀ k, k ∈ gene_keys → k ∈ keys d.

(** The fully-connected layers of [ls] feed one another: the first takes
    width [w], each next one takes what the one before it gives, and the
    last gives [out]. *)
Fixpoint widths_chain (w : value) (ls : list layer) (out : value) : Prop :=
  match ls with
  | [] => w = out
  | Linear a b :: ls' => a = w ∧ widths_chain b ls' out
  | _ :: ls' => widths_chain w ls' out
  end.

(** The output widths of the fully-connected layers, in order. *)
Fixpoint linear_outs (ls : list layer) : list value :=
  match ls with
  | [] => []
  | Linear _ b :: ls' => b :: linear_outs ls'
  | _ :: ls' => linear_outs ls'
  end.

(** The probabilities of the dropout layers, in order. *)
Fixpoint dropout_rates (ls : list layer) : list value :=
  match ls with
  | [] => []
  | Dropout p :: ls' => p :: dropout_rates ls'
  | _ :: ls' => dropout_rates ls'
  end.

(** The dictionary [d'] comes from [d] by mutation: it has the keys of [d]
    in their order, the value of [d] under every key that is not an
    attribute key, and under each key a value of [d] or a candidate of
    that key. *)
Definition mutated_from (d d' : dict) : Prop :=
  keys d' = keys d ∧
  ∀ K,
    (K ∉ gene_keys → lookup_key K d' = lookup_key K d) ∧
    (∀ v, lookup_key K d' = Some v →
          lookup_key K d = Some v ∨ v ∈ candidates K).

(** A store whose second gene lacks the dropout key, and a tape. *)
Definition docstring_state : state :=
  State (<[1%nat := docstring_gene]> (<[0%nat := relu_gene]> ∅))
        [0; 1; 1; 7; 0; 2; 5]%N.

(** A fitness evaluator that builds the model and scores one half: it
    raises what the builder raises. *)
Definition building_fitness (generation idx : nat) (genes : list dict)
    : result Q :=
  _ ← Net_init genes 3 4; Ok (1 # 2)%Q.

(** The tracker points to a genome whose genes are well formed in the
    store [h] and whose value there is the one that scored the stored
    fitness. *)
Definition tracked (fitness : nat → nat → list dict → result Q)
    (s : GA) (h : gmap loc dict) : Prop :=
  match best_overall_fitness s, best_overall_architecture s with
  | NegInf, None => observed s = []
  | Fin b, Some arch =>
      Forall (is_gene h) arch ∧
      ∃ generation idx, fitness generation idx (deref h arch) = Ok b
  | _, _ => False
  end.

(** The blueprint of the main program. *)
Definition blueprint : Blueprint :=
  {| max_n_layers := 5;
     neurons := [VInt 4; VInt 8; VInt 16; VInt 32; VInt 64; VInt 128; VInt 256];
     activations :=
       [VStr "relu"; VStr "leaky_relu"; VStr "sigmoid"; VStr "tanh"];
     dropout :=
       [VNone; VFloat 0.1; VFloat 0.2; VFloat 0.3; VFloat 0.4; VFloat 0.5] |}.

(** ** The final retraining of the best architecture

    The model is rebuilt from the best architecture and trained and
    evaluated by the loops of the main program, which are written out a
    second time there. The inner loop over the batches is the one of
    [compute_fitness] with [total_loss] in the place of [epoch_loss]. *)

Section Retrain.
Context {model data target : Type}.
Variable initialise : Net → model.
Variable optimizer_step : model → data * target → model.
Variable loss_item : model → data * target → Q.
Variable predict : model → data → list nat.
Variable argmax : target → list nat.

(** The loop [for epoch in range(EPOCHS)] of the retraining. *)
Fixpoint retrain_epochs (epochs epoch : nat) (train_loader : Loader)
    (best_model : model) : result model :=
  match epochs with
  | O => Ok best_model
  | S epochs' =>
      let '(best_model', total_loss) :=
        train_epoch optimizer_step loss_item
          (batches train_loader epoch) best_model 0%Q in
      average_epoch_loss ←
        (if (len train_loader =? 0)%nat then Raise ZeroDivisionError
         else Ok (total_loss / inject_Z (Z.of_nat (len train_loader)))%Q);
      retrain_epochs epochs' (S epoch) train_loader best_model'
  end.

(** From [best_model = Net(best_overall_architecture, D=Nsamps,
    K=Nclasses)] to [validation_accuracy]. *)
Definition retrain (best_overall_architecture : list dict)
    (train_loader : Loader) (val_loader : list (data * target))
    (epochs : nat) (D K : Z) : result Q :=
  net ← Net_init best_overall_architecture D K;
  best_model ← retrain_epochs epochs 0 train_loader (initialise net);
  let '(correct, total) :=
    evaluate predict argmax val_loader best_model 0%nat 0%nat in
  if (total =? 0)%nat then Raise ZeroDivisionError
  else Ok (Z.of_nat correct # Pos.of_nat total)%Q.
End Retrain.

(** A gene as [generate_initial_population] makes it: the three keys in
    the order of the dictionary display, each with a candidate of the
    blueprint. *)
Definition drawn_from (blueprint : Blueprint) (d : dict) : Prop :=
  ∃ n a p,
    d = [("num_neurons", n); ("activation", a); ("dropout_rate", p)] ∧
    n ∈ neurons blueprint ∧
    a ∈ activations blueprint ∧
    p ∈ dropout blueprint.

(** ** The search space

    [within blueprint d]: each attribute of the gene [d] is a candidate of
    the blueprint or one of the values that [mutate] draws from. *)
Definition within (blueprint : Blueprint) (d : dict) : Prop :=
  (∃ v, getitem d "num_neurons" = Ok v ∧
        (v ∈ neurons blueprint ∨ v ∈ mutation_neurons)) ∧
  (∃ v, getitem d "activation" = Ok v ∧
        (v ∈ activations blueprint ∨ v ∈ mutation_activations)) ∧
  (∃ v, getitem d "dropout_rate" = Ok v ∧
        (v ∈ dropout blueprint ∨ v ∈ mutation_dropout)).

(** The object [l] of the store [h] is a gene of the search space. *)
Definition gene_within (blueprint : Blueprint) (h : gmap loc dict) (l : loc)
    : Prop :=
  ∃ d, h !! l = Some d ∧ keys d ≡ₚ gene_keys ∧ within blueprint d.

(** * Properties *)

(** ** The builder *)

Section NetFacts.

(** [nn.Linear] succeeds exactly on non-negative integers. *)
Lemma nn_Linear_Ok w n l :
  nn_Linear w n = Ok l ↔
  l = Linear w n ∧ ∃ i o, w = VInt i ∧ n = VInt o ∧ 0 ≤ i ∧ 0 ≤ o.
Proof.
  unfold nn_Linear. split.
  - destruct w as [|i| |]; try done. destruct n as [|o| |]; try done.
    destruct (Z.ltb_spec i 0); [done|]. destruct (Z.ltb_spec o 0); [done|].
    cbn. intros [= <-]. split; [done|]. by exists i, o.
  - intros (-> & i & o & -> & -> & Hi & Ho).
    destruct (Z.ltb_spec i 0); [lia|]. destruct (Z.ltb_spec o 0); [lia|].
    done.
Qed.

Lemma nn_Linear_widths i o :
  0 ≤ i → 0 ≤ o → nn_Linear (VInt i) (VInt o) = Ok (Linear (VInt i) (VInt o)).
Proof. intros Hi Ho. apply nn_Linear_Ok. split; [done|]. by exists i, o. Qed.

Lemma nn_Dropout_Ok p l : nn_Dropout p = Ok l → l = Dropout p.
Proof.
  unfold nn_Dropout. destruct p as [|n|x|]; try done.
  - destruct (_ || _); [done|]. by intros [= <-].
  - destruct (_ || _); [done|]. by intros [= <-].
Qed.

Lemma dropout_layers_Ok p dl :
  dropout_layers p = Ok dl → dl = if truthy p then [Dropout p] else [].
Proof.
  unfold dropout_layers. destruct (truthy p); [|by intros [= <-]].
  destruct (nn_Dropout p) as [l| |] eqn:E; cbn; [|done..].
  intros [= <-]. by rewrite (nn_Dropout_Ok _ _ E).
Qed.

(** One round of the loop that goes through. *)
Lemma Net_hidden_cons gene genome layers w n a d l dl :
  getitem gene "num_neurons" = Ok n →
  getitem gene "activation" = Ok a →
  getitem gene "dropout_rate" = Ok d →
  nn_Linear w n = Ok l →
  dropout_layers d = Ok dl →
  Net_hidden (gene :: genome) layers w =
  Net_hidden genome (layers ++ l :: activation_layers a ++ dl) n.
Proof.
  intros Hn Ha Hd Hl Hdl. cbn [Net_hidden]. rewrite Hn. cbn.
  rewrite Hl. cbn. rewrite Ha. cbn. rewrite Hd. cbn. rewrite Hdl. cbn.
  f_equal. rewrite <- !app_assoc. reflexivity.
Qed.

(** A round of the loop that is followed by a result has gone through. *)
Lemma Net_hidden_inv gene genome layers w out w' :
  Net_hidden (gene :: genome) layers w = Ok (out, w') →
  ∃ n a d,
    getitem gene "num_neurons" = Ok n ∧
    getitem gene "activation" = Ok a ∧
    getitem gene "dropout_rate" = Ok d ∧
    nn_Linear w n = Ok (Linear w n) ∧
    dropout_layers d = Ok (if truthy d then [Dropout d] else []) ∧
    Net_hidden genome
      (layers ++ Linear w n :: activation_layers a
              ++ if truthy d then [Dropout d] else []) n
    = Ok (out, w').
Proof.
  cbn [Net_hidden].
  destruct (getitem gene "num_neurons") as [n| |] eqn:Hn;
    cbn [mbind result_bind]; [|done..].
  destruct (nn_Linear w n) as [l| |] eqn:Hl;
    cbn [mbind result_bind]; [|done..].
  destruct (getitem gene "activation") as [a| |] eqn:Ha;
    cbn [mbind result_bind]; [|done..].
  destruct (getitem gene "dropout_rate") as [d| |] eqn:Hd;
    cbn [mbind result_bind]; [|done..].
  destruct (dropout_layers d) as [dl| |] eqn:Hdl;
    cbn [mbind result_bind]; [|done..].
  intros H.
  pose proof (proj1 (proj1 (nn_Linear_Ok _ _ _) Hl)) as ->.
  pose proof (dropout_layers_Ok _ _ Hdl) as ->.
  exists n, a, d. rewrite Hl. repeat (split; [done|]).
  rewrite <- H. f_equal. rewrite <- !app_assoc. reflexivity.
Qed.

Lemma Net_hidden_app pre post layers w before w' :
  Net_hidden pre layers w = Ok (before, w') →
  Net_hidden (pre ++ post) layers w = Net_hidden post before w'.
Proof.
  revert layers w. induction pre as [|gene pre IH]; intros layers w H.
  - cbn in H. injection H as <- <-. reflexivity.
  - apply Net_hidden_inv in H as (n & a & d & Hn & Ha & Hd & Hl & Hdl & H).
    cbn [app]. rewrite (Net_hidden_cons _ _ _ _ _ _ _ _ _ Hn Ha Hd Hl Hdl).
    by apply IH.
Qed.

(** The loop only appends to the layers it is given. *)
Lemma Net_hidden_acc genome acc w out w' :
  Net_hidden genome acc w = Ok (out, w') →
  ∀ layers, Net_hidden genome (layers ++ acc) w = Ok (layers ++ out, w').
Proof.
  revert acc w. induction genome as [|gene genome IH]; intros acc w H layers.
  - cbn in *. injection H as <- <-. reflexivity.
  - apply Net_hidden_inv in H as (n & a & d & Hn & Ha & Hd & Hl & Hdl & H).
    rewrite (Net_hidden_cons _ _ _ _ _ _ _ _ _ Hn Ha Hd Hl Hdl).
    rewrite <- app_assoc. by apply IH.
Qed.

Lemma Net_hidden_from_nil genome w out w' layers :
  Net_hidden genome [] w = Ok (out, w') →
  Net_hidden genome layers w = Ok (layers ++ out, w').
Proof.
  intros H. rewrite <- (app_nil_r layers) at 1.
  by apply Net_hidden_acc.
Qed.

(** The width that the loop hands on is a width that a constructor has
    accepted, or the one it started with. *)
Lemma Net_hidden_width genome :
  ∀ layers i out w',
  0 ≤ i →
  Net_hidden genome layers (VInt i) = Ok (out, w') →
  ∃ j, w' = VInt j ∧ 0 ≤ j.
Proof.
  induction genome as [|gene genome IH]; intros layers i out w' Hi H.
  - injection H as <- <-. by exists i.
  - apply Net_hidden_inv in H as (n & a & d & _ & _ & _ & Hl & _ & H).
    apply nn_Linear_Ok in Hl as (_ & i' & o & _ & -> & _ & Ho).
    by eapply IH.
Qed.

Lemma Net_init_of_hidden genome D K layers w :
  Net_hidden genome [] (VInt D) = Ok (layers, VInt w) →
  0 ≤ w → 0 ≤ K →
  Net_init genome D K
  = Ok {| network := layers ++ [Linear (VInt w) (VInt K)] |}.
Proof.
  intros H Hw HK. unfold Net_init. rewrite H. cbn [mbind result_bind].
  by rewrite nn_Linear_widths.
Qed.

Lemma truthy_rate p : (0 < p)%Q → truthy (VFloat p) = true.
Proof.
  intros Hp. cbn. destruct (Qeq_bool p 0) eqn:E; [|reflexivity].
  apply Qeq_bool_eq in E. rewrite E in Hp. by apply Qlt_irrefl in Hp.
Qed.

Lemma Qltb_ge x y : (y <= x)%Q → Qltb x y = false.
Proof.
  intros H. unfold Qltb. apply negb_false_iff. by apply Qle_bool_iff.
Qed.

(** [nn.Dropout] accepts a float between 0 and 1. *)
Lemma nn_Dropout_rate p :
  (0 <= p)%Q → (p <= 1)%Q → nn_Dropout (VFloat p) = Ok (Dropout (VFloat p)).
Proof.
  intros H0 H1. unfold nn_Dropout. by rewrite !Qltb_ge.
Qed.

Lemma activation_layers_named a :
  a ≠ Spec.softmax →
  activation_layers (VStr (Spec.name_of a)) = [Spec.nonlinearity a].
Proof. destruct a; intros H; try reflexivity. congruence. Qed.

Lemma dropout_layers_valid g :
  Spec.valid g →
  dropout_layers (Spec.dropout_value (Spec.dropout_rate g)) =
  Ok match Spec.dropout_rate g with
     | None => []
     | Some p => [Dropout (VFloat p)]
     end.
Proof.
  intros [_ H]. destruct (Spec.dropout_rate g) as [p|]; [|reflexivity].
  destruct H as [H0 H1]. unfold dropout_layers. cbn [Spec.dropout_value].
  rewrite truthy_rate by done.
  by rewrite nn_Dropout_rate by by apply Qlt_le_weak.
Qed.

Lemma last_width_positive genes w :
  Forall Spec.valid genes → 1 ≤ w → 1 ≤ Spec.last_width genes w.
Proof.
  intros Hv. revert w. unfold Spec.last_width.
  induction Hv as [|g genes [Hg _] _ IH]; intros w Hw; cbn; [done|].
  apply IH. lia.
Qed.

Lemma Net_hidden_build dicts genes w :
  Forall2 Spec.represents dicts genes →
  Forall Spec.valid genes →
  Forall (λ g, Spec.activation g ≠ Spec.softmax) genes →
  1 ≤ w →
  Net_hidden dicts [] (VInt w) =
  Ok (Spec.build_from genes w, VInt (Spec.last_width genes w)).
Proof.
  intros Hrep. revert w.
  induction Hrep as [|d g dicts genes (Hn & Ha & Hd) _ IH]; intros w Hv Hs Hw.
  - reflexivity.
  - apply Forall_cons in Hv as [Hv Hvs]. apply Forall_cons in Hs as [Hs Hss].
    assert (Hpos : 1 ≤ Spec.num_neurons g) by (destruct Hv; lia).
    rewrite (Net_hidden_cons _ _ _ _ _ _ _ _ _ Hn Ha Hd
               (nn_Linear_widths w (Spec.num_neurons g) ltac:(lia)
                  ltac:(lia))
               (dropout_layers_valid g Hv)).
    rewrite (Net_hidden_from_nil _ _ _ _ _
               (IH (Spec.num_neurons g) Hvs Hss Hpos)).
    rewrite activation_layers_named by done.
    reflexivity.
Qed.

End NetFacts.

(** C1, amended. For every genome of the data model (positive widths, a
    dropout rate that is absent or strictly between 0 and 1) whose
    activations are among relu, leaky_relu, sigmoid and tanh, and every
    D, K >= 1, the builder returns exactly the layers of the
    specification: per gene a fully-connected layer from the current
    width, the named nonlinearity, a dropout layer exactly when a rate is
    given, then the final fully-connected layer to K. The empty genome
    gives the single D-to-K layer. *)
Theorem Net_init_builds_spec_layers
    (dicts : list dict) (genes : list Spec.Gene) (D K : Z) :
  Forall2 Spec.represents dicts genes →
  Forall Spec.valid genes →
  Forall (λ g, Spec.activation g ≠ Spec.softmax) genes →
  1 ≤ D → 1 ≤ K →
  Net_init dicts D K = Ok {| network := Spec.build genes D K |} ∧
  Net_init [] D K = Ok {| network := [Linear (VInt D) (VInt K)] |}.
Proof.
  intros Hrep Hv Hs HD HK. split.
  - pose proof (last_width_positive genes D Hv HD) as Hw.
    apply Net_init_of_hidden; [|lia..].
    by apply Net_hidden_build.
  - apply (Net_init_of_hidden [] D K [] D); [reflexivity|lia..].
Qed.

Lemma Net_init_builds_spec_layers_witness :
  Net_init [relu_gene] 3 4 =
    Ok {| network := Spec.build [typed_relu_gene] 3 4 |} ∧
  Net_init [] 3 4 = Ok {| network := [Linear (VInt 3) (VInt 4)] |}.
Proof.
  apply (Net_init_builds_spec_layers [relu_gene] [typed_relu_gene] 3 4).
  - repeat constructor.
  - repeat constructor.
  - repeat constructor. discriminate.
  - lia.
  - lia.
Defined.

(** C1 as stated fails on a gene that names softmax: the specification's
    layers hold a softmax nonlinearity, the built model holds none. *)
Lemma Net_init_softmax_counterexample :
  Spec.represents softmax_gene typed_softmax_gene ∧
  Spec.valid typed_softmax_gene ∧
  Spec.build [typed_softmax_gene] 3 4 =
    [Linear (VInt 3) (VInt 8); Softmax; Linear (VInt 8) (VInt 4)] ∧
  Net_init [softmax_gene] 3 4 =
    Ok {| network := [Linear (VInt 3) (VInt 8); Linear (VInt 8) (VInt 4)] |} ∧
  Net_init [softmax_gene] 3 4 ≠
    Ok {| network := Spec.build [typed_softmax_gene] 3 4 |}.
Proof.
  repeat split; discriminate.
Qed.

(** C8. A gene without the dropout_rate key does not build: once its
    fully-connected layer is constructed, the lookup
    [gene["dropout_rate"]] raises KeyError, although the docstring of
    [Net] calls the key optional. *)
Theorem Net_init_missing_dropout_key
    (pre post : list dict) (gene : dict) (n a : value) (D K : Z)
    (before : list layer) (w : value) (linear : layer) :
  Net_hidden pre [] (VInt D) = Ok (before, w) →
  getitem gene "num_neurons" = Ok n →
  nn_Linear w n = Ok linear →
  getitem gene "activation" = Ok a →
  lookup_key "dropout_rate" gene = None →
  Net_init (pre ++ gene :: post) D K = Raise (KeyError "dropout_rate").
Proof.
  intros Hpre Hn Hl Ha Hd. unfold Net_init.
  rewrite (Net_hidden_app _ _ _ _ _ _ Hpre). cbn [Net_hidden].
  rewrite Hn. cbn. rewrite Hl. cbn. rewrite Ha. cbn.
  unfold getitem. rewrite Hd. reflexivity.
Qed.

Lemma Net_init_missing_dropout_key_witness :
  Net_init [docstring_gene] 3 4 = Raise (KeyError "dropout_rate").
Proof.
  apply (Net_init_missing_dropout_key [] [] docstring_gene
           (VInt 32) (VStr "relu") 3 4 [] (VInt 3)
           (Linear (VInt 3) (VInt 32))); reflexivity.
Defined.

(** C10. In a genome of the data model (positive widths, a dropout rate
    that is absent or strictly between 0 and 1, D, K >= 1), a gene whose
    activation is none of relu, leaky_relu, sigmoid and tanh raises
    nothing and contributes its fully-connected layer and its optional
    dropout layer only: the model is the layers of the genes before it,
    these, and the layers of the genes after it. *)
Theorem Net_init_ignores_unknown_activation
    (pre post : list dict) (gene : dict) (n : Z) (a d : value) (D K : Z)
    (before after : list layer) (w w' : value) :
  getitem gene "num_neurons" = Ok (VInt n) →
  0 < n →
  getitem gene "activation" = Ok a →
  getitem gene "dropout_rate" = Ok d →
  d = VNone ∨ (∃ p, d = VFloat p ∧ (0 < p)%Q ∧ (p < 1)%Q) →
  a ≠ VStr "relu" → a ≠ VStr "leaky_relu" →
  a ≠ VStr "sigmoid" → a ≠ VStr "tanh" →
  1 ≤ D → 1 ≤ K →
  Net_hidden pre [] (VInt D) = Ok (before, w) →
  Net_hidden post [] (VInt n) = Ok (after, w') →
  Net_init (pre ++ gene :: post) D K =
  Ok {| network :=
          before
          ++ Linear w (VInt n) :: (if truthy d then [Dropout d] else [])
          ++ after ++ [Linear w' (VInt K)] |}.
Proof.
  intros Hn Hpos Ha Hd Hrate H1 H2 H3 H4 HD HK Hpre Hpost.
  assert (Hact : activation_layers a = []).
  { unfold activation_layers, eq_str. destruct a as [| | |s]; try reflexivity.
    repeat match goal with
    | |- context [String.eqb s ?k] =>
        destruct (String.eqb_spec s k); [congruence|]
    end. reflexivity. }
  destruct (Net_hidden_width pre [] D before w) as (i & -> & Hi);
    [lia|done|].
  destruct (Net_hidden_width post [] n after w') as (j & -> & Hj);
    [lia|done|].
  assert (Hdl : dropout_layers d = Ok (if truthy d then [Dropout d] else [])).
  { destruct Hrate as [->|(p & -> & H0 & Hp1)]; [reflexivity|].
    unfold dropout_layers. rewrite truthy_rate by done.
    by rewrite nn_Dropout_rate by by apply Qlt_le_weak. }
  unfold Net_init.
  rewrite (Net_hidden_app _ _ _ _ _ _ Hpre).
  rewrite (Net_hidden_cons _ _ _ _ _ _ _ _ _ Hn Ha Hd
             (nn_Linear_widths i n Hi ltac:(lia)) Hdl), Hact.
  rewrite (Net_hidden_from_nil _ _ _ _ _ Hpost). cbn [mbind result_bind].
  rewrite nn_Linear_widths by lia. cbn [mbind result_bind].
  do 2 f_equal. cbn. rewrite <- !app_assoc. reflexivity.
Qed.

Lemma Net_init_ignores_unknown_activation_witness :
  Net_init [relu_gene; softmax_gene; relu_gene] 3 4 =
  Ok {| network :=
          [Linear (VInt 3) (VInt 16); ReLU; Dropout (VFloat 0.2)]
          ++ Linear (VInt 16) (VInt 8) :: []
          ++ [Linear (VInt 8) (VInt 16); ReLU; Dropout (VFloat 0.2)]
          ++ [Linear (VInt 16) (VInt 4)] |}.
Proof.
  apply (Net_init_ignores_unknown_activation
           [relu_gene] [relu_gene] softmax_gene
           8 (VStr "softmax") VNone 3 4);
    first [ reflexivity | discriminate | lia | by left ].
Defined.

(** ** Selection *)

Section SelectionFacts.
Context {A : Type}.
Implicit Types (x y : Q * A) (l : list (Q * A)).

Lemma Qltb_true (a b : Q) : Qltb a b = true ↔ (a < b)%Q.
Proof.
  unfold Qltb. destruct (Qle_bool b a) eqn:E; cbn.
  - apply Qle_bool_iff in E. split; [discriminate|].
    intros H. by apply Qlt_not_le in H.
  - split; [intros _|reflexivity]. apply Qnot_le_lt.
    intros H. apply Qle_bool_iff in H. congruence.
Qed.

Lemma Qltb_false (a b : Q) : Qltb a b = false ↔ (b <= a)%Q.
Proof.
  unfold Qltb. destruct (Qle_bool b a) eqn:E; cbn.
  - apply Qle_bool_iff in E. by split.
  - split; [discriminate|]. intros H. apply Qle_bool_iff in H. congruence.
Qed.

Lemma insert_desc_perm x l : insert_desc x l ≡ₚ x :: l.
Proof.
  induction l as [|y l IH]; cbn; [done|].
  destruct (Qltb x.1 y.1); [|done].
  rewrite IH. apply Permutation_swap.
Qed.

Lemma sorted_reverse_perm l : sorted_reverse l ≡ₚ l.
Proof.
  induction l as [|x l IH]; cbn; [done|].
  rewrite insert_desc_perm. by rewrite IH.
Qed.

Lemma insert_desc_sorted x l :
  StronglySorted desc l → StronglySorted desc (insert_desc x l).
Proof.
  induction 1 as [|y l Hl IH Hy]; cbn.
  - repeat constructor.
  - destruct (Qltb x.1 y.1) eqn:E.
    + constructor; [done|].
      rewrite insert_desc_perm. constructor; [|done].
      apply Qltb_true in E. by apply Qlt_le_weak.
    + apply Qltb_false in E. constructor; [by constructor|].
      constructor; [done|].
      eapply Forall_impl; [exact Hy|]. intros z Hz. unfold desc in *.
      by eapply Qle_trans.
Qed.

Lemma sorted_reverse_sorted l : StronglySorted desc (sorted_reverse l).
Proof.
  induction l as [|x l IH]; cbn; [constructor|].
  by apply insert_desc_sorted.
Qed.

Lemma insert_desc_stable q x l :
  with_key q (insert_desc x l) = with_key q (x :: l).
Proof.
  induction l as [|y l IH]; [done|]. cbn [insert_desc].
  destruct (Qltb x.1 y.1) eqn:E; [|done].
  unfold with_key in *. cbn [List.filter] in *. rewrite IH.
  destruct (Qeq_bool x.1 q) eqn:Ex, (Qeq_bool y.1 q) eqn:Ey; try done.
  apply Qltb_true in E. apply Qeq_bool_eq in Ex, Ey.
  rewrite Ex, Ey in E. by apply Qlt_irrefl in E.
Qed.

Lemma sorted_reverse_stable q l :
  with_key q (sorted_reverse l) = with_key q l.
Proof.
  induction l as [|x l IH]; [done|]. cbn [sorted_reverse foldr].
  rewrite insert_desc_stable. unfold with_key in *. cbn [List.filter].
  fold (sorted_reverse l). by rewrite IH.
Qed.

Lemma with_key_app q l1 l2 :
  with_key q (l1 ++ l2) = with_key q l1 ++ with_key q l2.
Proof. apply List.filter_app. Qed.
End SelectionFacts.

(** C4. When the fitness list is aligned with the population and
    num_parents does not exceed its size, [selection] returns exactly
    num_parents genomes. The (fitness, genome) pairs split into the chosen
    ones, whose genomes are returned, and the rest; every chosen fitness
    is at least every other fitness; and the pairs of any one fitness
    value keep the order of the population, the chosen ones first. *)
Theorem selection_truncates_stably {A : Type}
    (population : list A) (fitnesses : list Q) (num_parents : nat) :
  length population = length fitnesses →
  (num_parents ≤ length population)%nat →
  length (selection population fitnesses num_parents) = num_parents ∧
  ∃ chosen rest : list (Q * A),
    selection population fitnesses num_parents = chosen.*2 ∧
    chosen ++ rest ≡ₚ zip fitnesses population ∧
    (∀ x y, x ∈ chosen → y ∈ rest → (y.1 <= x.1)%Q) ∧
    (∀ q, with_key q chosen ++ with_key q rest =
          with_key q (zip fitnesses population)).
Proof.
  intros Hlen Hn. unfold selection.
  set (ranked := sorted_reverse (zip fitnesses population)).
  assert (Hr : length ranked = length population).
  { unfold ranked. rewrite sorted_reverse_perm, length_zip. lia. }
  split.
  { rewrite length_take, length_fmap. lia. }
  exists (take num_parents ranked), (drop num_parents ranked).
  split; [by rewrite fmap_take|].
  rewrite take_drop. split; [apply sorted_reverse_perm|]. split.
  - intros x y Hx Hy.
    pose proof (sorted_reverse_sorted (zip fitnesses population)) as Hs.
    fold ranked in Hs. rewrite <- (take_drop num_parents ranked) in Hs.
    exact (StronglySorted_app_1_elem_of _ _ _ _ _ Hs Hx Hy).
  - intros q. rewrite <- with_key_app, take_drop.
    apply sorted_reverse_stable.
Qed.

Lemma selection_truncates_stably_witness :
  length (selection ["a"; "b"; "c"; "d"; "e"]
            [0.5; 0.7; 0.5; 0.9; 0.7]%Q 3) = 3%nat ∧
  ∃ chosen rest : list (Q * string),
    selection ["a"; "b"; "c"; "d"; "e"] [0.5; 0.7; 0.5; 0.9; 0.7]%Q 3
      = chosen.*2 ∧
    chosen ++ rest
      ≡ₚ zip [0.5; 0.7; 0.5; 0.9; 0.7]%Q ["a"; "b"; "c"; "d"; "e"] ∧
    (∀ x y, x ∈ chosen → y ∈ rest → (y.1 <= x.1)%Q) ∧
    (∀ q, with_key q chosen ++ with_key q rest =
          with_key q (zip [0.5; 0.7; 0.5; 0.9; 0.7]%Q
                          ["a"; "b"; "c"; "d"; "e"])).
Proof.
  apply (selection_truncates_stably ["a"; "b"; "c"; "d"; "e"]
           [0.5; 0.7; 0.5; 0.9; 0.7]%Q 3).
  - reflexivity.
  - simpl. lia.
Defined.

(** The order of the returned genomes on a population with ties. *)
Example selection_example :
  selection ["a"; "b"; "c"; "d"; "e"] [0.5; 0.7; 0.5; 0.9; 0.7]%Q 3
  = ["d"; "b"; "e"].
Proof. reflexivity. Qed.

(** ** Dictionaries *)

Section DictFacts.
Implicit Types (d : dict) (k key : string) (v : value).

Lemma lookup_key_setitem_eq key v d :
  lookup_key key (setitem key v d) = Some v.
Proof.
  induction d as [|[k w] d IH]; cbn.
  - by rewrite String.eqb_refl.
  - destruct (String.eqb_spec k key) as [->|Hne]; cbn.
    + by rewrite String.eqb_refl.
    + apply String.eqb_neq in Hne. by rewrite Hne.
Qed.

Lemma lookup_key_setitem_ne key k v d :
  k ≠ key → lookup_key k (setitem key v d) = lookup_key k d.
Proof.
  intros Hne. induction d as [|[k' w] d IH]; cbn.
  - destruct (String.eqb_spec key k); congruence.
  - destruct (String.eqb_spec k' key) as [->|Hne']; cbn.
    + destruct (String.eqb_spec key k); congruence.
    + by rewrite IH.
Qed.

Lemma lookup_key_is_Some key d :
  is_Some (lookup_key key d) ↔ key ∈ keys d.
Proof.
  unfold keys. induction d as [|[k w] d IH]; cbn.
  - split; [intros [? ?]; discriminate|]. by intros ?%elem_of_nil.
  - rewrite elem_of_cons. destruct (String.eqb_spec k key) as [->|Hne].
    + split; [by left|eauto].
    + rewrite IH. split; [by right|]. intros [?|?]; congruence.
Qed.

Lemma lookup_key_None key d :
  lookup_key key d = None ↔ key ∉ keys d.
Proof. rewrite <- lookup_key_is_Some, eq_None_not_Some. done. Qed.

Lemma keys_setitem_old key v d :
  key ∈ keys d → keys (setitem key v d) = keys d.
Proof.
  unfold keys. induction d as [|[k w] d IH]; cbn.
  - by intros ?%elem_of_nil.
  - rewrite elem_of_cons. intros Hin.
    destruct (String.eqb_spec k key) as [->|Hne]; cbn; [done|].
    f_equal. apply IH. destruct Hin; congruence.
Qed.

Lemma keys_setitem_new key v d :
  key ∉ keys d → keys (setitem key v d) = keys d ++ [key].
Proof.
  unfold keys. induction d as [|[k w] d IH]; cbn; [done|].
  rewrite not_elem_of_cons. intros [Hne Hin].
  destruct (String.eqb_spec k key) as [->|_]; [done|]. cbn.
  f_equal. by apply IH.
Qed.

Lemma getitem_Ok d key v : getitem d key = Ok v ↔ lookup_key key d = Some v.
Proof.
  unfold getitem. destruct (lookup_key key d); split; congruence.
Qed.
End DictFacts.

(** ** Running the monad *)

Section MonadFacts.
Context {A B : Type}.

Lemma run_bind (m : M A) (f : A → M B) σ a σ' :
  m σ = Ok (a, σ') → (m ≫= f) σ = f a σ'.
Proof. intros H. unfold mbind, M_bind. by rewrite H. Qed.

Lemma run_ret (a : A) σ : (mret a : M A) σ = Ok (a, σ).
Proof. reflexivity. Qed.

Lemma run_fmap (m : M A) (f : A → B) σ a σ' :
  m σ = Ok (a, σ') → (f <$> m) σ = Ok (f a, σ').
Proof. intros H. unfold fmap, M_fmap. by rewrite H. Qed.
End MonadFacts.

Section RandomFacts.
Lemma draw_run h t : ∃ n t', draw (State h t) = Ok (n, State h t').
Proof. destruct t as [|n t]; cbn; eauto. Qed.

Lemma random_choice_run {A} (seq : list A) h t :
  seq ≠ [] →
  ∃ x t', random_choice seq (State h t) = Ok (x, State h t') ∧ x ∈ seq.
Proof.
  intros Hne. destruct (draw_run h t) as (n & t' & Hd).
  unfold random_choice. rewrite (run_bind _ _ _ _ _ Hd).
  assert (Hlt : (N.to_nat (n mod N.of_nat (length seq)) < length seq)%nat).
  { destruct seq; [done|]. cbn [length].
    pose proof (N.mod_upper_bound n (N.of_nat (S (length seq)))). lia. }
  apply lookup_lt_is_Some in Hlt as [x Hx]. rewrite Hx.
  exists x, t'. split; [done|]. by eapply list_elem_of_lookup_2.
Qed.

Lemma random_random_run h t :
  ∃ x t', random_random (State h t) = Ok (x, State h t') ∧
          (0 <= x)%Q ∧ (x < 1)%Q.
Proof.
  destruct (draw_run h t) as (n & t' & Hd).
  unfold random_random. rewrite (run_bind _ _ _ _ _ Hd).
  eexists _, t'. split; [reflexivity|].
  assert (H : (n mod 9007199254740992 < 9007199254740992)%N)
    by (by apply N.mod_upper_bound).
  revert H. generalize (n mod 9007199254740992)%N. intros k Hk.
  unfold Qle, Qlt. cbn [Qnum Qden]. lia.
Qed.

(** The binary64 value of the literal [0.1] is 3602879701896397 / 2^55.
    A value of [random.random()] is below it exactly when it is below
    one tenth. *)
Lemma mutation_rate_binary64 (n : N) :
  Qltb (Z.of_N (n mod 9007199254740992) # 9007199254740992) 0.1
  = Qltb (Z.of_N (n mod 9007199254740992) # 9007199254740992)
      (3602879701896397 # 36028797018963968).
Proof.
  generalize (Z.of_N (n mod 9007199254740992)). intros k.
  destruct (Qltb (k # 9007199254740992) 0.1) eqn:E; symmetry.
  - apply Qltb_true in E. apply Qltb_true.
    unfold Qlt in *. cbn [Qnum Qden] in *. lia.
  - apply Qltb_false in E. apply Qltb_false.
    unfold Qle in *. cbn [Qnum Qden] in *. lia.
Qed.

Lemma random_sample2_run {A} (population : list A) h t :
  (2 ≤ length population)%nat →
  ∃ i j x y t',
    random_sample2 population (State h t) = Ok ((x, y), State h t') ∧
    i ≠ j ∧ population !! i = Some x ∧ population !! j = Some y.
Proof.
  intros Hlen. unfold random_sample2.
  destruct (Nat.ltb_spec (length population) 2) as [?|_]; [lia|].
  destruct (draw_run h t) as (d1 & t1 & Hd1).
  destruct (draw_run h t1) as (d2 & t2 & Hd2).
  rewrite (run_bind _ _ _ _ _ Hd1), (run_bind _ _ _ _ _ Hd2).
  set (n := length population) in *.
  set (i := N.to_nat (d1 mod N.of_nat n)).
  set (j0 := N.to_nat (d2 mod N.of_nat (n - 1))).
  assert (Hi : (i < n)%nat).
  { subst i. pose proof (N.mod_upper_bound d1 (N.of_nat n)). lia. }
  assert (Hj0 : (j0 < n - 1)%nat).
  { subst j0. pose proof (N.mod_upper_bound d2 (N.of_nat (n - 1))). lia. }
  set (j := if (j0 =? i)%nat then (n - 1)%nat else j0).
  assert (Hj : (j < n)%nat ∧ i ≠ j).
  { subst j. destruct (Nat.eqb_spec j0 i); lia. }
  destruct Hj as [Hj Hij].
  apply lookup_lt_is_Some in Hi as [x Hx].
  apply lookup_lt_is_Some in Hj as [y Hy].
  rewrite Hx, Hy. by exists i, j, x, y, t2.
Qed.
End RandomFacts.

(** ** Crossover *)

Section CrossoverFacts.
Implicit Types (h : gmap loc dict) (t : list N) (d : dict).

(** The loop over the keys writes to the child gene only; each key it
    visits ends up with the value of one of the parents. *)
Lemma crossover_keys_run g1 g2 c h ks :
  c ≠ g1 → c ≠ g2 →
  Forall (λ k, is_Some (lookup_key k (h !!! g1)) ∧
               is_Some (lookup_key k (h !!! g2))) ks →
  ∀ dc t, ∃ d' t',
    crossover_keys ks g1 g2 c (State (<[c:=dc]> h) t)
      = Ok ((), State (<[c:=d']> h) t') ∧
    (∀ k, k ∈ ks →
       lookup_key k d' = lookup_key k (h !!! g1) ∨
       lookup_key k d' = lookup_key k (h !!! g2)) ∧
    (∀ k, k ∉ ks → lookup_key k d' = lookup_key k dc) ∧
    (NoDup ks → (∀ k, k ∈ ks → k ∉ keys dc) → keys d' = keys dc ++ ks).
Proof.
  intros H1 H2 Hks.
  induction Hks as [|key ks [[v1 Hv1] [v2 Hv2]] _ IH]; intros dc t.
  { exists dc, t. split; [done|]. split; [by intros k ?%elem_of_nil|].
    split; [done|]. intros. by rewrite app_nil_r. }
  cbn [crossover_keys].
  destruct (random_choice_run [true; false] (<[c:=dc]> h) t)
    as (b & t1 & Hb & _); [done|].
  rewrite (run_bind _ _ _ _ _ Hb).
  set (v := if b then v1 else v2).
  assert (Hget : (if b then getitem_at g1 key else getitem_at g2 key)
                   (State (<[c:=dc]> h) t1)
                 = Ok (v, State (<[c:=dc]> h) t1)).
  { unfold getitem_at, v. destruct b; cbn [heap];
      rewrite lookup_total_insert_ne by done; unfold getitem;
      rewrite ?Hv1, ?Hv2; done. }
  rewrite (run_bind _ _ _ _ _ Hget).
  assert (Hset : setitem_at c key v (State (<[c:=dc]> h) t1)
                 = Ok ((), State (<[c:=setitem key v dc]> h) t1)).
  { unfold setitem_at. cbn [heap tape].
    by rewrite lookup_total_insert_eq, insert_insert_eq. }
  rewrite (run_bind _ _ _ _ _ Hset).
  destruct (IH (setitem key v dc) t1) as (d' & t' & Hrun & Hin & Hout & Hkeys).
  exists d', t'. split; [done|]. split; [|split].
  - intros k [->|Hk]%elem_of_cons; [|by apply Hin].
    destruct (decide (key ∈ ks)) as [Hk|Hk]; [by apply Hin|].
    rewrite (Hout _ Hk), lookup_key_setitem_eq.
    subst v. destruct b; [left|right]; congruence.
  - intros k [Hne Hk]%not_elem_of_cons.
    by rewrite (Hout _ Hk), lookup_key_setitem_ne.
  - intros [Hkey Hnd]%NoDup_cons Hfresh.
    assert (Hnew : key ∉ keys dc) by (apply Hfresh; left).
    rewrite Hkeys, keys_setitem_new, <- app_assoc; [done..|].
    intros k Hk. rewrite keys_setitem_new by done.
    rewrite not_elem_of_app, list_elem_of_singleton. split.
    + apply Hfresh. by right.
    + intros ->. done.
Qed.

Lemma Forall2_impl_r {X Y} (P Q : X → Y → Prop) (R : Y → Prop) l k :
  Forall2 P l k → Forall R k → (∀ x y, P x y → R y → Q x y) →
  Forall2 Q l k.
Proof.
  intros HP. induction HP; inversion 1; subst; constructor; eauto.
Qed.

Lemma is_gene_weaken h h' l : h ⊆ h' → is_gene h l → is_gene h' l.
Proof.
  intros Hsub (d & Hd & Hk). exists d. split; [|done].
  by eapply lookup_weaken.
Qed.

Lemma gene_keys_NoDup : NoDup gene_keys.
Proof. compute_done. Qed.

Lemma alloc_run d h t :
  alloc d (State h t)
  = Ok (fresh (dom h), State (<[fresh (dom h) := d]> h) t).
Proof. reflexivity. Qed.

Lemma fresh_None h : h !! fresh (dom h) = None.
Proof. apply not_elem_of_dom, is_fresh. Qed.

(** The loop over the gene pairs allocates one new object per pair and
    changes no object that existed before. *)
Lemma crossover_zip_run pairs :
  ∀ child h t,
  Forall (λ p, is_gene h p.1 ∧ is_gene h p.2) pairs →
  ∃ new h' t',
    crossover_zip pairs child (State h t)
      = Ok (child ++ new, State h' t') ∧
    h ⊆ h' ∧
    length new = length pairs ∧
    Forall (λ c, c ∉ dom h) new ∧
    NoDup new ∧
    dom h' = dom h ∪ list_to_set new ∧
    Forall2 (λ c p, ∃ d1 d2 d',
               h !! p.1 = Some d1 ∧ h !! p.2 = Some d2 ∧
               h' !! c = Some d' ∧ crossed d1 d2 d') new pairs.
Proof.
  induction pairs as [|[g1 g2] pairs IH]; intros child h t Hp.
  { exists [], h, t. rewrite app_nil_r. repeat split; try done.
    - constructor.
    - cbn. by rewrite (right_id_L ∅ (∪)). }
  apply Forall_cons in Hp as [[(d1 & Hd1 & Hk1) (d2 & Hd2 & Hk2)] Hp].
  cbn [fst snd] in *. cbn [crossover_zip].
  set (c := fresh (dom h)).
  assert (Hc : h !! c = None) by apply fresh_None.
  assert (Hc1 : c ≠ g1) by (intros ->; congruence).
  assert (Hc2 : c ≠ g2) by (intros ->; congruence).
  rewrite (run_bind _ _ _ _ _ (alloc_run [] h t)). fold c.
  assert (Hread : (keys <$> read g1) (State (<[c:=[]]> h) t)
                  = Ok (keys d1, State (<[c:=[]]> h) t)).
  { apply (run_fmap (read g1) keys). unfold read. cbn [heap].
    rewrite lookup_total_insert_ne by done.
    by rewrite (lookup_total_correct _ _ _ Hd1). }
  rewrite (run_bind _ _ _ _ _ Hread).
  assert (Hnd : NoDup (keys d1)).
  { rewrite Hk1. apply gene_keys_NoDup. }
  destruct (crossover_keys_run g1 g2 c h (keys d1) Hc1 Hc2) with (dc := @nil (string * value)) (t := t)
    as (d' & t1 & Hrun & Hin & _ & Hkeys).
  { apply Forall_forall. intros k Hk.
    rewrite (lookup_total_correct _ _ _ Hd1), (lookup_total_correct _ _ _ Hd2).
    rewrite !lookup_key_is_Some. split; [done|].
    rewrite Hk2, <- Hk1. done. }
  rewrite (run_bind _ _ _ _ _ Hrun).
  rewrite (lookup_total_correct _ _ _ Hd1), (lookup_total_correct _ _ _ Hd2) in Hin.
  specialize (Hkeys Hnd (λ k _, not_elem_of_nil k)). cbn in Hkeys.
  set (h1 := <[c:=d']> h).
  assert (Hsub : h ⊆ h1) by (by apply insert_subseteq).
  destruct (IH (child ++ [c]) h1 t1) as (new & h' & t' & Hz & Hsub' & Hlen & Hfresh & Hnew & Hdom & Hall).
  { eapply Forall_impl; [exact Hp|]. intros p [? ?].
    split; by eapply is_gene_weaken. }
  exists (c :: new), h', t'. split; [|split; [|split; [|split; [|split; [|split]]]]].
  - rewrite Hz, <- app_assoc. done.
  - by etrans.
  - cbn. by rewrite Hlen.
  - constructor; [by apply not_elem_of_dom|].
    eapply Forall_impl; [exact Hfresh|]. intros l Hl Hin'. apply Hl.
    unfold h1. rewrite dom_insert_L. apply elem_of_union. by right.
  - constructor; [|done]. intros Hin'.
    rewrite Forall_forall in Hfresh. apply (Hfresh _ Hin').
    unfold h1. rewrite dom_insert_L. apply elem_of_union. left.
    by apply elem_of_singleton.
  - rewrite Hdom. unfold h1. rewrite dom_insert_L. cbn.
    by rewrite (comm_L (∪) {[c]} (dom h)), (assoc_L (∪)).
  - constructor.
    + exists d1, d2, d'. cbn [fst snd]. repeat split; try done.
      * eapply lookup_weaken; [|exact Hsub']. apply lookup_insert_eq.
      * intros k Hk. destruct (Hin k Hk) as [E|E].
        -- apply lookup_key_is_Some in Hk as [v Hv]. exists v.
           rewrite !getitem_Ok. split; [congruence|by left].
        -- assert (Hk' : k ∈ keys d2) by (by rewrite Hk2, <- Hk1).
           apply lookup_key_is_Some in Hk' as [v Hv]. exists v.
           rewrite !getitem_Ok. split; [congruence|by right].
    + apply (Forall2_impl_r _ _ _ _ _ Hall Hp).
      intros c' p (e1 & e2 & e' & He1 & He2 & He' & Hcr)
        [(b1 & Hb1 & _) (b2 & Hb2 & _)].
      exists e1, e2, e'. refine (conj _ (conj _ (conj He' Hcr))).
      * rewrite Hb1. by rewrite (lookup_weaken _ _ _ _ Hb1 Hsub) in He1.
      * rewrite Hb2. by rewrite (lookup_weaken _ _ _ _ Hb2 Hsub) in He2.
Qed.
End CrossoverFacts.

(** ** Mutation *)

Section MutateFacts.
Implicit Types (h : gmap loc dict) (t : list N) (d : dict).

Lemma resample_run g h key d t (seq : list value) :
  seq ≠ [] →
  ∃ v t1,
    (v ← random_choice seq; setitem_at g key v) (State (<[g:=d]> h) t)
      = Ok ((), State (<[g:=setitem key v d]> h) t1) ∧
    v ∈ seq.
Proof.
  intros Hne.
  destruct (random_choice_run seq (<[g:=d]> h) t Hne) as (v & t1 & Hv & Hin).
  exists v, t1. rewrite (run_bind _ _ _ _ _ Hv). split; [|done].
  unfold setitem_at. cbn [heap tape].
  by rewrite lookup_total_insert_eq, insert_insert_eq.
Qed.

Lemma mutate_item_run g h key d t :
  key ∈ keys d →
  ∃ d1 t1,
    mutate_item key g (State (<[g:=d]> h) t)
      = Ok ((), State (<[g:=d1]> h) t1) ∧
    keys d1 = keys d ∧
    (∀ k, k ≠ key → lookup_key k d1 = lookup_key k d) ∧
    (key ∈ gene_keys →
     ∃ v, lookup_key key d1 = Some v ∧ v ∈ candidates key).
Proof.
  intros Hkey. unfold mutate_item, candidates.
  destruct (String.eqb_spec key "num_neurons") as [->|H1];
    [|destruct (String.eqb_spec key "activation") as [->|H2];
      [|destruct (String.eqb_spec key "dropout_rate") as [->|H3]]].
  1-3: match goal with
       | _ : ?key ∈ keys _ |- context [random_choice ?seq] =>
           destruct (resample_run g h key d t seq) as (v & t1 & Hrun & Hv);
             [done|]
       end;
       eexists _, t1; split; [exact Hrun|];
       split; [by apply keys_setitem_old|];
       split; [intros k Hk; by apply lookup_key_setitem_ne|];
       intros _; exists v; split; [apply lookup_key_setitem_eq|exact Hv].
  exists d, t. split; [done|]. split; [done|]. split; [done|].
  unfold gene_keys. rewrite !elem_of_cons, elem_of_nil. tauto.
Qed.

Lemma mutate_items_run g h ks :
  ∀ d t,
  Forall (λ k, k ∈ keys d) ks →
  ∃ d' t',
    mutate_items ks g (State (<[g:=d]> h) t)
      = Ok ((), State (<[g:=d']> h) t') ∧
    keys d' = keys d ∧
    ∀ K, K ∈ gene_keys →
      (K ∈ ks ∨ ∃ v, lookup_key K d = Some v ∧ v ∈ candidates K) →
      ∃ v, lookup_key K d' = Some v ∧ v ∈ candidates K.
Proof.
  induction ks as [|key ks IH]; intros d t Hks.
  { exists d, t. split; [done|]. split; [done|].
    intros K _ [?%elem_of_nil|?]; done. }
  apply Forall_cons in Hks as [Hkey Hks]. cbn [mutate_items].
  destruct (mutate_item_run g h key d t Hkey)
    as (d1 & t1 & Hrun & Hk1 & Hother & Hnew).
  rewrite (run_bind _ _ _ _ _ Hrun).
  destruct (IH d1 t1) as (d' & t' & Hrun' & Hk' & Hres).
  { by rewrite Hk1. }
  exists d', t'. split; [done|]. split; [congruence|].
  intros K HK Hcase. apply (Hres K HK).
  destruct (decide (K ∈ ks)) as [?|Hnin]; [by left|right].
  destruct (decide (K = key)) as [->|Hne]; [by apply Hnew|].
  rewrite (Hother _ Hne).
  destruct Hcase as [[?|?]%elem_of_cons|?]; done.
Qed.

Lemma resampled_of_lookups d :
  (∀ K, K ∈ gene_keys →
     ∃ v, lookup_key K d = Some v ∧ v ∈ candidates K) →
  resampled d.
Proof.
  intros H. unfold resampled. split_and!.
  - destruct (H "num_neurons") as (v & Hv & Hin); [compute_done|].
    exists v. by rewrite getitem_Ok.
  - destruct (H "activation") as (v & Hv & Hin); [compute_done|].
    exists v. by rewrite getitem_Ok.
  - destruct (H "dropout_rate") as (v & Hv & Hin); [compute_done|].
    exists v. by rewrite getitem_Ok.
Qed.

Lemma mutate_gene_run rate g h d t :
  h !! g = Some d → keys d ≡ₚ gene_keys →
  ∃ d' t',
    mutate_gene rate g (State h t) = Ok ((), State (<[g:=d']> h) t') ∧
    keys d' = keys d ∧
    (d' = d ∨ resampled d') ∧
    ((rate <= 0)%Q → d' = d) ∧
    ((1 <= rate)%Q → resampled d').
Proof.
  intros Hd Hk. unfold mutate_gene.
  destruct (random_random_run h t) as (x & t1 & Hx & H0 & H1).
  rewrite (run_bind _ _ _ _ _ Hx).
  destruct (Qltb x rate) eqn:E.
  - assert (Hread : (keys <$> read g) (State h t1)
                    = Ok (keys d, State h t1)).
    { apply (run_fmap (read g) keys). unfold read. cbn [heap].
      by rewrite (lookup_total_correct _ _ _ Hd). }
    rewrite (run_bind _ _ _ _ _ Hread).
    destruct (mutate_items_run g h (keys d) d t1)
      as (d' & t' & Hrun & Hk' & Hres).
    { by apply Forall_forall. }
    rewrite (insert_id h g d Hd) in Hrun.
    assert (Hr : resampled d').
    { apply resampled_of_lookups. intros K HK. apply Hres; [done|].
      left. by rewrite Hk. }
    exists d', t'. split; [done|]. split; [done|]. split; [by right|].
    split; [|done]. intros Hle. apply Qltb_true in E.
    exfalso. apply (Qlt_irrefl x).
    eapply Qlt_le_trans; [exact E|]. by eapply Qle_trans.
  - exists d, t1. rewrite (insert_id h g d Hd).
    split; [done|]. split; [done|]. split; [by left|]. split; [done|].
    intros Hle. apply Qltb_false in E.
    exfalso. apply (Qlt_irrefl x).
    eapply Qlt_le_trans; [exact H1|]. by eapply Qle_trans.
Qed.
End MutateFacts.

Section GenomeFacts.
Implicit Types (h : gmap loc dict) (t : list N) (d : dict) (g : Genome).

Lemma Forall_zip_genes h g1 g2 :
  Forall (is_gene h) g1 → Forall (is_gene h) g2 →
  Forall (λ p, is_gene h p.1 ∧ is_gene h p.2) (zip g1 g2).
Proof.
  intros H1. revert g2. induction H1 as [|l1 g1 Hl1 _ IH]; intros g2 H2.
  { constructor. }
  destruct H2 as [|l2 g2 Hl2 H2]; cbn; constructor; auto.
Qed.

Lemma deref_pointwise (P : dict → dict → Prop) h h' g :
  Forall (λ l, P (h' !!! l) (h !!! l)) g →
  Forall2 P (deref h' g) (deref h g).
Proof. unfold deref. induction 1; cbn; constructor; auto. Qed.

Lemma deref_weaken h h' g :
  h ⊆ h' → Forall (is_gene h) g → deref h' g = deref h g.
Proof.
  intros Hsub Hg. unfold deref. induction Hg as [|l g (d & Hd & _) _ IH].
  { done. }
  cbn. rewrite IH. f_equal.
  rewrite (lookup_total_correct _ _ _ Hd).
  apply lookup_total_correct. by eapply lookup_weaken.
Qed.

(** The loop over the genes assigns to the genes of the genome only,
    and leaves each of them as it was or with all three attributes
    drawn afresh. *)
Lemma mutate_genes_run rate genes :
  ∀ h t,
  Forall (is_gene h) genes →
  ∃ h' t',
    mutate_genes rate genes (State h t) = Ok ((), State h' t') ∧
    dom h' = dom h ∧
    (∀ l, l ∉ genes → h' !! l = h !! l) ∧
    (∀ l d, h !! l = Some d →
       ∃ d', h' !! l = Some d' ∧ keys d' = keys d ∧
             (d' = d ∨ (l ∈ genes ∧ resampled d'))) ∧
    ((rate <= 0)%Q → h' = h) ∧
    ((1 <= rate)%Q →
       ∀ l, l ∈ genes → ∃ d', h' !! l = Some d' ∧ resampled d').
Proof.
  induction genes as [|g genes IH]; intros h t Hg.
  { exists h, t. split; [done|]. split; [done|]. split; [done|].
    split; [|split; [done|]].
    - intros l d Hd. exists d. auto.
    - intros _ l ?%elem_of_nil. done. }
  apply Forall_cons in Hg as [(d & Hd & Hk) Hg]. cbn [mutate_genes].
  destruct (mutate_gene_run rate g h d t Hd Hk)
    as (d1 & t1 & Hrun & Hk1 & Hcase & Hzero & Hone).
  rewrite (run_bind _ _ _ _ _ Hrun).
  set (h1 := <[g:=d1]> h) in *.
  assert (Hg1 : Forall (is_gene h1) genes).
  { eapply Forall_impl; [exact Hg|]. intros l (dl & Hdl & Hkl).
    destruct (decide (l = g)) as [->|Hne].
    - exists d1. split; [apply lookup_insert_eq|]. by rewrite Hk1.
    - exists dl. split; [|done]. unfold h1. by rewrite lookup_insert_ne. }
  destruct (IH h1 t1 Hg1) as (h' & t' & Hrun' & Hdom & Hframe & Hloc & Hz & Ho).
  exists h', t'. split; [done|]. split; [|split; [|split; [|split]]].
  - rewrite Hdom. unfold h1. apply dom_insert_lookup_L. by eexists.
  - intros l [Hne Hl]%not_elem_of_cons.
    rewrite (Hframe l Hl). unfold h1. by rewrite lookup_insert_ne.
  - intros l d0 Hd0. destruct (decide (l = g)) as [->|Hne].
    + assert (d0 = d) as -> by congruence.
      destruct (Hloc g d1) as (d' & Hd' & Hk' & Hc).
      { apply lookup_insert_eq. }
      exists d'. split; [done|]. split; [congruence|].
      destruct Hc as [->|[Hin Hr]].
      * destruct Hcase as [->|Hr]; [by left|right].
        split; [by left|done].
      * right. split; [by right|done].
    + destruct (Hloc l d0) as (d' & Hd' & Hk' & Hc).
      { unfold h1. by rewrite lookup_insert_ne. }
      exists d'. split; [done|]. split; [done|].
      destruct Hc as [->|[Hin Hr]]; [by left|right].
      split; [by right|done].
  - intros Hle. rewrite (Hz Hle). unfold h1.
    rewrite (Hzero Hle). by apply insert_id.
  - intros Hle l Hl. destruct (decide (l ∈ genes)) as [Hin|Hnin].
    { by apply Ho. }
    apply elem_of_cons in Hl as [->|?]; [|done].
    exists d1. split; [|by apply Hone].
    rewrite (Hframe g Hnin). apply lookup_insert_eq.
Qed.

Lemma mutate_with_run rate g h t :
  Forall (is_gene h) g →
  ∃ h' t',
    mutate_with rate g (State h t) = Ok (g, State h' t') ∧
    dom h' = dom h ∧
    (∀ l, l ∉ g → h' !! l = h !! l) ∧
    Forall (is_gene h') g ∧
    Forall2 (λ d' d, d' = d ∨ resampled d') (deref h' g) (deref h g) ∧
    ((rate <= 0)%Q → h' = h) ∧
    ((1 <= rate)%Q → Forall resampled (deref h' g)).
Proof.
  intros Hg.
  destruct (mutate_genes_run rate g h t Hg)
    as (h' & t' & Hrun & Hdom & Hframe & Hloc & Hz & Ho).
  exists h', t'. unfold mutate_with. rewrite (run_bind _ _ _ _ _ Hrun).
  split; [done|]. split; [done|]. split; [done|].
  split; [|split; [|split; [done|]]].
  - eapply Forall_impl; [exact Hg|]. intros l (d & Hd & Hk).
    destruct (Hloc l d Hd) as (d' & Hd' & Hk' & _).
    exists d'. split; [done|]. by rewrite Hk'.
  - apply deref_pointwise. eapply Forall_impl; [exact Hg|].
    intros l (d & Hd & Hk).
    destruct (Hloc l d Hd) as (d' & Hd' & _ & Hc).
    rewrite (lookup_total_correct _ _ _ Hd), (lookup_total_correct _ _ _ Hd').
    destruct Hc as [?|[_ ?]]; auto.
  - intros Hle. unfold deref. apply Forall_fmap, Forall_forall.
    intros l Hl. destruct (Ho Hle l Hl) as (d' & Hd' & Hr). cbn.
    by rewrite (lookup_total_correct _ _ _ Hd').
Qed.

Lemma crossover_run g1 g2 h t :
  Forall (is_gene h) g1 → Forall (is_gene h) g2 →
  ∃ child h' t',
    crossover g1 g2 (State h t) = Ok (child, State h' t') ∧
    h ⊆ h' ∧
    length child = Nat.min (length g1) (length g2) ∧
    Forall (λ c, c ∉ dom h) child ∧
    NoDup child ∧
    dom h' = dom h ∪ list_to_set child ∧
    Forall (is_gene h') child ∧
    Forall2 (λ c p, ∃ d1 d2 d',
               h !! p.1 = Some d1 ∧ h !! p.2 = Some d2 ∧
               h' !! c = Some d' ∧ crossed d1 d2 d') child (zip g1 g2).
Proof.
  intros H1 H2. unfold crossover.
  pose proof (Forall_zip_genes _ _ _ H1 H2) as Hz.
  destruct (crossover_zip_run (zip g1 g2) [] h t Hz)
    as (new & h' & t' & Hrun & Hsub & Hlen & Hfresh & Hnd & Hdom & Hall).
  exists new, h', t'. rewrite length_zip in Hlen.
  repeat (split; [done|]). split; [|done].
  clear -Hall Hz. induction Hall as [|c p new ps Hc _ IH]; [constructor|].
  apply Forall_cons in Hz as [[(e1 & He1 & Hk1) _] Hz].
  constructor; [|by apply IH].
  destruct Hc as (d1 & d2 & d' & Hd1 & _ & Hd' & Hk & _).
  exists d'. split; [done|]. rewrite Hk.
  assert (e1 = d1) as -> by congruence. done.
Qed.
End GenomeFacts.

(** C2. For parents whose genes carry exactly the three attribute keys,
    [crossover] returns a child; its length is the smaller of the parents'
    lengths, hence their common length when they agree; and at every
    position each attribute of the child gene is the value that the gene
    of parent1 or the gene of parent2 has under that key. *)
Theorem crossover_takes_parent_attributes
    (parent1 parent2 : Genome) (σ : state) :
  Forall (is_gene (heap σ)) parent1 →
  Forall (is_gene (heap σ)) parent2 →
  ∃ child σ',
    crossover parent1 parent2 σ = Ok (child, σ') ∧
    length child = Nat.min (length parent1) (length parent2) ∧
    (length parent1 = length parent2 → length child = length parent1) ∧
    ∀ i c g1 g2 k,
      child !! i = Some c → parent1 !! i = Some g1 → parent2 !! i = Some g2 →
      k ∈ gene_keys →
      ∃ v, getitem (heap σ' !!! c) k = Ok v ∧
           (getitem (heap σ !!! g1) k = Ok v ∨
            getitem (heap σ !!! g2) k = Ok v).
Proof.
  destruct σ as [h t]. cbn [heap]. intros H1 H2.
  destruct (crossover_run parent1 parent2 h t H1 H2)
    as (child & h' & t' & Hrun & _ & Hlen & _ & _ & _ & _ & Hall).
  exists child, (State h' t'). split; [done|]. split; [done|].
  split; [lia|]. cbn [heap].
  intros i c g1 g2 k Hc Hg1 Hg2 Hk.
  assert (Hp : zip parent1 parent2 !! i = Some (g1, g2)).
  { by apply lookup_zip_Some. }
  destruct (Forall2_lookup_lr _ _ _ _ _ _ Hall Hc Hp)
    as (d1 & d2 & d' & Hd1 & Hd2 & Hd' & Hkeys & Hcr).
  cbn [fst snd] in *.
  rewrite (lookup_total_correct _ _ _ Hd1), (lookup_total_correct _ _ _ Hd2),
    (lookup_total_correct _ _ _ Hd').
  apply Hcr.
  rewrite Forall_forall in H1.
  destruct (H1 g1) as (e1 & He1 & Hk1).
  { by eapply list_elem_of_lookup_2. }
  assert (e1 = d1) as -> by congruence. by rewrite Hk1.
Qed.

Lemma crossover_takes_parent_attributes_witness :
  ∃ child σ',
    crossover [0%nat] [1%nat] example_state = Ok (child, σ') ∧
    length child = Nat.min (length [0%nat]) (length [1%nat]) ∧
    (length [0%nat] = length [1%nat] → length child = length [0%nat]) ∧
    ∀ i c g1 g2 k,
      child !! i = Some c → [0%nat] !! i = Some g1 → [1%nat] !! i = Some g2 →
      k ∈ gene_keys →
      ∃ v, getitem (heap σ' !!! c) k = Ok v ∧
           (getitem (heap example_state !!! g1) k = Ok v ∨
            getitem (heap example_state !!! g2) k = Ok v).
Proof.
  apply (crossover_takes_parent_attributes [0%nat] [1%nat] example_state).
  - constructor; [|constructor]. exists softmax_gene. split; reflexivity.
  - constructor; [|constructor]. exists relu_gene. split; reflexivity.
Defined.

(** The child of the example: the width of the first parent, the
    activation and the dropout rate of the second. *)
Example crossover_example :
  (λ r, match r with
        | Ok (child, σ') => Some (deref (heap σ') child)
        | _ => None
        end) (crossover [0%nat] [1%nat] example_state)
  = Some [[("num_neurons", VInt 8); ("activation", VStr "relu");
           ("dropout_rate", VFloat 0.2)]].
Proof. vm_compute. reflexivity. Qed.

(** C3. For a genome whose genes carry exactly the three attribute keys,
    [mutate] returns the same genome, so its length is kept, and each gene
    is afterwards what it was or has all three attributes in the mutation
    candidate sets. For a mutation rate of 0 nothing changes; for a
    mutation rate of 1 every gene has all three attributes in these
    sets. The same holds for every value of the rate, the one of the
    source included. *)
Theorem mutate_keeps_or_resamples (genome : Genome) (σ : state) :
  Forall (is_gene (heap σ)) genome →
  (∃ σ', mutate genome σ = Ok (genome, σ') ∧
     length (deref (heap σ') genome) = length (deref (heap σ) genome) ∧
     Forall2 (λ d' d, d' = d ∨ resampled d')
       (deref (heap σ') genome) (deref (heap σ) genome)) ∧
  (∃ σ', mutate_with 0 genome σ = Ok (genome, σ') ∧
     heap σ' = heap σ ∧
     deref (heap σ') genome = deref (heap σ) genome) ∧
  (∃ σ', mutate_with 1 genome σ = Ok (genome, σ') ∧
     Forall resampled (deref (heap σ') genome)) ∧
  (∀ rate, ∃ σ', mutate_with rate genome σ = Ok (genome, σ') ∧
     Forall2 (λ d' d, d' = d ∨ resampled d')
       (deref (heap σ') genome) (deref (heap σ) genome)).
Proof.
  destruct σ as [h t]. cbn [heap]. intros Hg.
  assert (Hany : ∀ rate, ∃ σ',
    mutate_with rate genome (State h t) = Ok (genome, σ') ∧
    Forall2 (λ d' d, d' = d ∨ resampled d')
      (deref (heap σ') genome) (deref h genome)).
  { intros rate.
    destruct (mutate_with_run rate genome h t Hg)
      as (h' & t' & Hrun & _ & _ & _ & Hall & _).
    by exists (State h' t'). }
  split; [|split; [|split; [|done]]].
  - destruct (Hany 0.1%Q) as (σ' & Hrun & Hall). exists σ'.
    split; [done|]. split; [|done]. unfold deref. by rewrite !length_fmap.
  - destruct (mutate_with_run 0 genome h t Hg)
      as (h' & t' & Hrun & _ & _ & _ & _ & Hz & _).
    exists (State h' t'). split; [done|]. cbn [heap].
    rewrite Hz by apply Qle_refl. done.
  - destruct (mutate_with_run 1 genome h t Hg)
      as (h' & t' & Hrun & _ & _ & _ & _ & _ & Ho).
    exists (State h' t'). split; [done|]. apply Ho, Qle_refl.
Qed.

Lemma mutate_keeps_or_resamples_witness :
  (∃ σ', mutate [0%nat; 1%nat] example_state = Ok ([0%nat; 1%nat], σ') ∧
     length (deref (heap σ') [0%nat; 1%nat])
       = length (deref (heap example_state) [0%nat; 1%nat]) ∧
     Forall2 (λ d' d, d' = d ∨ resampled d')
       (deref (heap σ') [0%nat; 1%nat])
       (deref (heap example_state) [0%nat; 1%nat])) ∧
  (∃ σ', mutate_with 0 [0%nat; 1%nat] example_state
           = Ok ([0%nat; 1%nat], σ') ∧
     heap σ' = heap example_state ∧
     deref (heap σ') [0%nat; 1%nat]
       = deref (heap example_state) [0%nat; 1%nat]) ∧
  (∃ σ', mutate_with 1 [0%nat; 1%nat] example_state
           = Ok ([0%nat; 1%nat], σ') ∧
     Forall resampled (deref (heap σ') [0%nat; 1%nat])) ∧
  (∀ rate, ∃ σ', mutate_with rate [0%nat; 1%nat] example_state
                   = Ok ([0%nat; 1%nat], σ') ∧
     Forall2 (λ d' d, d' = d ∨ resampled d')
       (deref (heap σ') [0%nat; 1%nat])
       (deref (heap example_state) [0%nat; 1%nat])).
Proof.
  apply (mutate_keeps_or_resamples [0%nat; 1%nat] example_state).
  constructor; [|constructor; [|constructor]].
  - exists softmax_gene. split; reflexivity.
  - exists relu_gene. split; reflexivity.
Defined.

(** With a rate of 1 and the example tape, both genes are redrawn. *)
Example mutate_example :
  (λ r, match r with
        | Ok (g, σ') => Some (deref (heap σ') g)
        | _ => None
        end) (mutate_with 1 [0%nat; 1%nat] example_state)
  = Some [[("num_neurons", VInt 8); ("activation", VStr "sigmoid");
           ("dropout_rate", VFloat 0.3)];
          [("num_neurons", VInt 16); ("activation", VStr "sigmoid");
           ("dropout_rate", VFloat 0.1)]].
Proof. vm_compute. reflexivity. Qed.

(** ** Breeding *)

Section BreedFacts.
Implicit Types (h : gmap loc dict) (t : list N) (parents : list Genome).

(** Making a child allocates its genes and assigns to them only. *)
Lemma make_child_run parents h t :
  Forall (Forall (is_gene h)) parents →
  (2 ≤ length parents)%nat →
  ∃ child h' t',
    make_child parents (State h t) = Ok (child, State h' t') ∧
    child_of parents (State h t) child (State h' t') ∧
    h ⊆ h' ∧
    Forall (λ c, c ∉ dom h) child ∧
    Forall (is_gene h') child.
Proof.
  intros Hp Hlen. unfold make_child.
  destruct (random_sample2_run parents h t Hlen)
    as (i & j & p1 & p2 & t1 & Hs & Hij & Hi & Hj).
  rewrite (run_bind _ _ _ _ _ Hs).
  pose proof (Forall_lookup_1 _ _ _ _ Hp Hi) as Hp1.
  pose proof (Forall_lookup_1 _ _ _ _ Hp Hj) as Hp2.
  destruct (crossover_run p1 p2 h t1 Hp1 Hp2)
    as (c0 & h1 & t2 & Hc & Hsub & _ & Hfresh & _ & _ & Hg1 & _).
  rewrite (run_bind _ _ _ _ _ Hc).
  destruct (mutate_with_run 0.1 c0 h1 t2 Hg1)
    as (h2 & t3 & Hm & _ & Hframe & Hg2 & _).
  exists c0, h2, t3. split; [exact Hm|]. split; [|split; [|done]].
  - by econstructor.
  - apply map_subseteq_spec. intros l d Hd.
    rewrite Hframe; [by eapply lookup_weaken|].
    intros Hin. rewrite Forall_forall in Hfresh.
    apply (Hfresh l Hin). by apply elem_of_dom.
Qed.

Lemma genes_weaken h h' (gs : list Genome) :
  h ⊆ h' → Forall (Forall (is_gene h)) gs → Forall (Forall (is_gene h')) gs.
Proof.
  intros Hsub Hgs. eapply Forall_impl; [exact Hgs|]. intros g Hg.
  eapply Forall_impl; [exact Hg|]. intros l. by apply is_gene_weaken.
Qed.

Lemma fresh_weaken h h' (gs : list Genome) :
  h ⊆ h' →
  Forall (Forall (λ c, c ∉ dom h')) gs → Forall (Forall (λ c, c ∉ dom h)) gs.
Proof.
  intros Hsub Hgs. eapply Forall_impl; [exact Hgs|]. intros g Hg.
  eapply Forall_impl; [exact Hg|]. intros l Hl Hin. apply Hl.
  by eapply subseteq_dom.
Qed.

(** With enough fuel the loop ends, having appended children until the
    population size is reached. *)
Lemma breed_while_run population_size parents fuel :
  ∀ next h t,
  Forall (Forall (is_gene h)) parents →
  (2 ≤ length parents)%nat →
  (population_size - length next ≤ fuel)%nat →
  ∃ children h' t',
    breed_while population_size fuel parents next (State h t)
      = Ok (next ++ children, State h' t') ∧
    length children = (population_size - length next)%nat ∧
    children_of parents (State h t) children (State h' t') ∧
    h ⊆ h' ∧
    Forall (Forall (λ c, c ∉ dom h)) children ∧
    Forall (Forall (is_gene h')) children.
Proof.
  induction fuel as [|fuel IH]; intros next h t Hp Hlen Hfuel;
    cbn [breed_while];
    destruct (Nat.ltb_spec (length next) population_size) as [Hlt|Hge];
    try lia.
  1,3: exists [], h, t; rewrite app_nil_r;
       split; [done|]; split; [cbn; lia|]; split; [constructor|];
       split; [done|]; split; constructor.
  destruct (make_child_run parents h t Hp Hlen)
    as (child & h1 & t1 & Hrun & Hchild & Hsub & Hfresh & Hg).
  rewrite (run_bind _ _ _ _ _ Hrun).
  destruct (IH (next ++ [child]) h1 t1) as
    (children & h' & t' & Hrun' & Hlen' & Hch & Hsub' & Hfresh' & Hg').
  { by eapply genes_weaken. }
  { done. }
  { rewrite length_app. cbn. lia. }
  exists (child :: children), h', t'.
  split; [by rewrite Hrun', <- app_assoc|].
  split; [cbn; rewrite Hlen', length_app; cbn; lia|].
  split; [by econstructor|]. split; [by etrans|].
  split; constructor.
  - done.
  - by eapply fresh_weaken.
  - eapply Forall_impl; [exact Hg|]. intros l. by apply is_gene_weaken.
  - done.
Qed.

Lemma selection_subset {A} (population : list A) fitnesses n x :
  x ∈ selection population fitnesses n → x ∈ population.
Proof.
  unfold selection. intros (i & Hx & _)%elem_of_take.
  apply list_elem_of_lookup_2 in Hx.
  apply list_elem_of_fmap in Hx as ([q y] & -> & Hy).
  rewrite sorted_reverse_perm in Hy. cbn.
  apply elem_of_zip_r in Hy. done.
Qed.
End BreedFacts.

(** C6. With 2 <= num_parents <= population_size and a population that
    has at least num_parents genomes, the Breed step returns the selected
    parents followed by children: the first num_parents genomes are the
    parents themselves, every child is made of two parents at distinct
    positions by crossover and then mutation, one child after the other,
    and the size of the result is exactly population_size. *)
Theorem breed_restores_population
    (population_size num_parents fuel : nat)
    (population parents : list Genome) (fitnesses : list Q) (σ : state) :
  (2 ≤ num_parents ≤ population_size)%nat →
  (num_parents ≤ length population)%nat →
  length fitnesses = length population →
  Forall (Forall (is_gene (heap σ))) population →
  (population_size - num_parents ≤ fuel)%nat →
  parents = selection population fitnesses num_parents →
  ∃ children σ',
    breed population_size fuel parents σ = Ok (parents ++ children, σ') ∧
    take num_parents (parents ++ children) = parents ∧
    length (parents ++ children) = population_size ∧
    children_of parents σ children σ'.
Proof.
  destruct σ as [h t]. cbn [heap].
  intros [Hn Hps] Hpop Hfit Hg Hfuel ->.
  set (parents := selection population fitnesses num_parents).
  assert (Hlen : length parents = num_parents).
  { unfold parents, selection.
    rewrite length_take, length_fmap, sorted_reverse_perm, length_zip. lia. }
  assert (Hp : Forall (Forall (is_gene h)) parents).
  { apply Forall_forall. intros g Hin%selection_subset.
    rewrite Forall_forall in Hg. by apply Hg. }
  destruct (breed_while_run population_size parents fuel parents h t)
    as (children & h' & t' & Hrun & Hc & Hch & _); [done|lia|lia|].
  exists children, (State h' t'). split; [exact Hrun|].
  split; [|split; [|done]].
  - rewrite take_app_length'; done.
  - rewrite length_app. lia.
Qed.

Lemma breed_restores_population_witness :
  ∃ children σ',
    breed 3 1 (selection example_population example_fitnesses 2)
      example_state
    = Ok (selection example_population example_fitnesses 2 ++ children, σ') ∧
    take 2 (selection example_population example_fitnesses 2 ++ children)
    = selection example_population example_fitnesses 2 ∧
    length (selection example_population example_fitnesses 2 ++ children)
    = 3%nat ∧
    children_of (selection example_population example_fitnesses 2)
      example_state children σ'.
Proof.
  apply (breed_restores_population 3 2 1 example_population
           (selection example_population example_fitnesses 2)
           example_fitnesses example_state).
  - lia.
  - simpl. lia.
  - reflexivity.
  - repeat constructor;
      first [ exists softmax_gene; split; reflexivity
            | exists relu_gene; split; reflexivity ].
  - lia.
  - reflexivity.
Defined.

(** C9. Breeding does not modify the parents. Every gene object of the
    store before breeding, the genes of the parents among them, holds the
    same dictionary afterwards, and the children are made of objects that
    did not exist before. This rests on the two steps: [crossover] leaves
    the store as it was and returns a child of pairwise distinct new gene
    objects; [mutate] assigns to the genes of the genome that it is given
    and to nothing else. *)
Theorem breeding_leaves_parents_unchanged
    (population_size fuel : nat) (parents : list Genome) (σ : state) :
  Forall (Forall (is_gene (heap σ))) parents →
  (2 ≤ length parents)%nat →
  (population_size - length parents ≤ fuel)%nat →
  (∃ children σ',
     breed population_size fuel parents σ = Ok (parents ++ children, σ') ∧
     heap σ ⊆ heap σ' ∧
     Forall (λ p, deref (heap σ') p = deref (heap σ) p) parents ∧
     Forall (Forall (λ c, c ∉ dom (heap σ))) children) ∧
  (∀ parent1 parent2, parent1 ∈ parents → parent2 ∈ parents →
     ∃ child σ1,
       crossover parent1 parent2 σ = Ok (child, σ1) ∧
       heap σ ⊆ heap σ1 ∧
       Forall (λ c, c ∉ dom (heap σ)) child ∧
       NoDup child) ∧
  (∀ child σ0, Forall (is_gene (heap σ0)) child →
     ∃ σ1,
       mutate child σ0 = Ok (child, σ1) ∧
       ∀ l, l ∉ child → heap σ1 !! l = heap σ0 !! l).
Proof.
  destruct σ as [h t]. cbn [heap]. intros Hp Hlen Hfuel.
  split; [|split].
  - destruct (breed_while_run population_size parents fuel parents h t)
      as (children & h' & t' & Hrun & _ & _ & Hsub & Hfresh & _); [done..|].
    exists children, (State h' t'). split; [exact Hrun|]. cbn [heap].
    split; [done|]. split; [|done].
    eapply Forall_impl; [exact Hp|]. intros g Hg. by apply deref_weaken.
  - intros p1 p2 H1 H2. rewrite Forall_forall in Hp.
    destruct (crossover_run p1 p2 h t (Hp _ H1) (Hp _ H2))
      as (child & h' & t' & Hrun & Hsub & _ & Hfresh & Hnd & _).
    by exists child, (State h' t').
  - intros child [h0 t0] Hg. cbn [heap] in *.
    destruct (mutate_with_run 0.1 child h0 t0 Hg)
      as (h1 & t1 & Hrun & _ & Hframe & _).
    by exists (State h1 t1).
Qed.

Lemma breeding_leaves_parents_unchanged_witness :
  (∃ children σ',
     breed 4 2 example_population example_state
       = Ok (example_population ++ children, σ') ∧
     heap example_state ⊆ heap σ' ∧
     Forall (λ p, deref (heap σ') p = deref (heap example_state) p)
       example_population ∧
     Forall (Forall (λ c, c ∉ dom (heap example_state))) children) ∧
  (∀ parent1 parent2,
     parent1 ∈ example_population → parent2 ∈ example_population →
     ∃ child σ1,
       crossover parent1 parent2 example_state = Ok (child, σ1) ∧
       heap example_state ⊆ heap σ1 ∧
       Forall (λ c, c ∉ dom (heap example_state)) child ∧
       NoDup child) ∧
  (∀ child σ0, Forall (is_gene (heap σ0)) child →
     ∃ σ1,
       mutate child σ0 = Ok (child, σ1) ∧
       ∀ l, l ∉ child → heap σ1 !! l = heap σ0 !! l).
Proof.
  apply (breeding_leaves_parents_unchanged 4 2 example_population
           example_state).
  - repeat constructor;
      first [ exists softmax_gene; split; reflexivity
            | exists relu_gene; split; reflexivity ].
  - simpl. lia.
  - simpl. lia.
Defined.

(** The store after breeding one child from the example population: the
    two parent genes are as they were, and the child has a gene of its
    own. *)
Example breed_example :
  (λ r, match r with
        | Ok (next, σ') => Some (next, map_to_list (heap σ'))
        | _ => None
        end) (breed 4 1 example_population example_state)
  = Some ([[0%nat]; [1%nat]; [0%nat; 1%nat]; [2%nat]],
          [(2%nat, [("num_neurons", VInt 8); ("activation", VStr "sigmoid");
                    ("dropout_rate", VFloat 0.2)]);
           (1%nat, relu_gene); (0%nat, softmax_gene)]).
Proof. vm_compute. reflexivity. Qed.

(** ** The generation loop *)

Section TrackerFacts.
Lemma bind_Ok_inv {A B} (m : M A) (f : A → M B) σ b σ' :
  (m ≫= f) σ = Ok (b, σ') →
  ∃ a σ1, m σ = Ok (a, σ1) ∧ f a σ1 = Ok (b, σ').
Proof.
  unfold mbind, M_bind. destruct (m σ) as [[a σ1]| |]; [|done..].
  intros H. by exists a, σ1.
Qed.

Lemma result_bind_Ok_inv {A B} (m : result A) (f : A → result B) b :
  m ≫= f = Ok b → ∃ a, m = Ok a ∧ f a = Ok b.
Proof.
  unfold mbind, result_bind. destruct m as [a| |]; [|done..].
  intros H. by exists a.
Qed.

Lemma lift_Ok_inv {A} (r : result A) σ a σ' :
  lift r σ = Ok (a, σ') → r = Ok a ∧ σ' = σ.
Proof. destruct r; cbn; [|done..]. by intros [= -> ->]. Qed.

Lemma py_max_spec l m :
  py_max l = Ok m → m ∈ l ∧ ∀ x, x ∈ l → (x <= m)%Q.
Proof.
  destruct l as [|x l]; [done|]. cbn. intros [= <-].
  assert (H : ∀ a, let r := foldl (λ m y, if Qltb m y then y else m) a l in
            (r = a ∨ r ∈ l) ∧ (a <= r)%Q ∧ ∀ y, y ∈ l → (y <= r)%Q).
  { induction l as [|y l IH]; intros a; cbn.
    - split; [by left|]. split; [apply Qle_refl|]. by intros y ?%elem_of_nil.
    - destruct (IH (if Qltb a y then y else a)) as (Hin & Hle & Hall).
      destruct (Qltb a y) eqn:E.
      + apply Qltb_true in E. split; [|split].
        * right. destruct Hin as [->|?]; [by left|by right].
        * eapply Qle_trans; [by apply Qlt_le_weak|done].
        * intros z [->|?]%elem_of_cons; [done|by apply Hall].
      + apply Qltb_false in E. split; [|split; [done|]].
        * destruct Hin as [->|?]; [by left|right; by right].
        * intros z [->|?]%elem_of_cons; [|by apply Hall].
          by eapply Qle_trans. }
  destruct (H x) as (Hin & Hle & Hall). split.
  - destruct Hin as [->|?]; [by left|by right].
  - intros z [->|?]%elem_of_cons; [done|by apply Hall].
Qed.

Lemma py_index_spec x l i :
  py_index x l = Ok i → ∃ y, l !! i = Some y ∧ (y == x)%Q.
Proof.
  revert i. induction l as [|y l IH]; intros i; cbn; [done|].
  destruct (Qeq_bool y x) eqn:E.
  - intros [= <-]. exists y. split; [done|]. by apply Qeq_bool_eq.
  - unfold fmap, result_fmap. destruct (py_index x l) as [j| |]; [|done..].
    intros [= <-]. by apply IH.
Qed.

Lemma py_nth_Ok {A} (l : list A) i x : py_nth l i = Ok x → l !! i = Some x.
Proof. unfold py_nth. destruct (l !! i); [|done]. by intros [= ->]. Qed.

(** What one round of tracking does. *)
Lemma track_spec s fitnesses s' :
  track s fitnesses = Ok s' →
  ∃ m idx arch,
    fitnesses !! idx = Some m ∧
    (∀ x, x ∈ fitnesses → (x <= m)%Q) ∧
    population s !! idx = Some arch ∧
    observed s' = observed s ++ [fitnesses] ∧
    population s' = population s ∧
    if exceeds m (best_overall_fitness s) then
      best_overall_fitness s' = Fin m ∧
      best_overall_architecture s' = Some arch
    else
      best_overall_fitness s' = best_overall_fitness s ∧
      best_overall_architecture s' = best_overall_architecture s.
Proof.
  unfold track. intros H.
  apply result_bind_Ok_inv in H as (m0 & Hmax & H).
  apply result_bind_Ok_inv in H as (idx & Hidx & H).
  apply result_bind_Ok_inv in H as (m & Hm & H).
  apply result_bind_Ok_inv in H as (arch & Harch & H).
  apply py_max_spec in Hmax as [_ Hall].
  apply py_index_spec in Hidx as (y & Hy & Heq).
  apply py_nth_Ok in Hm. apply py_nth_Ok in Harch.
  assert (y = m) as -> by congruence.
  exists m, idx, arch. split; [done|]. split.
  { intros x Hx. rewrite Heq. by apply Hall. }
  split; [done|].
  destruct (exceeds m (best_overall_fitness s)); injection H as <-; done.
Qed.

Lemma exceeds_true x b : exceeds x b = true → efloat_le b (Fin x).
Proof.
  destruct b as [|q]; cbn; [done|]. intros H%Qltb_true.
  by apply Qlt_le_weak.
Qed.

Lemma efloat_le_refl a : efloat_le a a.
Proof. destruct a; cbn; [done|apply Qle_refl]. Qed.

(** Tracking keeps the stored fitness the running maximum and never
    lowers it. *)
Lemma track_running_maximum s fitnesses s' :
  running_maximum s → track s fitnesses = Ok s' →
  running_maximum s' ∧
  efloat_le (best_overall_fitness s) (best_overall_fitness s').
Proof.
  intros Hinv H. apply track_spec in H
    as (m & idx & arch & Hm & Hall & _ & Hobs & _ & Hcase).
  apply list_elem_of_lookup_2 in Hm.
  unfold running_maximum in *. rewrite Hobs, concat_app. cbn [concat].
  rewrite app_nil_r.
  destruct (exceeds m (best_overall_fitness s)) eqn:E;
    destruct Hcase as [-> _].
  - split; [|by apply exceeds_true]. split.
    + apply elem_of_app. by right.
    + intros x [Hx|Hx]%elem_of_app; [|by apply Hall].
      destruct (best_overall_fitness s) as [|b]; cbn in E.
      * rewrite Hinv in Hx. cbn in Hx. by apply elem_of_nil in Hx.
      * destruct Hinv as [_ Hb]. apply Qltb_true in E.
        eapply Qle_trans; [by apply Hb|by apply Qlt_le_weak].
  - split; [|apply efloat_le_refl].
    destruct (best_overall_fitness s) as [|b]; cbn in E; [done|].
    destruct Hinv as [Hin Hb]. apply Qltb_false in E. split.
    + apply elem_of_app. by left.
    + intros x [Hx|Hx]%elem_of_app; [by apply Hb|].
      eapply Qle_trans; [by apply Hall|done].
Qed.
End TrackerFacts.

Section EvaluationFacts.
Variable fitness : nat → nat → list dict → result Q.

(** The evaluation loop leaves the state alone and appends one fitness
    per genome, the one computed for that genome's value. *)
Lemma evaluate_population_spec generation population :
  ∀ idx acc σ fs σ',
  evaluate_population fitness generation idx population acc σ = Ok (fs, σ') →
  σ' = σ ∧
  ∃ new,
    fs = acc ++ new ∧
    length new = length population ∧
    ∀ i genome q,
      population !! i = Some genome → new !! i = Some q →
      fitness generation (idx + i) (deref (heap σ) genome) = Ok q.
Proof.
  induction population as [|g population IH]; intros idx acc σ fs σ' H.
  { injection H as <- <-. split; [done|]. exists []. rewrite app_nil_r.
    split; [done|]. split; [done|]. intros i genome q Hi. done. }
  cbn [evaluate_population] in H.
  apply bind_Ok_inv in H as (q0 & σ1 & Hq & H).
  apply lift_Ok_inv in Hq as [Hq ->].
  destruct (IH _ _ _ _ _ H) as (-> & new & -> & Hlen & Hall).
  split; [done|]. exists (q0 :: new). rewrite <- app_assoc.
  split; [done|]. split; [cbn; by rewrite Hlen|].
  intros [|i] genome q; cbn.
  - intros [= <-] [= <-]. by rewrite Nat.add_0_r.
  - intros Hi Hn. rewrite <- Nat.add_succ_comm. by apply Hall.
Qed.

(** The first genome whose evaluation raises ends the loop with that
    exception. *)
Lemma evaluate_population_raise generation pre g post e :
  ∀ idx acc σ,
  (∀ i genome, pre !! i = Some genome →
     ∃ q, fitness generation (idx + i) (deref (heap σ) genome) = Ok q) →
  fitness generation (idx + length pre) (deref (heap σ) g) = Raise e →
  evaluate_population fitness generation idx (pre ++ g :: post) acc σ
  = Raise e.
Proof.
  induction pre as [|g0 pre IH]; intros idx acc σ Hpre Hg; cbn [app].
  { cbn [evaluate_population]. unfold mbind, M_bind.
    cbn in Hg. rewrite Nat.add_0_r in Hg. by rewrite Hg. }
  cbn [evaluate_population].
  destruct (Hpre 0%nat g0 eq_refl) as [q Hq]. rewrite Nat.add_0_r in Hq.
  unfold mbind at 1, M_bind. rewrite Hq. cbn [lift].
  apply IH.
  - intros i genome Hi. rewrite Nat.add_succ_comm. by apply (Hpre (S i)).
  - rewrite Nat.add_succ_comm. exact Hg.
Qed.
End EvaluationFacts.

Section LoopFacts.
Variables population_size num_parents : nat.
Variable fitness : nat → nat → list dict → result Q.

Local Abbreviation body := (generation_body population_size num_parents fitness).
Local Abbreviation loop := (generation_loop population_size num_parents fitness).

Lemma generation_body_inv fuel generation s σ s' σ' :
  body fuel generation s σ = Ok (s', σ') →
  ∃ fitnesses σ1 s1 next,
    evaluate_population fitness generation 0 (population s) [] σ
      = Ok (fitnesses, σ1) ∧
    track s fitnesses = Ok s1 ∧
    breed population_size fuel
      (selection (population s) fitnesses num_parents) σ1 = Ok (next, σ') ∧
    population s' = next ∧
    best_overall_fitness s' = best_overall_fitness s1 ∧
    best_overall_architecture s' = best_overall_architecture s1 ∧
    observed s' = observed s1.
Proof.
  unfold generation_body. intros H.
  apply bind_Ok_inv in H as (fitnesses & σ1 & Hev & H).
  apply bind_Ok_inv in H as (s1 & σ2 & Htr & H).
  apply lift_Ok_inv in Htr as [Htr ->].
  apply bind_Ok_inv in H as (next & σ3 & Hbr & H).
  injection H as <- <-. by exists fitnesses, σ1, s1, next.
Qed.

Lemma efloat_le_trans a b c : efloat_le a b → efloat_le b c → efloat_le a c.
Proof.
  destruct a, b, c; cbn; try done. apply Qle_trans.
Qed.

Lemma body_running_maximum fuel generation s σ s' σ' :
  running_maximum s →
  body fuel generation s σ = Ok (s', σ') →
  running_maximum s' ∧
  efloat_le (best_overall_fitness s) (best_overall_fitness s') ∧
  length (observed s') = S (length (observed s)).
Proof.
  intros Hinv H. apply generation_body_inv in H
    as (fitnesses & σ1 & s1 & next & _ & Htr & _ & _ & Hb & _ & Ho).
  destruct (track_running_maximum _ _ _ Hinv Htr) as [Hinv1 Hle].
  apply track_spec in Htr as (_ & _ & _ & _ & _ & _ & Hobs & _).
  unfold running_maximum in *. rewrite Hb, Ho.
  split; [done|]. split; [done|].
  rewrite Hobs, length_app. cbn. lia.
Qed.

Lemma loop_running_maximum fuel generations :
  ∀ s σ s' σ',
  running_maximum s →
  loop fuel generations s σ = Ok (s', σ') →
  running_maximum s' ∧
  efloat_le (best_overall_fitness s) (best_overall_fitness s') ∧
  length (observed s') = (length (observed s) + length generations)%nat.
Proof.
  induction generations as [|g gs IH]; intros s σ s' σ' Hinv H.
  { injection H as <- <-. split; [done|]. split; [apply efloat_le_refl|].
    cbn. lia. }
  cbn [generation_loop] in H.
  apply bind_Ok_inv in H as (s1 & σ1 & Hb & H).
  destruct (body_running_maximum _ _ _ _ _ _ Hinv Hb) as (Hinv1 & Hle1 & Hlen1).
  destruct (IH _ _ _ _ Hinv1 H) as (Hinv' & Hle' & Hlen').
  split; [done|]. split; [by eapply efloat_le_trans|].
  rewrite Hlen', Hlen1. cbn. lia.
Qed.

Lemma loop_snoc fuel generations generation s σ s1 σ1 :
  loop fuel generations s σ = Ok (s1, σ1) →
  loop fuel (generations ++ [generation]) s σ = body fuel generation s1 σ1.
Proof.
  revert s σ. induction generations as [|g gs IH]; intros s σ H.
  - injection H as <- <-. cbn.
    unfold mbind, M_bind. by destruct (body fuel generation s σ) as [[? ?]| |].
  - cbn [app generation_loop] in *.
    apply bind_Ok_inv in H as (s2 & σ2 & Hb & H).
    rewrite (run_bind _ _ _ _ _ Hb). by apply IH.
Qed.
Lemma loop_snoc_inv fuel generations generation :
  ∀ s σ s' σ',
  loop fuel (generations ++ [generation]) s σ = Ok (s', σ') →
  ∃ s1 σ1,
    loop fuel generations s σ = Ok (s1, σ1) ∧
    body fuel generation s1 σ1 = Ok (s', σ').
Proof.
  induction generations as [|g gs IH]; intros s σ s' σ' H.
  - cbn [app generation_loop] in H.
    apply bind_Ok_inv in H as (s1 & σ1 & Hb & H). injection H as <- <-.
    by exists s, σ.
  - cbn [app generation_loop] in *.
    apply bind_Ok_inv in H as (s2 & σ2 & Hb & H).
    destruct (IH _ _ _ _ H) as (s1 & σ1 & Hl & Hb').
    exists s1, σ1. split; [|done]. by rewrite (run_bind _ _ _ _ _ Hb).
Qed.

(** What the log holds: its entry for generation [g] is the list that
    the evaluation loop returns on the population that the loop has after
    [g] generations. *)
Lemma loop_observed_evaluations fuel population0 σ0 n :
  ∀ s σ,
  loop fuel (seq 0 n) (initial population0) σ0 = Ok (s, σ) →
  length (observed s) = n ∧
  ∀ g fitnesses,
    observed s !! g = Some fitnesses →
    ∃ s_g σ_g,
      loop fuel (seq 0 g) (initial population0) σ0 = Ok (s_g, σ_g) ∧
      evaluate_population fitness g 0 (population s_g) [] σ_g
        = Ok (fitnesses, σ_g).
Proof.
  induction n as [|n IH]; intros s σ H.
  { injection H as <- <-. split; [done|]. intros g fs Hg. done. }
  rewrite seq_S in H. cbn [Nat.add] in H.
  apply loop_snoc_inv in H as (s1 & σ1 & Hl & Hb).
  destruct (IH _ _ Hl) as [Hlen Hobs].
  apply generation_body_inv in Hb
    as (fs & σ2 & s2 & next & Hev & Htr & _ & _ & _ & _ & Ho).
  pose proof (evaluate_population_spec fitness _ _ _ _ _ _ _ Hev) as [-> _].
  apply track_spec in Htr as (_ & _ & _ & _ & _ & _ & Ho1 & _).
  rewrite Ho, Ho1. split; [rewrite length_app; cbn; lia|].
  intros g fitnesses Hg.
  destruct (decide (g < n)%nat) as [Hlt|Hge].
  - rewrite lookup_app_l in Hg by lia. by apply Hobs.
  - rewrite lookup_app_r in Hg by lia. rewrite Hlen in Hg.
    destruct (g - n)%nat as [|k] eqn:E; [|done].
    injection Hg as <-. assert (g = n) as -> by lia.
    by exists s1, σ1.
Qed.
End LoopFacts.

(** C5. Take the state after any number n of generations of the loop,
    started with minus infinity. The fitness values observed so far are
    those that the evaluation loop returned, generation by generation, on
    the population the loop had then, and the stored best fitness is
    their maximum. The next generation never lowers it: the tracker
    (fitness and genome together) is replaced by the first maximum of the
    fitness list that the evaluation of that generation returns exactly
    when this maximum is strictly greater than the stored value, and is
    left alone otherwise, and the stored value is again the maximum of
    everything observed. *)
Theorem best_overall_is_running_maximum
    (population_size num_parents fuel n : nat)
    (fitness : nat → nat → list dict → result Q)
    (population0 : list Genome) (σ0 σ : state) (s : GA) :
  generation_loop population_size num_parents fitness fuel (seq 0 n)
    (initial population0) σ0 = Ok (s, σ) →
  running_maximum s ∧
  length (observed s) = n ∧
  (∀ g fitnesses,
     observed s !! g = Some fitnesses →
     ∃ s_g σ_g,
       generation_loop population_size num_parents fitness fuel (seq 0 g)
         (initial population0) σ0 = Ok (s_g, σ_g) ∧
       evaluate_population fitness g 0 (population s_g) [] σ_g
         = Ok (fitnesses, σ_g)) ∧
  ∀ s' σ',
    generation_body population_size num_parents fitness fuel n s σ
      = Ok (s', σ') →
    generation_loop population_size num_parents fitness fuel (seq 0 (S n))
      (initial population0) σ0 = Ok (s', σ') ∧
    efloat_le (best_overall_fitness s) (best_overall_fitness s') ∧
    running_maximum s' ∧
    ∃ fitnesses m idx arch,
      evaluate_population fitness n 0 (population s) [] σ
        = Ok (fitnesses, σ) ∧
      observed s' = observed s ++ [fitnesses] ∧
      fitnesses !! idx = Some m ∧
      (∀ x, x ∈ fitnesses → (x <= m)%Q) ∧
      population s !! idx = Some arch ∧
      match best_overall_fitness s with
      | NegInf =>
          best_overall_fitness s' = Fin m ∧
          best_overall_architecture s' = Some arch
      | Fin b =>
          ((b < m)%Q →
           best_overall_fitness s' = Fin m ∧
           best_overall_architecture s' = Some arch) ∧
          ((m <= b)%Q →
           best_overall_fitness s' = Fin b ∧
           best_overall_architecture s' = best_overall_architecture s)
      end.
Proof.
  intros Hloop.
  assert (H0 : running_maximum (initial population0)) by reflexivity.
  destruct (loop_running_maximum _ _ _ _ _ _ _ _ _ H0 Hloop)
    as (Hinv & _ & _).
  destruct (loop_observed_evaluations _ _ _ _ _ _ _ _ _ Hloop)
    as [Hlen Hobs].
  split; [done|]. split; [done|]. split; [done|]. intros s' σ' Hbody.
  split.
  { rewrite seq_S. cbn. by rewrite (loop_snoc _ _ _ _ _ _ _ _ _ _ Hloop). }
  destruct (body_running_maximum _ _ _ _ _ _ _ _ _ Hinv Hbody) as (Hinv' & Hle & _).
  split; [done|]. split; [done|].
  apply generation_body_inv in Hbody
    as (fitnesses & σ1 & s1 & next & Hev & Htr & _ & _ & Hb & Ha & Ho).
  pose proof (evaluate_population_spec fitness _ _ _ _ _ _ _ Hev) as [-> _].
  apply track_spec in Htr as (m & idx & arch & Hm & Hall & Harch & Hobs1 & _ & Hcase).
  exists fitnesses, m, idx, arch. rewrite Hb, Ha, Ho.
  split; [done|]. split; [done|]. split; [done|]. split; [done|].
  split; [done|].
  destruct (best_overall_fitness s) as [|b]; [exact Hcase|].
  cbn [exceeds] in Hcase. split.
  - intros Hlt. apply Qltb_true in Hlt. by rewrite Hlt in Hcase.
  - intros Hge. apply Qltb_false in Hge. by rewrite Hge in Hcase.
Qed.

Lemma best_overall_is_running_maximum_witness :
  running_maximum example_GA_1 ∧
  length (observed example_GA_1) = 1%nat ∧
  (∀ g fitnesses,
     observed example_GA_1 !! g = Some fitnesses →
     ∃ s_g σ_g,
       generation_loop 3 2 example_fitness 1 (seq 0 g)
         (initial example_population) example_state = Ok (s_g, σ_g) ∧
       evaluate_population example_fitness g 0 (population s_g) [] σ_g
         = Ok (fitnesses, σ_g)) ∧
  ∀ s' σ',
    generation_body 3 2 example_fitness 1 1 example_GA_1 example_state_1
      = Ok (s', σ') →
    generation_loop 3 2 example_fitness 1 (seq 0 2)
      (initial example_population) example_state = Ok (s', σ') ∧
    efloat_le (best_overall_fitness example_GA_1) (best_overall_fitness s') ∧
    running_maximum s' ∧
    ∃ fitnesses m idx arch,
      evaluate_population example_fitness 1 0 (population example_GA_1) []
        example_state_1 = Ok (fitnesses, example_state_1) ∧
      observed s' = observed example_GA_1 ++ [fitnesses] ∧
      fitnesses !! idx = Some m ∧
      (∀ x, x ∈ fitnesses → (x <= m)%Q) ∧
      population example_GA_1 !! idx = Some arch ∧
      match best_overall_fitness example_GA_1 with
      | NegInf =>
          best_overall_fitness s' = Fin m ∧
          best_overall_architecture s' = Some arch
      | Fin b =>
          ((b < m)%Q →
           best_overall_fitness s' = Fin m ∧
           best_overall_architecture s' = Some arch) ∧
          ((m <= b)%Q →
           best_overall_fitness s' = Fin b ∧
           best_overall_architecture s' =
             best_overall_architecture example_GA_1)
      end.
Proof.
  apply (best_overall_is_running_maximum 3 2 1 1 example_fitness
           example_population example_state example_state_1 example_GA_1).
  vm_compute. reflexivity.
Defined.

(** The tracker over two generations of the example: 3/8 after the
    first, 4/8 after the second. *)
Example tracker_example :
  best_overall_fitness example_GA_1 = Fin (3 # 8) ∧
  match generation_loop 3 2 example_fitness 1 (seq 0 2)
          (initial example_population) example_state with
  | Ok (s, _) => best_overall_fitness s = Fin (4 # 8) ∧
                 length (population s) = 3%nat
  | _ => False
  end.
Proof. vm_compute. split; [reflexivity|]. split; reflexivity. Qed.

(** ** The fitness evaluator *)

Section FitnessFacts.
Context {model data target : Type}.
Variable initialise : Net → model.
Variable optimizer_step : model → data * target → model.
Variable loss_item : model → data * target → Q.
Variable predict : model → data → list nat.
Variable argmax : target → list nat.

Lemma train_epoch_spec bs m epoch_loss :
  (train_epoch optimizer_step loss_item bs m epoch_loss).1
  = foldl optimizer_step m bs.
Proof.
  revert m epoch_loss. induction bs as [|b bs IH]; intros m l; cbn; [done|].
  apply IH.
Qed.

(** Training runs [epochs] passes, one optimizer step per batch. *)
Lemma train_spec (train_loader : Loader) epochs :
  ∀ epoch m total_loss,
  (epochs = 0 ∨ len train_loader ≠ 0)%nat →
  ∃ total_loss',
    train optimizer_step loss_item epochs epoch train_loader m total_loss
    = Ok (foldl optimizer_step m
            (concat (batches train_loader <$> seq epoch epochs)),
          total_loss').
Proof.
  induction epochs as [|epochs IH]; intros epoch m total_loss Hlen.
  { by exists total_loss. }
  destruct Hlen as [?|Hlen]; [done|]. cbn [train].
  pose proof (train_epoch_spec (batches train_loader epoch) m 0%Q) as He.
  destruct (train_epoch _ _ _ m 0%Q) as [m' epoch_loss]. cbn in He.
  destruct (Nat.eqb_spec (len train_loader) 0) as [?|_]; [done|].
  cbn. destruct (IH (S epoch) m' (total_loss + epoch_loss)%Q) as [l' Hl'].
  { by right. }
  exists l'. rewrite Hl', He. by rewrite foldl_app.
Qed.

Lemma train_no_batches (train_loader : Loader) epochs epoch m total_loss :
  len train_loader = 0%nat →
  train optimizer_step loss_item (S epochs) epoch train_loader m total_loss
  = Raise ZeroDivisionError.
Proof.
  intros Hlen. cbn [train]. destruct (train_epoch _ _ _ m 0%Q).
  by rewrite Hlen.
Qed.

Lemma count_equal_le pred tgt : (count_equal pred tgt ≤ length tgt)%nat.
Proof.
  unfold count_equal.
  etrans; [apply length_filter|]. rewrite length_zip. lia.
Qed.

Lemma evaluate_spec test_loader m correct total :
  evaluate predict argmax test_loader m correct total
  = ((correct + correct_count predict argmax m test_loader)%nat,
     (total + total_count argmax test_loader)%nat).
Proof.
  revert correct total.
  induction test_loader as [|[x y] rest IH]; intros correct total; cbn.
  { f_equal; lia. }
  rewrite IH. unfold correct_count, total_count. cbn. f_equal; lia.
Qed.

Lemma correct_le_total m test_loader :
  (correct_count predict argmax m test_loader
   ≤ total_count argmax test_loader)%nat.
Proof.
  unfold correct_count, total_count.
  induction test_loader as [|[x y] rest IH]; cbn; [done|].
  pose proof (count_equal_le (predict m x) (argmax y)). lia.
Qed.
End FitnessFacts.

(** C7, amended. For a genome that builds, a training provider that has
    batches (or no epoch to run) and validation batches that hold at
    least one sample, [compute_fitness] takes one optimizer step per
    training batch over exactly [epochs] passes from the freshly
    initialised model, and returns correct/total for the model so trained,
    where correct counts the validation samples whose predicted class is
    the class of their target and total counts all of them; correct is at
    most total and the fitness lies between 0 and 1. *)
Theorem compute_fitness_is_accuracy {model data target : Type}
    (initialise : Net → model)
    (optimizer_step : model → data * target → model)
    (loss_item : model → data * target → Q)
    (predict : model → data → list nat)
    (argmax : target → list nat)
    (genome : list dict) (net : Net) (train_loader : Loader)
    (test_loader : list (data * target)) (epochs : nat) (D K : Z) :
  Net_init genome D K = Ok net →
  (epochs = 0 ∨ len train_loader ≠ 0)%nat →
  (0 < total_count argmax test_loader)%nat →
  let trained :=
    foldl optimizer_step (initialise net) (passes train_loader epochs) in
  let correct := correct_count predict argmax trained test_loader in
  let total := total_count argmax test_loader in
  compute_fitness initialise optimizer_step loss_item predict argmax
    genome train_loader test_loader epochs D K
  = Ok (Z.of_nat correct # Pos.of_nat total)%Q ∧
  (correct ≤ total)%nat ∧
  (0 <= Z.of_nat correct # Pos.of_nat total)%Q ∧
  (Z.of_nat correct # Pos.of_nat total <= 1)%Q.
Proof.
  intros Hnet Hlen Htotal trained correct total.
  pose proof (correct_le_total predict argmax trained test_loader) as Hle.
  fold correct total in Hle.
  split; [|split; [done|]].
  - unfold compute_fitness. rewrite Hnet. cbn.
    destruct (train_spec optimizer_step loss_item train_loader epochs 0
                (initialise net) 0%Q Hlen) as [l Hl].
    rewrite Hl. cbn. rewrite evaluate_spec. cbn.
    fold (passes train_loader epochs). fold trained. fold correct total.
    destruct (Nat.eqb_spec total 0) as [?|_]; [lia|done].
  - unfold Qle. cbn [Qnum Qden]. split; [lia|].
    rewrite Z.mul_1_r, Z.mul_1_l.
    rewrite <- positive_nat_Z, Nat2Pos.id by lia. lia.
Qed.

Lemma compute_fitness_is_accuracy_witness :
  let trained :=
    foldl (λ m _, S m) ((λ _ : Net, 0%nat) {| network :=
       [Linear (VInt 3) (VInt 16); ReLU; Dropout (VFloat 0.2);
        Linear (VInt 16) (VInt 4)] |}) (passes one_batch_loader 2) in
  let correct :=
    correct_count (λ (m : nat) (_ : unit), [m]) (λ _ : unit, [2%nat])
      trained one_sample in
  let total := total_count (λ _ : unit, [2%nat]) one_sample in
  compute_fitness (λ _ : Net, 0%nat) (λ m _, S m) (λ _ _, 0%Q)
    (λ (m : nat) (_ : unit), [m]) (λ _ : unit, [2%nat])
    [relu_gene] one_batch_loader one_sample 2 3 4
  = Ok (Z.of_nat correct # Pos.of_nat total)%Q ∧
  (correct ≤ total)%nat ∧
  (0 <= Z.of_nat correct # Pos.of_nat total)%Q ∧
  (Z.of_nat correct # Pos.of_nat total <= 1)%Q.
Proof.
  apply (compute_fitness_is_accuracy (λ _ : Net, 0%nat) (λ m _, S m)
           (λ _ _, 0%Q) (λ (m : nat) (_ : unit), [m]) (λ _ : unit, [2%nat])
           [relu_gene]
           {| network :=
                [Linear (VInt 3) (VInt 16); ReLU; Dropout (VFloat 0.2);
                 Linear (VInt 16) (VInt 4)] |}
           one_batch_loader one_sample 2 3 4).
  - reflexivity.
  - right. discriminate.
  - vm_compute. lia.
Defined.

(** C7 as stated fails on a training provider without batches: the
    average loss of the first epoch divides by zero, although the genome
    builds and the validation batches hold a sample. *)
Lemma compute_fitness_empty_training_counterexample :
  (∃ net, Net_init [relu_gene] 3 4 = Ok net) ∧
  one_sample ≠ [] ∧
  total_count (λ _ : unit, [0%nat]) one_sample = 1%nat ∧
  compute_fitness (λ _ : Net, ()) (λ m _, m) (λ _ _, 0%Q)
    (λ _ _, [0%nat]) (λ _ : unit, [0%nat])
    [relu_gene] empty_loader one_sample 1 3 4
  = Raise ZeroDivisionError.
Proof.
  split; [by eexists|]. split; [done|]. split; reflexivity.
Qed.

(** ** The loop runs to its end *)

Section LoopRuns.
Variables population_size num_parents : nat.
Variable fitness : nat → nat → list dict → result Q.
Hypothesis fitness_total : ∀ generation idx genes,
  ∃ q, fitness generation idx genes = Ok q.
Hypothesis parents_bounds : (2 ≤ num_parents ≤ population_size)%nat.

Lemma evaluate_population_run generation population :
  ∀ idx fitnesses σ,
  ∃ fs,
    evaluate_population fitness generation idx population fitnesses σ
      = Ok (fitnesses ++ fs, σ) ∧
    length fs = length population.
Proof.
  induction population as [|g population IH]; intros idx fitnesses σ.
  { exists []. by rewrite app_nil_r. }
  cbn [evaluate_population].
  destruct (fitness_total generation idx (deref (heap σ) g)) as [q Hq].
  unfold mbind at 1, M_bind. rewrite Hq. cbn.
  destruct (IH (S idx) (fitnesses ++ [q]) σ) as (fs & Hrun & Hlen).
  exists (q :: fs). rewrite Hrun, <- app_assoc. split; [done|].
  cbn. by rewrite Hlen.
Qed.

Lemma py_index_run x l :
  x ∈ l → ∃ i, py_index x l = Ok i ∧ (i < length l)%nat.
Proof.
  induction l as [|y l IH]; [by intros ?%elem_of_nil|].
  intros Hin. cbn. destruct (Qeq_bool y x) eqn:E.
  { exists 0%nat. split; [done|]. lia. }
  apply elem_of_cons in Hin as [->|Hin].
  { rewrite (proj2 (Qeq_bool_iff y y)) in E by reflexivity. done. }
  destruct (IH Hin) as (i & Hi & Hlt). exists (S i).
  rewrite Hi. split; [done|]. lia.
Qed.

Lemma track_run s fitnesses :
  fitnesses ≠ [] → length fitnesses = length (population s) →
  ∃ s', track s fitnesses = Ok s'.
Proof.
  intros Hne Hlen. unfold track.
  destruct (py_max fitnesses) as [m| |] eqn:Hmax;
    [|by destruct fitnesses..].
  destruct (py_max_spec _ _ Hmax) as [Hin _].
  destruct (py_index_run m fitnesses Hin) as (idx & Hidx & Hlt).
  cbn. rewrite Hidx. cbn. unfold py_nth.
  destruct (lookup_lt_is_Some_2 fitnesses idx Hlt) as [y Hy].
  rewrite Hlen in Hlt.
  destruct (lookup_lt_is_Some_2 (population s) idx Hlt) as [arch Harch].
  rewrite Hy, Harch. cbn. destruct (exceeds y _); by eexists.
Qed.

(** One generation keeps the population at its size and its genes
    well formed. *)
Lemma generation_body_run fuel generation s h t :
  length (population s) = population_size →
  Forall (Forall (is_gene h)) (population s) →
  (population_size - num_parents ≤ fuel)%nat →
  ∃ s' h' t',
    generation_body population_size num_parents fitness fuel generation s
      (State h t) = Ok (s', State h' t') ∧
    length (population s') = population_size ∧
    Forall (Forall (is_gene h')) (population s').
Proof.
  intros Hlen Hg Hfuel. unfold generation_body.
  destruct (evaluate_population_run generation (population s) 0 [] (State h t))
    as (fitnesses & Hev & Hfl).
  rewrite (run_bind _ _ _ _ _ Hev). cbn [app].
  destruct (track_run s fitnesses) as [s1 Hs1].
  { destruct fitnesses; [cbn in Hfl; lia|done]. }
  { done. }
  unfold mbind at 1, M_bind. rewrite Hs1. cbn [lift].
  set (parents := selection (population s) fitnesses num_parents).
  assert (Hpl : length parents = num_parents).
  { unfold parents, selection.
    rewrite length_take, length_fmap, sorted_reverse_perm, length_zip. lia. }
  assert (Hp : Forall (Forall (is_gene h)) parents).
  { apply Forall_forall. intros g Hin%selection_subset.
    rewrite Forall_forall in Hg. by apply Hg. }
  destruct (breed_while_run population_size parents fuel parents h t)
    as (children & h' & t' & Hrun & Hc & _ & Hsub & _ & Hgc); [done|lia|lia|].
  unfold breed. rewrite (run_bind _ _ _ _ _ Hrun).
  eexists _, h', t'. split; [done|]. cbn [population]. split.
  - rewrite length_app. lia.
  - apply Forall_app. split; [by eapply genes_weaken|done].
Qed.

Lemma generation_loop_run fuel generations :
  ∀ s h t,
  length (population s) = population_size →
  Forall (Forall (is_gene h)) (population s) →
  (population_size - num_parents ≤ fuel)%nat →
  ∃ s' σ',
    generation_loop population_size num_parents fitness fuel generations s
      (State h t) = Ok (s', σ') ∧
    length (population s') = population_size.
Proof.
  induction generations as [|g gs IH]; intros s h t Hlen Hg Hfuel.
  { by exists s, (State h t). }
  cbn [generation_loop].
  destruct (generation_body_run fuel g s h t Hlen Hg Hfuel)
    as (s1 & h1 & t1 & Hrun & Hlen1 & Hg1).
  rewrite (run_bind _ _ _ _ _ Hrun). by apply IH.
Qed.
End LoopRuns.

(** ** The initial population and the whole run *)

Section InitialPopulation.
Variable blueprint : Blueprint.
Hypothesis neurons_given : neurons blueprint ≠ [].
Hypothesis activations_given : activations blueprint ≠ [].
Hypothesis dropout_given : dropout blueprint ≠ [].
Hypothesis layers_given : 1 ≤ max_n_layers blueprint.

Lemma random_randint_run a b h t :
  a ≤ b →
  ∃ x t', random_randint a b (State h t) = Ok (x, State h t') ∧ a ≤ x ≤ b.
Proof.
  intros Hab. unfold random_randint.
  destruct (Z.ltb_spec b a) as [?|_]; [lia|].
  destruct (draw_run h t) as (n & t' & Hd).
  rewrite (run_bind _ _ _ _ _ Hd). eexists _, t'. split; [done|].
  pose proof (Z.mod_pos_bound (Z.of_N n) (b - a + 1)). lia.
Qed.

Lemma generate_genome_run n_layers :
  ∀ genome h t,
  Forall (is_gene h) genome →
  ∃ new h' t',
    generate_genome n_layers blueprint genome (State h t)
      = Ok (genome ++ new, State h' t') ∧
    length new = n_layers ∧
    h ⊆ h' ∧
    Forall (is_gene h') (genome ++ new).
Proof.
  induction n_layers as [|n IH]; intros genome h t Hg.
  { exists [], h, t. by rewrite app_nil_r. }
  cbn [generate_genome].
  destruct (random_choice_run (neurons blueprint) h t neurons_given)
    as (v1 & t1 & H1 & _).
  destruct (random_choice_run (activations blueprint) h t1 activations_given)
    as (v2 & t2 & H2 & _).
  destruct (random_choice_run (dropout blueprint) h t2 dropout_given)
    as (v3 & t3 & H3 & _).
  rewrite (run_bind _ _ _ _ _ H1), (run_bind _ _ _ _ _ H2),
    (run_bind _ _ _ _ _ H3), (run_bind _ _ _ _ _ (alloc_run _ h t3)).
  set (c := fresh (dom h)).
  set (d := [("num_neurons", v1); ("activation", v2); ("dropout_rate", v3)]).
  assert (Hsub : h ⊆ <[c:=d]> h) by apply insert_subseteq, fresh_None.
  destruct (IH (genome ++ [c]) (<[c:=d]> h) t3)
    as (new & h' & t' & Hrun & Hlen & Hsub' & Hg').
  { apply Forall_app. split.
    - eapply Forall_impl; [exact Hg|]. intros l. by apply is_gene_weaken.
    - constructor; [|constructor]. exists d. split; [|done].
      apply lookup_insert_eq. }
  exists (c :: new), h', t'. rewrite <- app_assoc in Hrun, Hg'.
  split; [done|]. split; [cbn; by rewrite Hlen|]. split; [by etrans|done].
Qed.

Lemma generate_population_run size :
  ∀ population h t,
  Forall (Forall (is_gene h)) population →
  ∃ new h' t',
    generate_population size blueprint population (State h t)
      = Ok (population ++ new, State h' t') ∧
    length new = size ∧
    Forall (λ g, 1 ≤ Z.of_nat (length g) ≤ max_n_layers blueprint) new ∧
    Forall (Forall (is_gene h')) (population ++ new).
Proof.
  induction size as [|n IH]; intros population h t Hp.
  { exists [], h, t. rewrite app_nil_r. split; [done|]. split; [done|].
    split; [constructor|done]. }
  cbn [generate_population].
  destruct (random_randint_run 1 (max_n_layers blueprint) h t layers_given)
    as (k & t1 & Hk & Hbounds).
  rewrite (run_bind _ _ _ _ _ Hk).
  destruct (generate_genome_run (Z.to_nat k) [] h t1)
    as (g & h1 & t2 & Hg & Hlen & Hsub & Hgenes); [constructor|].
  cbn [app] in Hg, Hgenes. rewrite (run_bind _ _ _ _ _ Hg).
  destruct (IH (population ++ [g]) h1 t2)
    as (new & h' & t' & Hrun & Hlen' & Hsizes & Hall).
  { apply Forall_app. split; [by eapply genes_weaken|].
    by constructor. }
  exists (g :: new), h', t'. rewrite <- app_assoc in Hrun, Hall.
  split; [done|]. split; [cbn; by rewrite Hlen'|]. split; [|done].
  constructor; [lia|done].
Qed.
End InitialPopulation.

(** The whole program: with a blueprint that offers candidates, a fitness
    evaluator that returns, 2 <= num_parents <= population_size and enough
    fuel for the breeding loops, the run ends after any number of
    generations with a population of size population_size and a stored
    best fitness that is the maximum of all observed fitness values. *)
Theorem run_completes
    (population_size num_parents fuel num_generations : nat)
    (fitness : nat → nat → list dict → result Q)
    (blueprint : Blueprint) (σ : state) :
  (∀ generation idx genes, ∃ q, fitness generation idx genes = Ok q) →
  (2 ≤ num_parents ≤ population_size)%nat →
  (population_size - num_parents ≤ fuel)%nat →
  neurons blueprint ≠ [] →
  activations blueprint ≠ [] →
  dropout blueprint ≠ [] →
  1 ≤ max_n_layers blueprint →
  ∃ s σ',
    run population_size num_parents fitness fuel num_generations blueprint σ
      = Ok (s, σ') ∧
    length (population s) = population_size ∧
    length (observed s) = num_generations ∧
    running_maximum s.
Proof.
  intros Hfit Hnp Hfuel Hn Ha Hd Hl. destruct σ as [h t]. unfold run.
  destruct (generate_population_run blueprint Hn Ha Hd Hl
              population_size [] h t)
    as (pop & h0 & t0 & Hrun & Hlen & _ & Hg); [constructor|].
  cbn [app] in Hrun, Hg. unfold generate_initial_population.
  rewrite (run_bind _ _ _ _ _ Hrun).
  destruct (generation_loop_run population_size num_parents fitness Hfit Hnp
              fuel (seq 0 num_generations) (initial pop) h0 t0)
    as (s & σ' & Hloop & Hsize); [done..|].
  exists s, σ'. split; [done|]. split; [done|].
  assert (H0 : running_maximum (initial pop)) by reflexivity.
  destruct (loop_running_maximum _ _ _ _ _ _ _ _ _ H0 Hloop)
    as (Hinv & _ & Hobs).
  rewrite length_seq in Hobs. done.
Qed.

(** * Further properties *)

(** ** The builder: which genomes build, and the shape of the model *)

Section NetShape.

Lemma has_gene_keys_getitem d :
  has_gene_keys d ↔
  ((∃ n, getitem d "num_neurons" = Ok n) ∧
   (∃ a, getitem d "activation" = Ok a) ∧
   (∃ p, getitem d "dropout_rate" = Ok p)).
Proof.
  unfold has_gene_keys. split.
  - intros H. split_and!.
    all: match goal with
         | |- ∃ _, getitem _ ?k = _ =>
             destruct (proj2 (lookup_key_is_Some k d)) as [v Hv];
               [apply H; compute_done|];
               exists v; by apply getitem_Ok
         end.
  - intros ((n & Hn) & (a & Ha) & (p & Hp)) k Hk.
    apply getitem_Ok in Hn, Ha, Hp. apply lookup_key_is_Some.
    unfold gene_keys in Hk. rewrite !elem_of_cons, elem_of_nil in Hk.
    destruct Hk as [->|[->|[->|[]]]]; by eexists.
Qed.

Lemma getitem_outcome d key :
  (∃ v, getitem d key = Ok v) ∨
  ((key ∉ keys d) ∧ getitem d key = Raise (KeyError key)).
Proof.
  unfold getitem. destruct (lookup_key key d) as [v|] eqn:E.
  - left. by exists v.
  - right. split; [by apply lookup_key_None|done].
Qed.

Lemma nn_Linear_raises w n e :
  nn_Linear w n = Raise e → e = TypeError ∨ e = RuntimeError.
Proof.
  unfold nn_Linear. destruct w as [|i| |]; try (intros [= <-]; by left).
  destruct n as [|o| |]; try (intros [= <-]; by left).
  destruct (_ || _); [|done]. intros [= <-]. by right.
Qed.

Lemma nn_Dropout_raises p e :
  nn_Dropout p = Raise e → e = TypeError ∨ e = ValueError.
Proof.
  unfold nn_Dropout. destruct p as [|n|x|]; try (intros [= <-]; by left).
  all: destruct (_ || _); [|done]; intros [= <-]; by right.
Qed.

Lemma dropout_layers_raises p e :
  dropout_layers p = Raise e → e = TypeError ∨ e = ValueError.
Proof.
  unfold dropout_layers. destruct (truthy p); [|done].
  destruct (nn_Dropout p) as [l| |] eqn:E; cbn; [done| |done].
  intros [= <-]. by eapply nn_Dropout_raises.
Qed.

(** A rate that passes [nn.Dropout] is a number between 0 and 1. *)
Lemma nn_Dropout_is_rate p l : nn_Dropout p = Ok l → is_rate p.
Proof.
  unfold nn_Dropout, is_rate. destruct p as [|n|x|]; try done.
  - destruct (Z.ltb_spec n 0); [done|]. destruct (Z.ltb_spec 1 n); [done|].
    intros _. lia.
  - destruct (Qltb x 0) eqn:E0; [done|]. destruct (Qltb 1 x) eqn:E1; [done|].
    intros _. split; by apply Qltb_false.
Qed.

(** The hidden-layer loop returns only on genes that pass every lookup
    and every check. *)
Lemma Net_hidden_buildable genome :
  ∀ layers w out w',
  Net_hidden genome layers w = Ok (out, w') →
  Forall buildable genome ∧ (genome ≠ [] → is_width w).
Proof.
  induction genome as [|gene genome IH]; intros layers w out w' H.
  { split; [constructor|done]. }
  apply Net_hidden_inv in H as (n & a & d & Hn & Ha & Hd & Hl & Hdl & H).
  apply nn_Linear_Ok in Hl as (_ & i & o & -> & -> & Hi & Ho).
  destruct (IH _ _ _ _ H) as [Hall _].
  split; [|intros _; by exists i]. constructor; [|done].
  split; [exists (VInt o); split; [done|by exists o]|].
  split; [by exists a|]. exists d. split; [done|]. intros Ht.
  unfold dropout_layers in Hdl. rewrite Ht in Hdl.
  destruct (nn_Dropout d) as [l| |] eqn:E; [|done..].
  by eapply nn_Dropout_is_rate.
Qed.

(** A KeyError of the loop names one of the three keys, and a gene that
    lacks it. *)
Lemma Net_hidden_KeyError genome :
  ∀ layers w k,
  Net_hidden genome layers w = Raise (KeyError k) →
  k ∈ gene_keys ∧ ∃ gene, gene ∈ genome ∧ k ∉ keys gene.
Proof.
  induction genome as [|gene genome IH]; intros layers w k; [done|].
  cbn [Net_hidden].
  destruct (getitem_outcome gene "num_neurons") as [[n Hn]|[Hn En]].
  2: { rewrite En. intros [= <-]. split; [compute_done|].
       exists gene. split; [by left|done]. }
  rewrite Hn. cbn [mbind result_bind].
  destruct (nn_Linear w n) as [l| |] eqn:Hl; cbn [mbind result_bind];
    [| |done].
  2: { intros [= ->]. by destruct (nn_Linear_raises _ _ _ Hl). }
  destruct (getitem_outcome gene "activation") as [[a Ha]|[Ha Ea]].
  2: { rewrite Ea. intros [= <-]. split; [compute_done|].
       exists gene. split; [by left|done]. }
  rewrite Ha. cbn [mbind result_bind].
  destruct (getitem_outcome gene "dropout_rate") as [[p Hp]|[Hp Ep]].
  2: { rewrite Ep. intros [= <-]. split; [compute_done|].
       exists gene. split; [by left|done]. }
  rewrite Hp. cbn [mbind result_bind].
  destruct (dropout_layers p) as [dl| |] eqn:Hdl; cbn [mbind result_bind];
    [| |done].
  2: { intros [= ->]. by destruct (dropout_layers_raises _ _ Hdl). }
  intros H. destruct (IH _ _ _ H) as (Hk & g & Hg & Hnk).
  split; [done|]. exists g. split; [by right|done].
Qed.

Lemma widths_chain_app w l1 m l2 out :
  widths_chain w l1 m → widths_chain m l2 out → widths_chain w (l1 ++ l2) out.
Proof.
  revert w. induction l1 as [|l l1 IH]; intros w; cbn.
  { by intros ->. }
  destruct l; try apply IH. intros [-> H1] H2. split; [done|]. by apply IH.
Qed.

Lemma linear_outs_app l1 l2 :
  linear_outs (l1 ++ l2) = linear_outs l1 ++ linear_outs l2.
Proof.
  induction l1 as [|l l1 IH]; [done|]. destruct l; cbn; by rewrite ?IH.
Qed.

Lemma dropout_rates_app l1 l2 :
  dropout_rates (l1 ++ l2) = dropout_rates l1 ++ dropout_rates l2.
Proof.
  induction l1 as [|l l1 IH]; [done|]. destruct l; cbn; by rewrite ?IH.
Qed.

Lemma activation_layers_cases a :
  activation_layers a ∈ [[ReLU]; [LeakyReLU]; [Sigmoid]; [Tanh]; []].
Proof.
  unfold activation_layers.
  repeat (destruct (eq_str a _); [rewrite !elem_of_cons; tauto|]).
  rewrite !elem_of_cons. tauto.
Qed.

(** What one gene appends. *)
Lemma gene_layers_shape w n a p :
  let new := Linear w n :: activation_layers a
                         ++ if truthy p then [Dropout p] else [] in
  widths_chain w new n ∧
  linear_outs new = [n] ∧
  dropout_rates new = List.filter truthy [p] ∧
  (1 ≤ length new ≤ 3)%nat.
Proof.
  pose proof (activation_layers_cases a) as Ha.
  rewrite !elem_of_cons, elem_of_nil in Ha.
  cbn [List.filter].
  destruct Ha as [->|[->|[->|[->|[->|[]]]]]]; destruct (truthy p); cbn;
    repeat split; try done; lia.
Qed.

Lemma Net_hidden_shape genome :
  ∀ layers w out w',
  Net_hidden genome layers w = Ok (out, w') →
  ∃ new widths rates,
    out = layers ++ new ∧
    widths_chain w new w' ∧
    linear_outs new = widths ∧
    last (w :: widths) = Some w' ∧
    Forall2 (λ g v, getitem g "num_neurons" = Ok v) genome widths ∧
    Forall2 (λ g p, getitem g "dropout_rate" = Ok p) genome rates ∧
    dropout_rates new = List.filter truthy rates ∧
    (length genome ≤ length new ≤ 3 * length genome)%nat.
Proof.
  induction genome as [|gene genome IH]; intros layers w out w' H.
  { injection H as <- <-. exists [], [], []. rewrite app_nil_r.
    repeat split; try done; constructor. }
  apply Net_hidden_inv in H as (n & a & p & Hn & Ha & Hp & _ & _ & H).
  destruct (IH _ _ _ _ H)
    as (new & widths & rates & -> & Hch & Hw & Hlast & Hws & Hrs & Hdr & Hlen).
  destruct (gene_layers_shape w n a p) as (Hc1 & Ho1 & Hd1 & Hl1).
  cbn zeta in *.
  exists ((Linear w n :: activation_layers a
             ++ if truthy p then [Dropout p] else []) ++ new),
    (n :: widths), (p :: rates).
  split; [by rewrite <- !app_assoc|].
  split; [by eapply widths_chain_app|].
  split; [by rewrite linear_outs_app, Ho1, Hw|].
  split; [exact Hlast|].
  split; [by constructor|]. split; [by constructor|].
  split.
  - rewrite dropout_rates_app, Hd1, Hdr.
    change (p :: rates) with ([p] ++ rates). by rewrite List.filter_app.
  - rewrite length_app. cbn [length] in *. lia.
Qed.

(** What [Net] returns is the result of the loop and the output layer. *)
Lemma Net_init_inv genome D K net :
  Net_init genome D K = Ok net →
  ∃ layers w',
    Net_hidden genome [] (VInt D) = Ok (layers, w') ∧
    nn_Linear w' (VInt K) = Ok (Linear w' (VInt K)) ∧
    network net = layers ++ [Linear w' (VInt K)].
Proof.
  unfold Net_init. intros H.
  apply result_bind_Ok_inv in H as ([layers w'] & Hh & H).
  apply result_bind_Ok_inv in H as (l & Hl & [= <-]).
  pose proof (proj1 (proj1 (nn_Linear_Ok _ _ _) Hl)) as ->.
  by exists layers, w'.
Qed.

End NetShape.

(** X1. [Net] returns a model only for genomes that pass every lookup
    and every check of the constructors: every gene has the keys
    num_neurons, activation and dropout_rate, its width is a non-negative
    integer, its dropout rate counts as false or is a number between 0
    and 1, and D and K are not negative. When [Net] raises KeyError, it is
    for one of the three keys, and some gene of the genome lacks it. *)
Theorem Net_init_builds_only_checked_genes (genome : list dict) (D K : Z) :
  (∀ net, Net_init genome D K = Ok net →
     Forall buildable genome ∧ 0 ≤ D ∧ 0 ≤ K) ∧
  (∀ k, Net_init genome D K = Raise (KeyError k) →
     k ∈ gene_keys ∧ ∃ gene, gene ∈ genome ∧ k ∉ keys gene).
Proof.
  split.
  - intros net H. apply Net_init_inv in H as (layers & w' & Hh & Hl & _).
    apply nn_Linear_Ok in Hl as (_ & i & o & -> & [= <-] & Hi & HK).
    destruct (Net_hidden_buildable _ _ _ _ _ Hh) as [Hall Hw].
    split; [done|]. split; [|done].
    destruct genome as [|gene genome].
    + cbn in Hh. by injection Hh as _ <-.
    + destruct Hw as (n & [= <-] & Hn); done.
  - intros k. unfold Net_init.
    destruct (Net_hidden genome [] (VInt D)) as [[layers w']| |] eqn:Hh;
      cbn [mbind result_bind]; [| |done].
    + destruct (nn_Linear w' (VInt K)) as [l| |] eqn:Hl;
        cbn [mbind result_bind]; [done| |done].
      intros [= ->]. by destruct (nn_Linear_raises _ _ _ Hl).
    + intros [= ->]. by eapply Net_hidden_KeyError.
Qed.

(** X2. In a model that [Net] has built, the fully-connected layers
    chain: the first takes D, each next one takes the width that the one
    before it gives, the last gives K. Their output widths are the genes'
    num_neurons in genome order and then K, so there is one more of them
    than genes; the model has between len + 1 and 3 len + 1 layers. *)
Theorem Net_init_widths_chain (genome : list dict) (D K : Z) (net : Net) :
  Net_init genome D K = Ok net →
  widths_chain (VInt D) (network net) (VInt K) ∧
  (∃ widths,
     Forall2 (λ g v, getitem g "num_neurons" = Ok v) genome widths ∧
     linear_outs (network net) = widths ++ [VInt K]) ∧
  length (linear_outs (network net)) = S (length genome) ∧
  (length genome + 1 ≤ length (network net) ≤ 3 * length genome + 1)%nat.
Proof.
  intros H. apply Net_init_inv in H as (layers & w' & Hh & _ & ->).
  apply Net_hidden_shape in Hh
    as (new & widths & rates & -> & Hch & Hw & _ & Hws & _ & _ & Hlen).
  cbn [app].
  split; [|split; [|split]].
  - eapply widths_chain_app; [exact Hch|]. by cbn.
  - exists widths. split; [done|]. by rewrite linear_outs_app, Hw.
  - rewrite linear_outs_app, Hw, length_app. cbn.
    rewrite <- (Forall2_length _ _ _ Hws). lia.
  - rewrite length_app. cbn. lia.
Qed.

Lemma Net_init_widths_chain_witness :
  widths_chain (VInt 3)
    [Linear (VInt 3) (VInt 8); Linear (VInt 8) (VInt 16); ReLU;
     Dropout (VFloat 0.2); Linear (VInt 16) (VInt 4)] (VInt 4) ∧
  (∃ widths,
     Forall2 (λ g v, getitem g "num_neurons" = Ok v)
       [softmax_gene; relu_gene] widths ∧
     linear_outs
       [Linear (VInt 3) (VInt 8); Linear (VInt 8) (VInt 16); ReLU;
        Dropout (VFloat 0.2); Linear (VInt 16) (VInt 4)]
     = widths ++ [VInt 4]) ∧
  length (linear_outs
       [Linear (VInt 3) (VInt 8); Linear (VInt 8) (VInt 16); ReLU;
        Dropout (VFloat 0.2); Linear (VInt 16) (VInt 4)])
  = S (length [softmax_gene; relu_gene]) ∧
  (length [softmax_gene; relu_gene] + 1
   ≤ length [Linear (VInt 3) (VInt 8); Linear (VInt 8) (VInt 16); ReLU;
             Dropout (VFloat 0.2); Linear (VInt 16) (VInt 4)]
   ≤ 3 * length [softmax_gene; relu_gene] + 1)%nat.
Proof.
  apply (Net_init_widths_chain [softmax_gene; relu_gene] 3 4
           {| network :=
                [Linear (VInt 3) (VInt 8); Linear (VInt 8) (VInt 16); ReLU;
                 Dropout (VFloat 0.2); Linear (VInt 16) (VInt 4)] |}).
  reflexivity.
Defined.

(** X3. The dropout layers of a built model are the genes' dropout rates
    that Python counts as true, in genome order: a rate that is None, 0
    or 0.0 gives no dropout layer, and no dropout layer ever holds such a
    rate. *)
Theorem Net_init_dropout_truthy (genome : list dict) (D K : Z) (net : Net) :
  Net_init genome D K = Ok net →
  (∃ rates,
     Forall2 (λ g p, getitem g "dropout_rate" = Ok p) genome rates ∧
     dropout_rates (network net) = List.filter truthy rates) ∧
  ∀ p, Dropout p ∈ network net →
    truthy p = true ∧ p ≠ VNone ∧ p ≠ VInt 0 ∧ p ≠ VFloat 0.
Proof.
  intros H. apply Net_init_inv in H as (layers & w' & Hh & _ & ->).
  apply Net_hidden_shape in Hh
    as (new & widths & rates & -> & _ & _ & _ & _ & Hrs & Hdr & _).
  cbn [app].
  assert (Hd : dropout_rates (new ++ [Linear w' (VInt K)])
               = List.filter truthy rates).
  { rewrite dropout_rates_app. cbn. by rewrite app_nil_r. }
  split; [by exists rates|].
  intros p Hp.
  assert (Hin : p ∈ dropout_rates (new ++ [Linear w' (VInt K)])).
  { clear -Hp. induction (new ++ [Linear w' (VInt K)]) as [|l ls IH].
    - by apply elem_of_nil in Hp.
    - apply elem_of_cons in Hp as [<-|Hp]; [by left|].
      destruct l; cbn; try (by apply IH). right. by apply IH. }
  rewrite Hd in Hin. apply list_elem_of_In, List.filter_In in Hin as [_ Ht].
  split; [done|]. split_and!; intros ->; done.
Qed.

Lemma Net_init_dropout_truthy_witness :
  (∃ rates,
     Forall2 (λ g p, getitem g "dropout_rate" = Ok p)
       [softmax_gene; relu_gene] rates ∧
     dropout_rates
       [Linear (VInt 3) (VInt 8); Linear (VInt 8) (VInt 16); ReLU;
        Dropout (VFloat 0.2); Linear (VInt 16) (VInt 4)]
     = List.filter truthy rates) ∧
  ∀ p, Dropout p ∈
         [Linear (VInt 3) (VInt 8); Linear (VInt 8) (VInt 16); ReLU;
          Dropout (VFloat 0.2); Linear (VInt 16) (VInt 4)] →
    truthy p = true ∧ p ≠ VNone ∧ p ≠ VInt 0 ∧ p ≠ VFloat 0.
Proof.
  apply (Net_init_dropout_truthy [softmax_gene; relu_gene] 3 4
           {| network :=
                [Linear (VInt 3) (VInt 8); Linear (VInt 8) (VInt 16); ReLU;
                 Dropout (VFloat 0.2); Linear (VInt 16) (VInt 4)] |}).
  reflexivity.
Defined.

(** ** Selection: short inputs, and the best genome of a generation *)

Section SelectionEdges.
Context {A : Type}.
Implicit Types (population : list A) (fitnesses : list Q).

Lemma selection_length population fitnesses n :
  length (selection population fitnesses n)
  = Nat.min n (Nat.min (length fitnesses) (length population)).
Proof.
  unfold selection.
  by rewrite length_take, length_fmap, sorted_reverse_perm, length_zip.
Qed.

(** The head of the sorted pairs is the first pair, in the order of the
    input, that no pair exceeds. *)
Lemma sorted_reverse_head (l : list (Q * A)) y rest :
  sorted_reverse l = y :: rest →
  ∃ i, l !! i = Some y ∧
       (∀ z, z ∈ l → (z.1 <= y.1)%Q) ∧
       (∀ j z, (j < i)%nat → l !! j = Some z → (z.1 < y.1)%Q).
Proof.
  revert y rest. induction l as [|x l IH]; intros y rest; [done|].
  cbn [sorted_reverse foldr]. fold (sorted_reverse l).
  destruct (sorted_reverse l) as [|y0 s] eqn:Es.
  { assert (l = []) as ->.
    { apply Permutation_nil. by rewrite <- (sorted_reverse_perm l), Es. }
    cbn. intros [= <- <-]. exists 0%nat. split; [done|]. split.
    - intros z ->%list_elem_of_singleton. apply Qle_refl.
    - intros j z Hj. lia. }
  destruct (IH y0 s eq_refl) as (i & Hi & Hall & Hbefore).
  cbn [insert_desc]. destruct (Qltb x.1 y0.1) eqn:E.
  - apply Qltb_true in E. intros [= <- <-]. exists (S i).
    split; [done|]. split.
    + intros z [->|Hz]%elem_of_cons; [by apply Qlt_le_weak|by apply Hall].
    + intros [|j] z Hj; cbn.
      * by intros [= <-].
      * apply Hbefore. lia.
  - apply Qltb_false in E. intros [= <- <-]. exists 0%nat.
    split; [done|]. split.
    + intros z [->|Hz]%elem_of_cons; [apply Qle_refl|].
      eapply Qle_trans; [by apply Hall|done].
    + intros j z Hj. lia.
Qed.

Lemma py_index_first x l i :
  py_index x l = Ok i →
  ∀ j y, (j < i)%nat → l !! j = Some y → ¬ (y == x)%Q.
Proof.
  revert i. induction l as [|y0 l IH]; intros i; cbn; [done|].
  destruct (Qeq_bool y0 x) eqn:E.
  { intros [= <-] j y Hj. lia. }
  unfold fmap, result_fmap. destruct (py_index x l) as [i'| |]; [|done..].
  intros [= <-] [|j] y Hj; cbn.
  - intros [= <-] Heq. apply Qeq_bool_iff in Heq. congruence.
  - apply (IH i' eq_refl). lia.
Qed.

Lemma py_index_found x l :
  x ∈ l → ∃ i, py_index x l = Ok i ∧ (i < length l)%nat.
Proof.
  induction l as [|y l IH]; [by intros ?%elem_of_nil|].
  intros Hin. cbn. destruct (Qeq_bool y x) eqn:E.
  { exists 0%nat. split; [done|]. lia. }
  apply elem_of_cons in Hin as [->|Hin].
  { rewrite (proj2 (Qeq_bool_iff y y)) in E by reflexivity. done. }
  destruct (IH Hin) as (i & Hi & Hlt). exists (S i).
  rewrite Hi. split; [done|]. lia.
Qed.
End SelectionEdges.

(** X4. [selection] returns min(num_parents, len(fitnesses),
    len(population)) genomes, all taken from the population: asking for
    none gives the empty list, a fitness list that is too short silently
    drops the genomes it does not reach, and asking for at least as many
    parents as there are scored genomes returns the whole population,
    reordered. *)
Theorem selection_sizes {A : Type}
    (population : list A) (fitnesses : list Q) (num_parents : nat) :
  length (selection population fitnesses num_parents)
  = Nat.min num_parents (Nat.min (length fitnesses) (length population)) ∧
  (∀ x, x ∈ selection population fitnesses num_parents → x ∈ population) ∧
  selection population fitnesses 0 = [] ∧
  ((length population ≤ length fitnesses)%nat →
   (length population ≤ num_parents)%nat →
   selection population fitnesses num_parents ≡ₚ population).
Proof.
  split; [apply selection_length|]. split; [apply selection_subset|].
  split; [done|]. intros Hf Hn. unfold selection.
  rewrite take_ge.
  - rewrite sorted_reverse_perm. by rewrite snd_zip.
  - rewrite length_fmap, sorted_reverse_perm, length_zip. lia.
Qed.

Lemma selection_sizes_witness :
  selection example_population example_fitnesses 5 ≡ₚ example_population.
Proof.
  apply (selection_sizes example_population example_fitnesses 5);
    simpl; lia.
Defined.

(** The sorted pairs start with the genome at the first position of a
    maximal fitness. *)
Lemma sorted_head_is_first_max {A : Type}
    (population : list A) (fitnesses : list Q) :
  length fitnesses = length population →
  population ≠ [] →
  ∃ m idx q best rest,
    py_max fitnesses = Ok m ∧
    py_index m fitnesses = Ok idx ∧
    population !! idx = Some best ∧
    sorted_reverse (zip fitnesses population) = (q, best) :: rest.
Proof.
  intros Hlen Hne.
  destruct (py_max fitnesses) as [m| |] eqn:Hmax;
    [|destruct fitnesses, population; done..].
  destruct (py_max_spec _ _ Hmax) as [Hin Hall].
  destruct (py_index_found m fitnesses Hin) as (idx & Hidx & Hlt).
  destruct (py_index_spec _ _ _ Hidx) as (q & Hq & Heq).
  pose proof (py_index_first _ _ _ Hidx) as Hfirst.
  destruct (sorted_reverse (zip fitnesses population)) as [|y rest] eqn:Es.
  { exfalso. assert (Hz : zip fitnesses population = []).
    { apply Permutation_nil.
      by rewrite <- (sorted_reverse_perm (zip fitnesses population)), Es. }
    destruct fitnesses, population; done. }
  destruct (sorted_reverse_head _ _ _ Es) as (i & Hi & Hmaxz & Hbefore).
  destruct y as [qy best]. apply lookup_zip_Some in Hi as [Hfi Hpi].
  cbn [fst] in *.
  assert (i = idx) as ->.
  { destruct (lt_eq_lt_dec i idx) as [[Hlt' | ->] | Hgt]; [exfalso| done |exfalso].
    - apply (Hfirst i qy Hlt' Hfi). apply Qle_antisym.
      + by apply Hall, list_elem_of_lookup_2 with i.
      + rewrite <- Heq.
        rewrite Hlen in Hlt. apply lookup_lt_is_Some_2 in Hlt as [g Hg].
        apply (Hmaxz (q, g)). apply list_elem_of_lookup.
        exists idx. by apply lookup_zip_Some.
    - assert (Hlt' : (idx < length population)%nat) by (by rewrite <- Hlen).
      apply lookup_lt_is_Some_2 in Hlt' as [g Hg].
      assert (Hz : zip fitnesses population !! idx = Some (q, g))
        by (by apply lookup_zip_Some).
      specialize (Hbefore idx (q, g) Hgt Hz). cbn in Hbefore.
      apply (Qlt_not_le _ _ Hbefore). rewrite Heq.
      by apply Hall, list_elem_of_lookup_2 with i. }
  by exists m, idx, qy, best, rest.
Qed.


(** X5. When the fitness list is aligned with a non-empty population and
    at least one parent is asked for, the first selected parent is the
    genome that the generation loop records as the best of the generation,
    population[fitnesses.index(max(fitnesses))]. *)
Theorem selection_head_is_generation_best {A : Type}
    (population : list A) (fitnesses : list Q) (num_parents : nat) :
  length fitnesses = length population →
  population ≠ [] →
  (1 ≤ num_parents)%nat →
  ∃ m idx best,
    py_max fitnesses = Ok m ∧
    py_index m fitnesses = Ok idx ∧
    py_nth population idx = Ok best ∧
    selection population fitnesses num_parents !! 0%nat = Some best.
Proof.
  intros Hlen Hne Hn.
  destruct (sorted_head_is_first_max population fitnesses Hlen Hne)
    as (m & idx & q & best & rest & Hmax & Hidx & Hbest & Hs).
  exists m, idx, best. split; [done|]. split; [done|]. split.
  - unfold py_nth. by rewrite Hbest.
  - unfold selection. rewrite Hs. destruct num_parents; [lia|done].
Qed.

Lemma selection_head_is_generation_best_witness :
  ∃ m idx best,
    py_max example_fitnesses = Ok m ∧
    py_index m example_fitnesses = Ok idx ∧
    py_nth example_population idx = Ok best ∧
    selection example_population example_fitnesses 2 !! 0%nat = Some best.
Proof.
  apply (selection_head_is_generation_best example_population
           example_fitnesses 2).
  - reflexivity.
  - discriminate.
  - lia.
Defined.

(** ** Crossover: copies and missing keys *)

Section CrossoverEdges.
Implicit Types (h : gmap loc dict) (t : list N) (d : dict).

(** Two dictionaries with the same keys in the same order, none repeated,
    and the same value under each key are equal. *)
Lemma dict_ext d d' :
  keys d' = keys d → NoDup (keys d) →
  (∀ k, k ∈ keys d → lookup_key k d' = lookup_key k d) →
  d' = d.
Proof.
  revert d'. induction d as [|[k v] d IH]; intros [|[k' v'] d']; try done.
  unfold keys. cbn. intros [= -> Hk] [Hnin Hnd]%NoDup_cons Hl.
  pose proof (Hl k (list_elem_of_here _ _)) as Hv. cbn in Hv.
  rewrite String.eqb_refl in Hv. injection Hv as ->.
  f_equal. apply IH; [done..|]. intros k2 Hk2.
  specialize (Hl k2 (list_elem_of_further _ _ _ Hk2)). cbn in Hl.
  destruct (String.eqb_spec k k2) as [->|_]; [done|exact Hl].
Qed.

Lemma crossed_same d d' : NoDup (keys d) → crossed d d d' → d' = d.
Proof.
  intros Hnd [Hk Hv]. apply dict_ext; [done..|]. intros k Hin.
  destruct (Hv k Hin) as (v & Hv' & Hor).
  apply getitem_Ok in Hv'. rewrite Hv'. symmetry.
  destruct Hor as [H|H]; by apply getitem_Ok in H.
Qed.
End CrossoverEdges.

(** X6. Crossing two parents that have the same genes by value (a parent
    with itself, for one) gives a copy: the child has the parents' genes
    by value, held in new pairwise distinct objects, whatever the coin
    flips are. *)
Theorem crossover_of_equal_parents_copies
    (parent1 parent2 : Genome) (σ : state) :
  Forall (is_gene (heap σ)) parent1 →
  Forall (is_gene (heap σ)) parent2 →
  deref (heap σ) parent1 = deref (heap σ) parent2 →
  ∃ child σ',
    crossover parent1 parent2 σ = Ok (child, σ') ∧
    deref (heap σ') child = deref (heap σ) parent1 ∧
    Forall (λ c, c ∉ dom (heap σ)) child ∧
    NoDup child.
Proof.
  destruct σ as [h t]. cbn [heap]. intros H1 H2 Heq.
  destruct (crossover_run parent1 parent2 h t H1 H2)
    as (child & h' & t' & Hrun & _ & Hlen & Hfresh & Hnd & _ & _ & Hall).
  exists child, (State h' t'). split; [done|]. split; [|done]. cbn [heap].
  assert (Hl : length parent1 = length parent2).
  { apply (f_equal length) in Heq. unfold deref in Heq.
    by rewrite !length_fmap in Heq. }
  apply list_eq_Forall2. unfold deref. apply Forall2_fmap.
  assert (Hz : Forall2 (λ c p, h' !!! c = h !!! p.1) child (zip parent1 parent2)).
  { assert (Hvals : Forall (λ p : loc * loc, h !!! p.1 = h !!! p.2)
                      (zip parent1 parent2)).
    { clear -Heq Hl. revert parent2 Heq Hl.
      induction parent1 as [|l1 p1 IH]; intros [|l2 p2]; cbn; try done.
      intros [= Hd Hrest] [= Hl]. constructor; [done|]. by apply IH. }
    pose proof (Forall_zip_genes _ _ _ H1 H2) as Hg.
    clear -Hall Hvals Hg.
    induction Hall as [|c p cs ps (d1 & d2 & d' & Hd1 & Hd2 & Hd' & Hcr) _ IH];
      [constructor|].
    apply Forall_cons in Hvals as [Hv Hvals].
    apply Forall_cons in Hg as [[(e1 & He1 & Hk1) _] Hg].
    constructor; [|by apply IH].
    rewrite (lookup_total_correct _ _ _ Hd1), (lookup_total_correct _ _ _ Hd2) in Hv.
    subst d2. rewrite (lookup_total_correct _ _ _ Hd'),
      (lookup_total_correct _ _ _ Hd1).
    apply crossed_same; [|done].
    assert (e1 = d1) as -> by congruence. rewrite Hk1. apply gene_keys_NoDup. }
  replace parent1 with ((zip parent1 parent2).*1) by (apply fst_zip; lia).
  by apply Forall2_fmap_r.
Qed.

Lemma crossover_of_equal_parents_copies_witness :
  ∃ child σ',
    crossover [0%nat; 1%nat] [0%nat; 1%nat] example_state = Ok (child, σ') ∧
    deref (heap σ') child = deref (heap example_state) [0%nat; 1%nat] ∧
    Forall (λ c, c ∉ dom (heap example_state)) child ∧
    NoDup child.
Proof.
  apply (crossover_of_equal_parents_copies [0%nat; 1%nat] [0%nat; 1%nat]
           example_state).
  - repeat constructor;
      first [ exists softmax_gene; split; reflexivity
            | exists relu_gene; split; reflexivity ].
  - repeat constructor;
      first [ exists softmax_gene; split; reflexivity
            | exists relu_gene; split; reflexivity ].
  - reflexivity.
Defined.

(** X7. [crossover] looks a key of the first parent's gene up in the
    second parent's gene only when the coin picks the second parent. If
    the first key of the first gene pair is missing there and the first
    coin flip picks the second parent, the call raises KeyError for that
    key. *)
Theorem crossover_key_missing_in_second_parent
    (gene1 gene2 : loc) (parent1 parent2 : Genome)
    (h : gmap loc dict) (key : string) (v : value) (d1 d2 : dict)
    (n : N) (t : list N) :
  h !! gene1 = Some ((key, v) :: d1) →
  h !! gene2 = Some d2 →
  key ∉ keys d2 →
  (n mod 2 = 1)%N →
  crossover (gene1 :: parent1) (gene2 :: parent2) (State h (n :: t))
  = Raise (KeyError key).
Proof.
  intros H1 H2 Hk Hn. unfold crossover. cbn [zip zip_with crossover_zip].
  rewrite (run_bind _ _ _ _ _ (alloc_run [] h (n :: t))).
  set (c := fresh (dom h)).
  assert (Hc : h !! c = None) by apply fresh_None.
  assert (Hc1 : c ≠ gene1).
  { intros Heq. rewrite Heq in Hc.
    pose proof (eq_trans (eq_sym Hc) H1). discriminate. }
  assert (Hc2 : c ≠ gene2).
  { intros Heq. rewrite Heq in Hc.
    pose proof (eq_trans (eq_sym Hc) H2). discriminate. }
  assert (Hread : (keys <$> read gene1) (State (<[c:=[]]> h) (n :: t))
                  = Ok (keys ((key, v) :: d1), State (<[c:=[]]> h) (n :: t))).
  { apply (run_fmap (read gene1) keys). unfold read. cbn [heap].
    rewrite lookup_total_insert_ne by done.
    by rewrite (lookup_total_correct _ _ _ H1). }
  rewrite (run_bind _ _ _ _ _ Hread).
  change (keys ((key, v) :: d1)) with (key :: keys d1).
  cbn [crossover_keys].
  assert (Hcoin : random_choice [true; false] (State (<[c:=[]]> h) (n :: t))
                  = Ok (false, State (<[c:=[]]> h) t)).
  { unfold random_choice, draw, mbind, M_bind. cbn [tape heap length].
    change (N.of_nat 2) with 2%N. by rewrite Hn. }
  unfold mbind at 1, M_bind at 1.
  rewrite (run_bind _ _ _ _ _ Hcoin).
  unfold mbind, M_bind, getitem_at. cbn [heap].
  rewrite lookup_total_insert_ne by done.
  rewrite (lookup_total_correct _ _ _ H2). unfold getitem.
  apply lookup_key_None in Hk. by rewrite Hk.
Qed.

Lemma crossover_key_missing_in_second_parent_witness :
  crossover [0%nat] [1%nat]
    (State (<[1%nat := docstring_gene]>
              (<[0%nat := ("dropout_rate", VNone) :: docstring_gene]> ∅))
           [1; 0]%N)
  = Raise (KeyError "dropout_rate").
Proof.
  apply (crossover_key_missing_in_second_parent 0%nat 1%nat [] []
           (<[1%nat := docstring_gene]>
              (<[0%nat := ("dropout_rate", VNone) :: docstring_gene]> ∅))
           "dropout_rate" VNone docstring_gene docstring_gene 1%N [0%N]).
  - reflexivity.
  - reflexivity.
  - compute_done.
  - reflexivity.
Defined.

Section CrossoverOutcome.
Implicit Types (h : gmap loc dict) (t : list N) (d : dict).

Lemma run_bind_raise {A B} (m : M A) (f : A → M B) σ e :
  m σ = Raise e → (m ≫= f) σ = Raise e.
Proof. intros H. unfold mbind, M_bind. by rewrite H. Qed.

(** The loop over the keys ends normally or with the KeyError of a key
    that the second gene lacks. *)
Lemma crossover_keys_outcome g1 g2 c h ks :
  c ≠ g1 → c ≠ g2 →
  Forall (λ k, k ∈ keys (h !!! g1)) ks →
  ∀ dc t,
  (∃ d' t', crossover_keys ks g1 g2 c (State (<[c:=dc]> h) t)
            = Ok ((), State (<[c:=d']> h) t')) ∨
  (∃ k, k ∈ ks ∧ (k ∉ keys (h !!! g2)) ∧
        crossover_keys ks g1 g2 c (State (<[c:=dc]> h) t)
        = Raise (KeyError k)).
Proof.
  intros H1 H2 Hks. induction Hks as [|key ks Hkey _ IH]; intros dc t.
  { left. by exists dc, t. }
  cbn [crossover_keys].
  destruct (random_choice_run [true; false] (<[c:=dc]> h) t)
    as (b & t1 & Hb & _); [done|].
  rewrite (run_bind _ _ _ _ _ Hb).
  assert (Hset : ∀ v, setitem_at c key v (State (<[c:=dc]> h) t1)
                 = Ok ((), State (<[c:=setitem key v dc]> h) t1)).
  { intros v. unfold setitem_at. cbn [heap tape].
    by rewrite lookup_total_insert_eq, insert_insert_eq. }
  assert (Hcont : ∀ v,
    (if b then getitem_at g1 key else getitem_at g2 key)
      (State (<[c:=dc]> h) t1) = Ok (v, State (<[c:=dc]> h) t1) →
    (∃ d' t', ((if b then getitem_at g1 key else getitem_at g2 key) ≫=
               (λ v, setitem_at c key v;; crossover_keys ks g1 g2 c))
                (State (<[c:=dc]> h) t1)
              = Ok ((), State (<[c:=d']> h) t')) ∨
    (∃ k, k ∈ key :: ks ∧ (k ∉ keys (h !!! g2)) ∧
          ((if b then getitem_at g1 key else getitem_at g2 key) ≫=
             (λ v, setitem_at c key v;; crossover_keys ks g1 g2 c))
            (State (<[c:=dc]> h) t1) = Raise (KeyError k))).
  { intros v Hget. rewrite (run_bind _ _ _ _ _ Hget).
    rewrite (run_bind _ _ _ _ _ (Hset v)).
    destruct (IH (setitem key v dc) t1) as [Hok|(k & Hk & Hnk & Hr)];
      [by left|right].
    exists k. split; [by right|done]. }
  destruct b.
  - apply lookup_key_is_Some in Hkey as [v Hv]. apply (Hcont v).
    unfold getitem_at. cbn [heap]. rewrite lookup_total_insert_ne by done.
    unfold getitem. by rewrite Hv.
  - destruct (getitem_outcome (h !!! g2) key) as [[v Hv]|[Hnk Hr]].
    + apply (Hcont v). unfold getitem_at. cbn [heap].
      rewrite lookup_total_insert_ne by done. by rewrite Hv.
    + right. exists key. split; [by left|]. split; [done|].
      unfold mbind, M_bind, getitem_at. cbn [heap].
      rewrite lookup_total_insert_ne by done. by rewrite Hr.
Qed.

Lemma crossover_zip_outcome pairs :
  ∀ child h t,
  Forall (λ p, is_Some (h !! p.1) ∧ is_Some (h !! p.2)) pairs →
  (∃ new h' t', crossover_zip pairs child (State h t)
                = Ok (child ++ new, State h' t') ∧
                length new = length pairs ∧ h ⊆ h') ∨
  (∃ i g1 g2 k,
     pairs !! i = Some (g1, g2) ∧
     k ∈ keys (h !!! g1) ∧ (k ∉ keys (h !!! g2)) ∧
     crossover_zip pairs child (State h t) = Raise (KeyError k)).
Proof.
  induction pairs as [|[g1 g2] pairs IH]; intros child h t Hp.
  { left. exists [], h, t. by rewrite app_nil_r. }
  apply Forall_cons in Hp as [[[d1 Hd1] [d2 Hd2]] Hp]. cbn [fst snd] in *.
  cbn [crossover_zip].
  rewrite (run_bind _ _ _ _ _ (alloc_run [] h t)).
  set (c := fresh (dom h)).
  assert (Hc : h !! c = None) by apply fresh_None.
  assert (Hc1 : c ≠ g1) by (intros ->; congruence).
  assert (Hc2 : c ≠ g2) by (intros ->; congruence).
  assert (Hread : (keys <$> read g1) (State (<[c:=[]]> h) t)
                  = Ok (keys d1, State (<[c:=[]]> h) t)).
  { apply (run_fmap (read g1) keys). unfold read. cbn [heap].
    rewrite lookup_total_insert_ne by done.
    by rewrite (lookup_total_correct _ _ _ Hd1). }
  rewrite (run_bind _ _ _ _ _ Hread).
  destruct (crossover_keys_outcome g1 g2 c h (keys d1) Hc1 Hc2)
    with (dc := @nil (string * value)) (t := t)
    as [(d' & t1 & Hrun)|(k & Hk & Hnk & Hr)].
  { apply Forall_forall. intros k Hk.
    by rewrite (lookup_total_correct _ _ _ Hd1). }
  - rewrite (run_bind _ _ _ _ _ Hrun).
    set (h1 := <[c:=d']> h).
    assert (Hsub : h ⊆ h1) by (by apply insert_subseteq).
    assert (Hsame : ∀ l, is_Some (h !! l) → h1 !!! l = h !!! l).
    { intros l [d Hd]. rewrite (lookup_total_correct _ _ _ Hd).
      apply lookup_total_correct. by eapply lookup_weaken. }
    destruct (IH (child ++ [c]) h1 t1)
      as [(new & h' & t' & Hz & Hlen & Hsub')|(i & e1 & e2 & k & Hi & Hk & Hnk & Hr)].
    { eapply Forall_impl; [exact Hp|]. intros p [[? ?] [? ?]].
      split; eexists; by eapply lookup_weaken. }
    + left. exists (c :: new), h', t'. rewrite Hz, <- app_assoc.
      split; [done|]. split; [cbn; by rewrite Hlen|by etrans].
    + right. exists (S i), e1, e2, k. split; [done|].
      rewrite Forall_forall in Hp.
      destruct (Hp (e1, e2)) as [He1 He2].
      { by eapply list_elem_of_lookup_2. }
      cbn [fst snd] in *. rewrite <- (Hsame e1 He1), <- (Hsame e2 He2).
      done.
  - right. exists 0%nat, g1, g2, k. split; [done|].
    rewrite (lookup_total_correct _ _ _ Hd1). split; [done|]. split; [done|].
    by apply run_bind_raise.
Qed.
End CrossoverOutcome.

(** X8. [crossover] on parents whose genes are objects of the store ends
    in one of two ways: it returns a child of length min(len(parent1),
    len(parent2)) and changes no existing object, or it raises KeyError
    for a key that a gene of parent1 has and the gene of parent2 at the
    same position lacks. It raises nothing else, and keys that only the
    genes of parent2 have are never looked at. *)
Theorem crossover_outcome (parent1 parent2 : Genome) (σ : state) :
  Forall (λ l, is_Some (heap σ !! l)) parent1 →
  Forall (λ l, is_Some (heap σ !! l)) parent2 →
  (∃ child σ',
     crossover parent1 parent2 σ = Ok (child, σ') ∧
     length child = Nat.min (length parent1) (length parent2) ∧
     heap σ ⊆ heap σ') ∨
  (∃ i g1 g2 k,
     parent1 !! i = Some g1 ∧ parent2 !! i = Some g2 ∧
     k ∈ keys (heap σ !!! g1) ∧ (k ∉ keys (heap σ !!! g2)) ∧
     crossover parent1 parent2 σ = Raise (KeyError k)).
Proof.
  destruct σ as [h t]. cbn [heap]. intros H1 H2. unfold crossover.
  destruct (crossover_zip_outcome (zip parent1 parent2) [] h t)
    as [(new & h' & t' & Hz & Hlen & Hsub)|(i & g1 & g2 & k & Hi & Hk & Hnk & Hr)].
  { clear -H1 H2. revert parent2 H2.
    induction H1 as [|l1 p1 Hl1 _ IH]; intros p2 H2; [constructor|].
    destruct H2 as [|l2 p2 Hl2 H2]; cbn; constructor; auto. }
  - left. exists new, (State h' t'). split; [done|].
    rewrite length_zip in Hlen. done.
  - right. apply lookup_zip_Some in Hi as [Hi1 Hi2].
    by exists i, g1, g2, k.
Qed.

Lemma crossover_outcome_witness :
  (∃ child σ',
     crossover [0%nat] [1%nat] example_state = Ok (child, σ') ∧
     length child = Nat.min (length [0%nat]) (length [1%nat]) ∧
     heap example_state ⊆ heap σ') ∨
  (∃ i g1 g2 k,
     [0%nat] !! i = Some g1 ∧ [1%nat] !! i = Some g2 ∧
     k ∈ keys (heap example_state !!! g1) ∧
     (k ∉ keys (heap example_state !!! g2)) ∧
     crossover [0%nat] [1%nat] example_state = Raise (KeyError k)).
Proof.
  apply (crossover_outcome [0%nat] [1%nat] example_state).
  - repeat constructor. by eexists.
  - repeat constructor. by eexists.
Defined.

(** ** Mutation on arbitrary gene dictionaries *)

Section MutateAny.
Implicit Types (h : gmap loc dict) (t : list N) (d : dict).

(** [d'] comes from [d] by mutation: the keys and their order are kept,
    every key other than the three attributes keeps its value, and each
    attribute holds its old value or one of its candidates. *)
Lemma mutate_item_any g h key d t :
  key ∈ keys d →
  ∃ d1 t1,
    mutate_item key g (State (<[g:=d]> h) t)
      = Ok ((), State (<[g:=d1]> h) t1) ∧
    mutated_from d d1.
Proof.
  intros Hkey.
  destruct (mutate_item_run g h key d t Hkey)
    as (d1 & t1 & Hrun & Hk & Hother & Hnew).
  exists d1, t1. split; [done|]. split; [done|].
  intros K. destruct (decide (K = key)) as [->|Hne].
  - destruct (decide (key ∈ gene_keys)) as [Hin|Hnin].
    + split; [done|]. intros v Hv. right.
      destruct (Hnew Hin) as (v' & Hv' & Hc). congruence.
    + assert (d1 = d) as ->.
      { revert Hrun. unfold mutate_item.
        unfold gene_keys in Hnin. rewrite !not_elem_of_cons in Hnin.
        destruct Hnin as (N1 & N2 & N3 & _).
        apply String.eqb_neq in N1, N2, N3. rewrite N1, N2, N3.
        intros [= Heq].
        apply (f_equal (λ m : gmap loc dict, m !! g)) in Heq.
        rewrite !lookup_insert_eq in Heq. congruence. }
      split; [done|]. intros v Hv. by left.
  - rewrite (Hother K Hne). split; [done|]. intros v Hv. by left.
Qed.

Lemma mutated_from_refl d : mutated_from d d.
Proof. split; [done|]. intros K. split; [done|]. intros v Hv. by left. Qed.

Lemma mutated_from_trans d1 d2 d3 :
  mutated_from d1 d2 → mutated_from d2 d3 → mutated_from d1 d3.
Proof.
  intros [Hk1 H1] [Hk2 H2]. split; [congruence|]. intros K.
  destruct (H1 K) as [Ho1 Hv1]. destruct (H2 K) as [Ho2 Hv2]. split.
  - intros HK. by rewrite Ho2, Ho1.
  - intros v Hv. destruct (Hv2 v Hv) as [Hold|Hc]; [|by right].
    by apply Hv1.
Qed.

Lemma mutate_items_any g h ks :
  ∀ d t,
  Forall (λ k, k ∈ keys d) ks →
  ∃ d' t',
    mutate_items ks g (State (<[g:=d]> h) t)
      = Ok ((), State (<[g:=d']> h) t') ∧
    mutated_from d d'.
Proof.
  induction ks as [|key ks IH]; intros d t Hks.
  { exists d, t. split; [done|]. apply mutated_from_refl. }
  apply Forall_cons in Hks as [Hkey Hks]. cbn [mutate_items].
  destruct (mutate_item_any g h key d t Hkey) as (d1 & t1 & Hrun & Hm1).
  rewrite (run_bind _ _ _ _ _ Hrun).
  destruct (IH d1 t1) as (d' & t' & Hrun' & Hm').
  { destruct Hm1 as [Hk1 _]. by rewrite Hk1. }
  exists d', t'. split; [done|]. by eapply mutated_from_trans.
Qed.

Lemma mutate_gene_any rate g h d t :
  h !! g = Some d →
  ∃ d' t',
    mutate_gene rate g (State h t) = Ok ((), State (<[g:=d']> h) t') ∧
    mutated_from d d'.
Proof.
  intros Hd. unfold mutate_gene.
  destruct (random_random_run h t) as (x & t1 & Hx & _).
  rewrite (run_bind _ _ _ _ _ Hx).
  destruct (Qltb x rate).
  - assert (Hread : (keys <$> read g) (State h t1)
                    = Ok (keys d, State h t1)).
    { apply (run_fmap (read g) keys). unfold read. cbn [heap].
      by rewrite (lookup_total_correct _ _ _ Hd). }
    rewrite (run_bind _ _ _ _ _ Hread).
    destruct (mutate_items_any g h (keys d) d t1) as (d' & t' & Hrun & Hm).
    { by apply Forall_forall. }
    rewrite (insert_id h g d Hd) in Hrun. by exists d', t'.
  - exists d, t1. rewrite (insert_id h g d Hd). split; [done|].
    apply mutated_from_refl.
Qed.

Lemma mutate_genes_any rate genes :
  ∀ h t,
  Forall (λ l, is_Some (h !! l)) genes →
  ∃ h' t',
    mutate_genes rate genes (State h t) = Ok ((), State h' t') ∧
    dom h' = dom h ∧
    (∀ l, l ∉ genes → h' !! l = h !! l) ∧
    (∀ l d, h !! l = Some d → ∃ d', h' !! l = Some d' ∧ mutated_from d d').
Proof.
  induction genes as [|g genes IH]; intros h t Hg.
  { exists h, t. split; [done|]. split; [done|]. split; [done|].
    intros l d Hd. exists d. split; [done|]. apply mutated_from_refl. }
  apply Forall_cons in Hg as [[d Hd] Hg]. cbn [mutate_genes].
  destruct (mutate_gene_any rate g h d t Hd) as (d1 & t1 & Hrun & Hm1).
  rewrite (run_bind _ _ _ _ _ Hrun).
  destruct (IH (<[g:=d1]> h) t1) as (h' & t' & Hrun' & Hdom & Hframe & Hloc).
  { eapply Forall_impl; [exact Hg|]. intros l Hl.
    apply lookup_insert_is_Some. destruct (decide (g = l)); auto. }
  exists h', t'. split; [done|]. split; [|split].
  - rewrite Hdom. apply dom_insert_lookup_L. by eexists.
  - intros l [Hne Hl]%not_elem_of_cons.
    rewrite (Hframe l Hl). by rewrite lookup_insert_ne.
  - intros l d0 Hd0. destruct (decide (l = g)) as [->|Hne].
    + assert (d0 = d) as -> by congruence.
      destruct (Hloc g d1) as (d' & Hd' & Hm'); [apply lookup_insert_eq|].
      exists d'. split; [done|]. by eapply mutated_from_trans.
    + apply Hloc. by rewrite lookup_insert_ne.
Qed.

Lemma mutated_from_has_keys d d' :
  mutated_from d d' → (has_gene_keys d' ↔ has_gene_keys d).
Proof. intros [Hk _]. unfold has_gene_keys. by rewrite Hk. Qed.
End MutateAny.

(** X9. [mutate] never raises on a genome whose genes are objects of the
    store, whatever keys they have. It returns the genome it was given;
    every gene keeps its keys in their order (no key is added or removed),
    every key other than the three attributes keeps its value, and each
    attribute holds its old value or a value of its candidate set; objects
    that are not genes of the genome are untouched. So the genes of a
    genome have the three keys after mutation exactly when they had them
    before. *)
Theorem mutate_keeps_keys (genome : Genome) (σ : state) :
  Forall (λ l, is_Some (heap σ !! l)) genome →
  ∃ σ',
    mutate genome σ = Ok (genome, σ') ∧
    dom (heap σ') = dom (heap σ) ∧
    (∀ l, l ∉ genome → heap σ' !! l = heap σ !! l) ∧
    Forall2 mutated_from (deref (heap σ) genome) (deref (heap σ') genome) ∧
    (Forall has_gene_keys (deref (heap σ') genome)
     ↔ Forall has_gene_keys (deref (heap σ) genome)).
Proof.
  destruct σ as [h t]. cbn [heap]. intros Hg.
  destruct (mutate_genes_any 0.1 genome h t Hg)
    as (h' & t' & Hrun & Hdom & Hframe & Hloc).
  exists (State h' t'). unfold mutate, mutate_with.
  rewrite (run_bind _ _ _ _ _ Hrun). split; [done|]. cbn [heap].
  split; [done|]. split; [done|].
  assert (Hall : Forall2 mutated_from (deref h genome) (deref h' genome)).
  { unfold deref. apply Forall2_fmap, Forall_Forall2_diag.
    eapply Forall_impl; [exact Hg|]. intros l [d Hd].
    destruct (Hloc l d Hd) as (d' & Hd' & Hm).
    by rewrite (lookup_total_correct _ _ _ Hd),
      (lookup_total_correct _ _ _ Hd'). }
  split; [done|].
  clear -Hall. induction Hall as [|d d' ds ds' Hm _ IH].
  { done. }
  rewrite !Forall_cons, IH, (mutated_from_has_keys _ _ Hm). done.
Qed.

Lemma mutate_keeps_keys_witness :
  ∃ σ',
    mutate [0%nat; 1%nat] docstring_state = Ok ([0%nat; 1%nat], σ') ∧
    dom (heap σ') = dom (heap docstring_state) ∧
    (∀ l, l ∉ [0%nat; 1%nat] → heap σ' !! l = heap docstring_state !! l) ∧
    Forall2 mutated_from
      (deref (heap docstring_state) [0%nat; 1%nat])
      (deref (heap σ') [0%nat; 1%nat]) ∧
    (Forall has_gene_keys (deref (heap σ') [0%nat; 1%nat])
     ↔ Forall has_gene_keys (deref (heap docstring_state) [0%nat; 1%nat])).
Proof.
  apply (mutate_keeps_keys [0%nat; 1%nat] docstring_state).
  repeat constructor; by eexists.
Defined.

(** ** Breeding: degenerate cases and genome lengths *)

Section BreedEdges.
Implicit Types (h : gmap loc dict) (t : list N) (parents : list Genome).

Lemma make_child_length parents h t :
  Forall (Forall (is_gene h)) parents →
  (2 ≤ length parents)%nat →
  ∃ child h' t' parent1 parent2,
    make_child parents (State h t) = Ok (child, State h' t') ∧
    h ⊆ h' ∧
    parent1 ∈ parents ∧ parent2 ∈ parents ∧
    length child = Nat.min (length parent1) (length parent2).
Proof.
  intros Hp Hlen. unfold make_child.
  destruct (random_sample2_run parents h t Hlen)
    as (i & j & p1 & p2 & t1 & Hs & Hij & Hi & Hj).
  rewrite (run_bind _ _ _ _ _ Hs).
  pose proof (Forall_lookup_1 _ _ _ _ Hp Hi) as Hp1.
  pose proof (Forall_lookup_1 _ _ _ _ Hp Hj) as Hp2.
  destruct (crossover_run p1 p2 h t1 Hp1 Hp2)
    as (c0 & h1 & t2 & Hc & Hsub & Hl & Hfresh & _ & _ & Hg1 & _).
  rewrite (run_bind _ _ _ _ _ Hc).
  destruct (mutate_with_run 0.1 c0 h1 t2 Hg1)
    as (h2 & t3 & Hm & _ & Hframe & _).
  exists c0, h2, t3, p1, p2. split; [exact Hm|]. split.
  { apply map_subseteq_spec. intros l d Hd.
    rewrite Hframe; [by eapply lookup_weaken|].
    intros Hin. rewrite Forall_forall in Hfresh.
    apply (Hfresh l Hin). by apply elem_of_dom. }
  split; [by eapply list_elem_of_lookup_2|].
  split; [by eapply list_elem_of_lookup_2|done].
Qed.

Lemma breed_while_lengths population_size parents fuel :
  ∀ next h t,
  Forall (Forall (is_gene h)) parents →
  (2 ≤ length parents)%nat →
  (population_size - length next ≤ fuel)%nat →
  ∃ children h' t',
    breed_while population_size fuel parents next (State h t)
      = Ok (next ++ children, State h' t') ∧
    Forall (λ c, ∃ parent1 parent2,
              parent1 ∈ parents ∧ parent2 ∈ parents ∧
              length c = Nat.min (length parent1) (length parent2))
      children.
Proof.
  induction fuel as [|fuel IH]; intros next h t Hp Hlen Hfuel;
    cbn [breed_while];
    destruct (Nat.ltb_spec (length next) population_size) as [Hlt|Hge];
    try lia.
  1,3: exists [], h, t; rewrite app_nil_r; split; [done|constructor].
  destruct (make_child_length parents h t Hp Hlen)
    as (child & h1 & t1 & p1 & p2 & Hrun & Hsub & H1 & H2 & Hl).
  rewrite (run_bind _ _ _ _ _ Hrun).
  destruct (IH (next ++ [child]) h1 t1) as (children & h' & t' & Hrun' & Hall).
  { by eapply genes_weaken. }
  { done. }
  { rewrite length_app. cbn. lia. }
  exists (child :: children), h', t'.
  split; [by rewrite Hrun', <- app_assoc|].
  constructor; [by exists p1, p2|done].
Qed.
End BreedEdges.

(** X10. The degenerate cases of the Breed step. When there are already
    population_size parents or more, no child is made and the parents are
    returned as they are, with no random draw, also for a single parent or
    none. When children are needed and there are fewer than two parents,
    [random.sample] raises ValueError. *)
Theorem breed_degenerate_cases
    (population_size fuel : nat) (parents : list Genome) (σ : state) :
  ((population_size ≤ length parents)%nat →
   breed population_size fuel parents σ = Ok (parents, σ)) ∧
  ((length parents < 2)%nat → (length parents < population_size)%nat →
   breed population_size (S fuel) parents σ = Raise ValueError).
Proof.
  split.
  - intros Hle. unfold breed. destruct fuel; cbn [breed_while];
      destruct (Nat.ltb_spec (length parents) population_size); (lia || done).
  - intros H2 Hlt. unfold breed. cbn [breed_while].
    destruct (Nat.ltb_spec (length parents) population_size); [|lia].
    unfold make_child, random_sample2.
    destruct (Nat.ltb_spec (length parents) 2); [|lia]. done.
Qed.

Lemma breed_degenerate_cases_witness :
  breed 2 0 example_population example_state
  = Ok (example_population, example_state) ∧
  breed 3 1 [[0%nat]] example_state = Raise ValueError.
Proof.
  split.
  - apply (proj1 (breed_degenerate_cases 2 0 example_population
                    example_state)).
    simpl. lia.
  - apply (proj2 (breed_degenerate_cases 3 0 [[0%nat]] example_state));
      simpl; lia.
Defined.

(** X11. Every child of the Breed step is as long as the shorter of two
    parents, so breeding never makes a genome longer than its parents: if
    the parents' lengths lie between two bounds, so do the lengths of all
    genomes of the next generation. *)
Theorem breed_child_lengths
    (population_size fuel : nat) (parents : list Genome) (σ : state) :
  Forall (Forall (is_gene (heap σ))) parents →
  (2 ≤ length parents)%nat →
  (population_size - length parents ≤ fuel)%nat →
  ∃ children σ',
    breed population_size fuel parents σ = Ok (parents ++ children, σ') ∧
    Forall (λ c, ∃ parent1 parent2,
              parent1 ∈ parents ∧ parent2 ∈ parents ∧
              length c = Nat.min (length parent1) (length parent2))
      children ∧
    ∀ lo hi,
      Forall (λ p, (lo ≤ length p ≤ hi)%nat) parents →
      Forall (λ g, (lo ≤ length g ≤ hi)%nat) (parents ++ children).
Proof.
  destruct σ as [h t]. cbn [heap]. intros Hp Hlen Hfuel.
  destruct (breed_while_lengths population_size parents fuel parents h t)
    as (children & h' & t' & Hrun & Hall); [done..|].
  exists children, (State h' t'). split; [exact Hrun|]. split; [done|].
  intros lo hi Hb. apply Forall_app. split; [done|].
  eapply Forall_impl; [exact Hall|].
  intros c (p1 & p2 & H1 & H2 & Hl). rewrite Forall_forall in Hb.
  pose proof (Hb p1 H1). pose proof (Hb p2 H2). lia.
Qed.

Lemma breed_child_lengths_witness :
  ∃ children σ',
    breed 4 2 example_population example_state
    = Ok (example_population ++ children, σ') ∧
    Forall (λ c, ∃ parent1 parent2,
              parent1 ∈ example_population ∧ parent2 ∈ example_population ∧
              length c = Nat.min (length parent1) (length parent2))
      children ∧
    ∀ lo hi,
      Forall (λ p, (lo ≤ length p ≤ hi)%nat) example_population →
      Forall (λ g, (lo ≤ length g ≤ hi)%nat) (example_population ++ children).
Proof.
  apply (breed_child_lengths 4 2 example_population example_state).
  - repeat constructor;
      first [ exists softmax_gene; split; reflexivity
            | exists relu_gene; split; reflexivity ].
  - simpl. lia.
  - simpl. lia.
Defined.

(** ** The generation loop: failures and empty populations *)

(** X12. There is no recovery in the generation loop: when the fitness
    evaluation of a genome raises, and the genomes before it in the
    population evaluate, the generation ends with that very exception, and
    so does the loop, before any selection or breeding. *)
Theorem generation_aborts_on_failed_evaluation
    (population_size num_parents fuel generation : nat)
    (fitness : nat → nat → list dict → result Q)
    (generations : list nat) (s : GA) (σ : state)
    (pre post : list Genome) (g : Genome) (e : exn) :
  population s = pre ++ g :: post →
  (∀ i genome, pre !! i = Some genome →
     ∃ q, fitness generation i (deref (heap σ) genome) = Ok q) →
  fitness generation (length pre) (deref (heap σ) g) = Raise e →
  generation_body population_size num_parents fitness fuel generation s σ
  = Raise e ∧
  generation_loop population_size num_parents fitness fuel
    (generation :: generations) s σ = Raise e.
Proof.
  intros Hpop Hpre Hg.
  assert (Hb : generation_body population_size num_parents fitness fuel
                 generation s σ = Raise e).
  { unfold generation_body. apply run_bind_raise. rewrite Hpop.
    by apply evaluate_population_raise. }
  split; [done|]. cbn [generation_loop]. by apply run_bind_raise.
Qed.

Lemma generation_aborts_on_failed_evaluation_witness :
  generation_body 2 2 building_fitness 0 0
    (initial [[0%nat]; [1%nat]]) docstring_state
  = Raise (KeyError "dropout_rate") ∧
  generation_loop 2 2 building_fitness 0 [0; 1]%nat
    (initial [[0%nat]; [1%nat]]) docstring_state
  = Raise (KeyError "dropout_rate").
Proof.
  apply (generation_aborts_on_failed_evaluation 2 2 0 0 building_fitness
           [1%nat] (initial [[0%nat]; [1%nat]]) docstring_state
           [[0%nat]] [] [1%nat] (KeyError "dropout_rate")).
  - reflexivity.
  - intros [|i] genome; [|done]. intros [= <-]. by eexists.
  - reflexivity.
Defined.

(** X13. Empty populations. A generation over an empty population
    raises ValueError: the fitness list is empty and [max] of it fails,
    before any selection or breeding. So does a run with population_size
    0 and at least one generation, whatever the blueprint and the other
    settings are: no random number is drawn and nothing is evaluated. *)
Theorem empty_population_raises
    (population_size num_parents fuel generation num_generations : nat)
    (fitness : nat → nat → list dict → result Q)
    (blueprint : Blueprint) (s : GA) (σ : state) :
  (population s = [] →
   generation_body population_size num_parents fitness fuel generation s σ
   = Raise ValueError) ∧
  run 0 num_parents fitness fuel (S num_generations) blueprint σ
  = Raise ValueError.
Proof.
  split; [|reflexivity].
  intros Hpop. unfold generation_body. rewrite Hpop. reflexivity.
Qed.

Lemma empty_population_raises_witness :
  generation_body 3 2 example_fitness 1 0 (initial []) example_state
  = Raise ValueError ∧
  run 0 2 example_fitness 1 4 blueprint example_state = Raise ValueError.
Proof.
  split.
  - apply (proj1 (empty_population_raises 3 2 1 0 3 example_fitness
                    blueprint (initial []) example_state)).
    reflexivity.
  - apply (proj2 (empty_population_raises 3 2 1 0 3 example_fitness
                    blueprint (initial []) example_state)).
Defined.

(** ** What every generation keeps *)

Section RunInvariant.
Variables population_size num_parents : nat.
Variable fitness : nat → nat → list dict → result Q.
Variables lo hi : nat.

Lemma is_gene_has_keys h l : is_gene h l → has_gene_keys (h !!! l).
Proof.
  intros (d & Hd & Hk). rewrite (lookup_total_correct _ _ _ Hd).
  intros k Hin. by rewrite Hk.
Qed.

Lemma tracked_weaken s h h' :
  h ⊆ h' → best_overall_fitness s ≠ NegInf →
  tracked fitness s h → tracked fitness s h'.
Proof.
  unfold tracked. intros Hsub Hne.
  destruct (best_overall_fitness s) as [|b]; [done|].
  destruct (best_overall_architecture s) as [arch|]; [|done].
  intros [Hg (generation & idx & Hf)]. split.
  - eapply Forall_impl; [exact Hg|]. intros l. by apply is_gene_weaken.
  - exists generation, idx. by rewrite (deref_weaken _ _ _ Hsub Hg).
Qed.

(** One generation keeps the size of the population, the shape of its
    genes, the bounds on the genome lengths and the link between the
    tracker and the store, and only adds objects to the store. *)
Lemma generation_body_invariant fuel generation s h t s' σ' :
  (2 ≤ num_parents ≤ population_size)%nat →
  (population_size - num_parents ≤ fuel)%nat →
  length (population s) = population_size →
  Forall (Forall (is_gene h)) (population s) →
  Forall (λ g, (lo ≤ length g ≤ hi)%nat) (population s) →
  tracked fitness s h →
  generation_body population_size num_parents fitness fuel generation s
    (State h t) = Ok (s', σ') →
  h ⊆ heap σ' ∧
  length (population s') = population_size ∧
  Forall (Forall (is_gene (heap σ'))) (population s') ∧
  Forall (λ g, (lo ≤ length g ≤ hi)%nat) (population s') ∧
  tracked fitness s' (heap σ') ∧
  best_overall_fitness s' ≠ NegInf.
Proof.
  intros Hnp Hfuel Hlen Hg Hb Htrk H.
  apply generation_body_inv in H
    as (fitnesses & σ1 & s1 & next & Hev & Htr & Hbr & Hpop & Hbf & Hba & Hobs).
  apply evaluate_population_spec in Hev
    as (-> & new & Hnew & Hfl & Hfit). cbn [app] in Hnew. subst new.
  cbn [heap] in Hfit.
  set (parents := selection (population s) fitnesses num_parents) in *.
  assert (Hpl : length parents = num_parents).
  { unfold parents, selection.
    rewrite length_take, length_fmap, sorted_reverse_perm, length_zip. lia. }
  assert (Hsubp : ∀ g, g ∈ parents → g ∈ population s).
  { intros g. apply selection_subset. }
  assert (Hp : Forall (Forall (is_gene h)) parents).
  { apply Forall_forall. intros g Hin%Hsubp.
    rewrite Forall_forall in Hg. by apply Hg. }
  assert (Hpb : Forall (λ g, (lo ≤ length g ≤ hi)%nat) parents).
  { apply Forall_forall. intros g Hin%Hsubp.
    rewrite Forall_forall in Hb. by apply Hb. }
  destruct (breed_while_run population_size parents fuel parents h t)
    as (children & h' & t' & Hrun & Hc & _ & Hsub & _ & Hgc); [done|lia|lia|].
  destruct (breed_while_lengths population_size parents fuel parents h t)
    as (children2 & h2 & t2 & Hrun2 & Hall2); [done|lia|lia|].
  rewrite Hrun in Hrun2. injection Hrun2 as Hch _ _.
  apply app_inv_head in Hch. subst children2.
  unfold breed in Hbr. rewrite Hrun in Hbr. injection Hbr as <- <-.
  cbn [heap]. split; [done|]. rewrite Hpop.
  split; [rewrite length_app; lia|].
  split; [apply Forall_app; split; [by eapply genes_weaken|done]|].
  split.
  { apply Forall_app. split; [done|].
    eapply Forall_impl; [exact Hall2|].
    intros c (p1 & p2 & H1 & H2 & Hl). rewrite Forall_forall in Hpb.
    pose proof (Hpb p1 H1). pose proof (Hpb p2 H2). lia. }
  apply track_spec in Htr
    as (m & idx & arch & Hm & _ & Harch & _ & _ & Hcase).
  unfold tracked. rewrite Hbf, Hba.
  destruct (exceeds m (best_overall_fitness s)) eqn:E;
    destruct Hcase as [-> ->].
  - split; [|done]. split.
    + pose proof (Forall_lookup_1 _ _ _ _ Hg Harch) as Ha.
      eapply Forall_impl; [exact Ha|]. intros l. by apply is_gene_weaken.
    + exists generation, idx.
      rewrite (deref_weaken _ _ _ Hsub (Forall_lookup_1 _ _ _ _ Hg Harch)).
      by apply (Hfit idx arch m).
  - assert (Hne : best_overall_fitness s ≠ NegInf).
    { intros Heq. by rewrite Heq in E. }
    split; [|done].
    pose proof (tracked_weaken s h h' Hsub Hne Htrk) as Hw.
    unfold tracked in Hw. destruct (best_overall_fitness s); [done|].
    exact Hw.
Qed.

Lemma generation_loop_invariant fuel generations :
  ∀ s h t s' σ',
  (2 ≤ num_parents ≤ population_size)%nat →
  (population_size - num_parents ≤ fuel)%nat →
  length (population s) = population_size →
  Forall (Forall (is_gene h)) (population s) →
  Forall (λ g, (lo ≤ length g ≤ hi)%nat) (population s) →
  tracked fitness s h →
  generation_loop population_size num_parents fitness fuel generations s
    (State h t) = Ok (s', σ') →
  length (population s') = population_size ∧
  Forall (Forall (is_gene (heap σ'))) (population s') ∧
  Forall (λ g, (lo ≤ length g ≤ hi)%nat) (population s') ∧
  tracked fitness s' (heap σ') ∧
  (generations ≠ [] → best_overall_fitness s' ≠ NegInf).
Proof.
  induction generations as [|g gs IH];
    intros s h t s' σ' Hnp Hfuel Hlen Hg Hb Htrk H.
  { by injection H as <- <-. }
  cbn [generation_loop] in H.
  apply bind_Ok_inv in H as (s1 & [h1 t1] & Hbody & H).
  destruct (generation_body_invariant _ _ _ _ _ _ _ Hnp Hfuel Hlen Hg Hb
              Htrk Hbody) as (_ & Hlen1 & Hg1 & Hb1 & Htrk1 & Hne1).
  cbn [heap] in *.
  destruct (IH _ _ _ _ _ Hnp Hfuel Hlen1 Hg1 Hb1 Htrk1 H)
    as (Hlen' & Hg' & Hb' & Htrk' & Hne').
  repeat (split; [done|]). intros _.
  destruct gs as [|g' gs]; [by injection H as <- <-|].
  by apply Hne'.
Qed.
End RunInvariant.

(** ** The fitness evaluator: every outcome, and the retraining *)

Section FitnessOutcome.
Context {model data target : Type}.
Variable initialise : Net → model.
Variable optimizer_step : model → data * target → model.
Variable loss_item : model → data * target → Q.
Variable predict : model → data → list nat.
Variable argmax : target → list nat.

Lemma train_outcome (train_loader : Loader) epochs epoch m total_loss :
  (∃ total_loss',
     (epochs = 0 ∨ len train_loader ≠ 0)%nat ∧
     train optimizer_step loss_item epochs epoch train_loader m total_loss
     = Ok (foldl optimizer_step m
             (concat (batches train_loader <$> seq epoch epochs)),
           total_loss')) ∨
  ((epochs ≠ 0 ∧ len train_loader = 0)%nat ∧
   train optimizer_step loss_item epochs epoch train_loader m total_loss
   = Raise ZeroDivisionError).
Proof.
  destruct (decide (epochs = 0 ∨ len train_loader ≠ 0)%nat) as [H|H].
  - left.
    destruct (train_spec optimizer_step loss_item train_loader epochs epoch
                m total_loss H) as [l Hl].
    by exists l.
  - right. destruct epochs as [|epochs]; [exfalso; apply H; by left|].
    assert (Hlen : len train_loader = 0%nat).
    { destruct (len train_loader); [done|]. exfalso. apply H. by right. }
    split; [done|]. by apply train_no_batches.
Qed.

(** The two training loops take the same steps and fail alike. *)
Lemma retrain_epochs_train (train_loader : Loader) epochs :
  ∀ epoch m total_loss,
  retrain_epochs optimizer_step loss_item epochs epoch train_loader m
  = fst <$> train optimizer_step loss_item epochs epoch train_loader m
              total_loss.
Proof.
  induction epochs as [|epochs IH]; intros epoch m total_loss; [done|].
  cbn [retrain_epochs train].
  destruct (train_epoch optimizer_step loss_item
              (batches train_loader epoch) m 0%Q) as [m' l].
  destruct (len train_loader =? 0)%nat; [done|]. cbn. apply IH.
Qed.
End FitnessOutcome.

(** X16. [compute_fitness] has four outcomes, in this order of
    precedence: the exception of the builder when the genome does not
    build, before any training; ZeroDivisionError when there is an epoch
    to run and the training provider has length 0; ZeroDivisionError when
    the validation batches hold no sample; else the accuracy correct/total
    of the model trained by one optimizer step per batch of the [epochs]
    passes. *)
Theorem compute_fitness_outcome {model data target : Type}
    (initialise : Net → model)
    (optimizer_step : model → data * target → model)
    (loss_item : model → data * target → Q)
    (predict : model → data → list nat)
    (argmax : target → list nat)
    (genome : list dict) (train_loader : Loader)
    (test_loader : list (data * target)) (epochs : nat) (D K : Z) :
  compute_fitness initialise optimizer_step loss_item predict argmax
    genome train_loader test_loader epochs D K
  = match Net_init genome D K with
    | Raise e => Raise e
    | Timeout => Timeout
    | Ok net =>
        if ((0 <? epochs) && (len train_loader =? 0))%nat
        then Raise ZeroDivisionError
        else
          let trained :=
            foldl optimizer_step (initialise net)
              (passes train_loader epochs) in
          let correct := correct_count predict argmax trained test_loader in
          let total := total_count argmax test_loader in
          if (total =? 0)%nat then Raise ZeroDivisionError
          else Ok (Z.of_nat correct # Pos.of_nat total)%Q
    end.
Proof.
  unfold compute_fitness. destruct (Net_init genome D K) as [net| |]; [|done..].
  match goal with |- _ = ?R => set (rhs := R) end.
  cbn [mbind result_bind].
  destruct (train_outcome optimizer_step loss_item train_loader epochs 0
              (initialise net) 0%Q) as [(l & Hc & ->)|[[He Hl] ->]].
  - cbn. rewrite evaluate_spec. subst rhs.
    assert (((0 <? epochs) && (len train_loader =? 0))%nat = false) as ->.
    { destruct Hc as [->|Hc]; [done|].
      apply Nat.eqb_neq in Hc. rewrite Hc. apply andb_false_r. }
    reflexivity.
  - subst rhs. rewrite Hl. destruct epochs; [done|]. reflexivity.
Qed.

(** X17. The final retraining of the best architecture is the algorithm
    of [compute_fitness] written out again: for the same tensor
    operations, providers and number of epochs, it yields the same
    validation accuracy and raises the same exceptions. *)
Theorem retrain_is_compute_fitness {model data target : Type}
    (initialise : Net → model)
    (optimizer_step : model → data * target → model)
    (loss_item : model → data * target → Q)
    (predict : model → data → list nat)
    (argmax : target → list nat)
    (best_overall_architecture : list dict) (train_loader : Loader)
    (val_loader : list (data * target)) (epochs : nat) (D K : Z) :
  retrain initialise optimizer_step loss_item predict argmax
    best_overall_architecture train_loader val_loader epochs D K
  = compute_fitness initialise optimizer_step loss_item predict argmax
      best_overall_architecture train_loader val_loader epochs D K.
Proof.
  unfold retrain, compute_fitness.
  destruct (Net_init best_overall_architecture D K) as [net| |]; [|done..].
  cbn.
  rewrite (retrain_epochs_train optimizer_step loss_item train_loader epochs
             0 (initialise net) 0%Q).
  destruct (train optimizer_step loss_item epochs 0 train_loader
              (initialise net) 0%Q) as [[m l]| |]; done.
Qed.

(** ** The initial population *)

Section InitialPopulationSpec.
Variable blueprint : Blueprint.
Implicit Types (h : gmap loc dict) (t : list N).

Lemma generate_genome_spec n_layers :
  neurons blueprint ≠ [] →
  activations blueprint ≠ [] →
  dropout blueprint ≠ [] →
  ∀ genome h t,
  ∃ new h' t',
    generate_genome n_layers blueprint genome (State h t)
      = Ok (genome ++ new, State h' t') ∧
    length new = n_layers ∧
    h ⊆ h' ∧
    dom h' = dom h ∪ list_to_set new ∧
    NoDup new ∧
    Forall (λ l, l ∉ dom h) new ∧
    Forall (λ l, ∃ d, h' !! l = Some d ∧ drawn_from blueprint d) new.
Proof.
  intros Hn Ha Hd.
  induction n_layers as [|n IH]; intros genome h t.
  { exists [], h, t. rewrite app_nil_r. split; [done|]. split; [done|].
    split; [done|]. split; [cbn; by rewrite (right_id_L ∅ (∪))|].
    split; [constructor|]. split; constructor. }
  cbn [generate_genome].
  destruct (random_choice_run (neurons blueprint) h t Hn)
    as (v1 & t1 & H1 & Hv1).
  destruct (random_choice_run (activations blueprint) h t1 Ha)
    as (v2 & t2 & H2 & Hv2).
  destruct (random_choice_run (dropout blueprint) h t2 Hd)
    as (v3 & t3 & H3 & Hv3).
  rewrite (run_bind _ _ _ _ _ H1), (run_bind _ _ _ _ _ H2),
    (run_bind _ _ _ _ _ H3), (run_bind _ _ _ _ _ (alloc_run _ h t3)).
  set (c := fresh (dom h)).
  set (d := [("num_neurons", v1); ("activation", v2); ("dropout_rate", v3)]).
  assert (Hc : h !! c = None) by apply fresh_None.
  assert (Hsub : h ⊆ <[c:=d]> h) by (by apply insert_subseteq).
  destruct (IH (genome ++ [c]) (<[c:=d]> h) t3)
    as (new & h' & t' & Hrun & Hlen & Hsub' & Hdom & Hnd & Hfresh & Hall).
  exists (c :: new), h', t'. rewrite <- app_assoc in Hrun.
  assert (Hcn : c ∉ new).
  { intros Hin. rewrite Forall_forall in Hfresh. apply (Hfresh c Hin).
    rewrite dom_insert_L. apply elem_of_union. left.
    by apply elem_of_singleton. }
  split; [done|]. split; [cbn; by rewrite Hlen|]. split; [by etrans|].
  split; [|split; [|split]].
  - rewrite Hdom, dom_insert_L. cbn.
    by rewrite (comm_L (∪) {[c]} (dom h)), (assoc_L (∪)).
  - by constructor.
  - constructor; [by apply not_elem_of_dom|].
    eapply Forall_impl; [exact Hfresh|]. intros l Hl Hin. apply Hl.
    rewrite dom_insert_L. apply elem_of_union. by right.
  - constructor; [|done]. exists d. split.
    + eapply lookup_weaken; [|exact Hsub']. apply lookup_insert_eq.
    + by exists v1, v2, v3.
Qed.

Lemma generate_population_spec size :
  neurons blueprint ≠ [] →
  activations blueprint ≠ [] →
  dropout blueprint ≠ [] →
  1 ≤ max_n_layers blueprint →
  ∀ population h t,
  ∃ new h' t',
    generate_population size blueprint population (State h t)
      = Ok (population ++ new, State h' t') ∧
    length new = size ∧
    h ⊆ h' ∧
    dom h' = dom h ∪ list_to_set (concat new) ∧
    NoDup (concat new) ∧
    Forall (Forall (λ l, l ∉ dom h)) new ∧
    Forall (Forall (λ l, ∃ d, h' !! l = Some d ∧ drawn_from blueprint d))
      new ∧
    Forall (λ g, 1 ≤ Z.of_nat (length g) ≤ max_n_layers blueprint) new.
Proof.
  intros Hn Ha Hd Hl.
  induction size as [|n IH]; intros population h t.
  { exists [], h, t. rewrite app_nil_r. split; [done|]. split; [done|].
    split; [done|]. split; [cbn; by rewrite (right_id_L ∅ (∪))|].
    split; [constructor|]. split; [constructor|]. split; constructor. }
  cbn [generate_population].
  destruct (random_randint_run 1 (max_n_layers blueprint) h t Hl)
    as (k & t1 & Hk & Hbounds).
  rewrite (run_bind _ _ _ _ _ Hk).
  destruct (generate_genome_spec (Z.to_nat k) Hn Ha Hd [] h t1)
    as (g & h1 & t2 & Hg & Hlen & Hsub & Hdom & Hnd & Hfresh & Hall).
  cbn [app] in Hg. rewrite (run_bind _ _ _ _ _ Hg).
  destruct (IH (population ++ [g]) h1 t2)
    as (new & h' & t' & Hrun & Hlen' & Hsub' & Hdom' & Hnd' & Hfresh' & Hall'
        & Hsizes).
  exists (g :: new), h', t'. rewrite <- app_assoc in Hrun.
  split; [done|]. split; [cbn; by rewrite Hlen'|]. split; [by etrans|].
  split; [|split; [|split; [|split]]].
  - rewrite Hdom', Hdom. cbn. rewrite list_to_set_app_L.
    by rewrite (assoc_L (∪)).
  - cbn. apply NoDup_app. split; [done|]. split; [|done].
    intros l Hl1 Hl2.
    apply list_elem_of_In, in_concat in Hl2 as (g' & Hg' & Hl2).
    apply list_elem_of_In in Hg', Hl2.
    rewrite Forall_forall in Hfresh'. specialize (Hfresh' g' Hg').
    rewrite Forall_forall in Hfresh'. apply (Hfresh' l Hl2).
    rewrite Hdom. apply elem_of_union. right. by apply elem_of_list_to_set.
  - constructor; [done|].
    eapply Forall_impl; [exact Hfresh'|]. intros g' Hg'.
    eapply Forall_impl; [exact Hg'|]. intros l Hl' Hin. apply Hl'.
    by eapply subseteq_dom.
  - constructor; [|done].
    eapply Forall_impl; [exact Hall|]. intros l (d & Hd' & Hdr).
    exists d. split; [|done]. by eapply lookup_weaken.
  - constructor; [lia|done].
Qed.
End InitialPopulationSpec.

(** X18. With a blueprint that offers at least one candidate of each
    kind and max_n_layers >= 1, [generate_initial_population] returns
    [size] genomes of 1 to max_n_layers genes. Every gene is a new object
    of its own, shared with no other genome and with nothing that existed
    before, and holds the three keys num_neurons, activation, dropout_rate
    in this order, each with a candidate of the blueprint. Objects that
    existed before are unchanged. *)
Theorem generate_initial_population_spec
    (size : nat) (blueprint : Blueprint) (σ : state) :
  neurons blueprint ≠ [] →
  activations blueprint ≠ [] →
  dropout blueprint ≠ [] →
  1 ≤ max_n_layers blueprint →
  ∃ population σ',
    generate_initial_population size blueprint σ = Ok (population, σ') ∧
    length population = size ∧
    heap σ ⊆ heap σ' ∧
    NoDup (concat population) ∧
    Forall (λ g,
      1 ≤ Z.of_nat (length g) ≤ max_n_layers blueprint ∧
      Forall (λ l, (l ∉ dom (heap σ)) ∧
                   ∃ d, heap σ' !! l = Some d ∧ drawn_from blueprint d) g)
      population.
Proof.
  destruct σ as [h t]. cbn [heap]. intros Hn Ha Hd Hl.
  destruct (generate_population_spec blueprint size Hn Ha Hd Hl [] h t)
    as (new & h' & t' & Hrun & Hlen & Hsub & _ & Hnd & Hfresh & Hall & Hsizes).
  cbn [app] in Hrun. exists new, (State h' t'). split; [done|].
  split; [done|]. split; [done|]. split; [done|]. cbn [heap].
  apply Forall_forall. intros g Hg.
  rewrite Forall_forall in Hsizes, Hfresh, Hall.
  split; [by apply Hsizes|].
  specialize (Hfresh g Hg). specialize (Hall g Hg).
  apply Forall_forall. intros l Hin.
  rewrite Forall_forall in Hfresh, Hall. split; [by apply Hfresh|by apply Hall].
Qed.

Lemma generate_initial_population_spec_witness :
  ∃ population σ',
    generate_initial_population 3 blueprint example_state
      = Ok (population, σ') ∧
    length population = 3%nat ∧
    heap example_state ⊆ heap σ' ∧
    NoDup (concat population) ∧
    Forall (λ g,
      1 ≤ Z.of_nat (length g) ≤ max_n_layers blueprint ∧
      Forall (λ l, (l ∉ dom (heap example_state)) ∧
                   ∃ d, heap σ' !! l = Some d ∧ drawn_from blueprint d) g)
      population.
Proof.
  apply (generate_initial_population_spec 3 blueprint example_state).
  - discriminate.
  - discriminate.
  - discriminate.
  - simpl. lia.
Defined.

(** X19. The edge cases of [generate_initial_population]. For size 0 it
    returns the empty population and draws nothing. For a positive size
    it raises ValueError when max_n_layers is below 1, and IndexError when
    max_n_layers is at least 1 and the list of neuron candidates is
    empty. *)
Theorem generate_initial_population_edges
    (size : nat) (blueprint : Blueprint) (σ : state) :
  generate_initial_population 0 blueprint σ = Ok ([], σ) ∧
  (max_n_layers blueprint < 1 →
   generate_initial_population (S size) blueprint σ = Raise ValueError) ∧
  (1 ≤ max_n_layers blueprint → neurons blueprint = [] →
   generate_initial_population (S size) blueprint σ = Raise IndexError).
Proof.
  split; [done|]. destruct σ as [h t].
  unfold generate_initial_population. cbn [generate_population]. split.
  - intros Hlt. apply run_bind_raise. unfold random_randint.
    destruct (Z.ltb_spec (max_n_layers blueprint) 1); [done|lia].
  - intros Hl Hn.
    destruct (random_randint_run 1 (max_n_layers blueprint) h t Hl)
      as (k & t1 & Hk & Hb).
    rewrite (run_bind _ _ _ _ _ Hk). apply run_bind_raise.
    destruct (Z.to_nat k) as [|n] eqn:Ek; [lia|].
    cbn [generate_genome]. apply run_bind_raise.
    unfold random_choice. destruct (draw_run h t1) as (d & t2 & Hd).
    rewrite (run_bind _ _ _ _ _ Hd). by rewrite Hn.
Qed.

Lemma generate_initial_population_edges_witness :
  generate_initial_population 2
    {| max_n_layers := 0; neurons := [VInt 4];
       activations := [VStr "relu"]; dropout := [VNone] |} example_state
  = Raise ValueError ∧
  generate_initial_population 2
    {| max_n_layers := 5; neurons := [];
       activations := [VStr "relu"]; dropout := [VNone] |} example_state
  = Raise IndexError.
Proof.
  split.
  - apply (generate_initial_population_edges 1
             {| max_n_layers := 0; neurons := [VInt 4];
                activations := [VStr "relu"]; dropout := [VNone] |}
             example_state).
    simpl. lia.
  - apply (generate_initial_population_edges 1
             {| max_n_layers := 5; neurons := [];
                activations := [VStr "relu"]; dropout := [VNone] |}
             example_state).
    + simpl. lia.
    + reflexivity.
Defined.

(** ** Survivors of a generation *)

Section Survivors.
Implicit Types (h : gmap loc dict) (t : list N) (parents : list Genome).

(** When the Breed loop returns, its result starts with the list it was
    given, and the store has only grown. *)
Lemma breed_while_frame population_size parents fuel :
  ∀ next h t r σ',
  Forall (Forall (is_gene h)) parents →
  breed_while population_size fuel parents next (State h t) = Ok (r, σ') →
  next `prefix_of` r ∧ h ⊆ heap σ'.
Proof.
  induction fuel as [|fuel IH]; intros next h t r σ' Hp H;
    cbn [breed_while] in H;
    destruct (Nat.ltb_spec (length next) population_size) as [Hlt|Hge].
  - done.
  - by injection H as <- <-.
  - destruct (Nat.lt_ge_cases (length parents) 2) as [Hshort|Hlen].
    { exfalso. revert H. unfold make_child, random_sample2.
      destruct (Nat.ltb_spec (length parents) 2); [|lia]. done. }
    destruct (make_child_run parents h t Hp Hlen)
      as (child & h1 & t1 & Hrun & _ & Hsub & _ & _).
    rewrite (run_bind _ _ _ _ _ Hrun) in H.
    destruct (IH _ _ _ _ _ (genes_weaken _ _ _ Hsub Hp) H) as [Hpre Hsub'].
    split; [|by etrans].
    etrans; [|exact Hpre]. by apply prefix_app_r.
  - by injection H as <- <-.
Qed.
End Survivors.

(** X20. Elitism. When a generation returns, with num_parents >= 1 and
    a population of well-formed genes, the next population starts with
    the selected parents in selection order, and its first genome is the
    genome at position fitnesses.index(max(fitnesses)) of the old
    population, the one the tracker looks at. The genes of every
    survivor have the values they had before the generation: breeding
    assigns to the children's genes only. *)
Theorem generation_keeps_its_best
    (population_size num_parents fuel generation : nat)
    (fitness : nat → nat → list dict → result Q)
    (s s' : GA) (σ σ' : state) :
  (1 ≤ num_parents)%nat →
  Forall (Forall (is_gene (heap σ))) (population s) →
  generation_body population_size num_parents fitness fuel generation s σ
    = Ok (s', σ') →
  ∃ fitnesses m idx best,
    observed s' = observed s ++ [fitnesses] ∧
    py_max fitnesses = Ok m ∧
    py_index m fitnesses = Ok idx ∧
    population s !! idx = Some best ∧
    population s' !! 0%nat = Some best ∧
    selection (population s) fitnesses num_parents `prefix_of` population s' ∧
    ∀ survivor,
      survivor ∈ selection (population s) fitnesses num_parents →
      deref (heap σ') survivor = deref (heap σ) survivor.
Proof.
  intros Hn Hg H. destruct σ as [h t]. cbn [heap] in *.
  apply generation_body_inv in H
    as (fitnesses & σ1 & s1 & next & Hev & Htr & Hbr & Hpop & _ & _ & Hobs).
  apply evaluate_population_spec in Hev as (-> & new & Hnew & Hfl & _).
  cbn [app] in Hnew. subst new.
  apply track_spec in Htr as (_ & i0 & arch & _ & _ & Harch & Hobs1 & _).
  assert (Hne : population s ≠ []).
  { intros Heq. by rewrite Heq in Harch. }
  destruct (sorted_head_is_first_max (population s) fitnesses Hfl Hne)
    as (m & idx & q & best & rest & Hmax & Hidx & Hbest & Hs).
  set (parents := selection (population s) fitnesses num_parents) in *.
  assert (Hhead : parents !! 0%nat = Some best).
  { unfold parents, selection. rewrite Hs. destruct num_parents; [lia|done]. }
  assert (Hp : Forall (Forall (is_gene h)) parents).
  { apply Forall_forall. intros g Hin%selection_subset.
    rewrite Forall_forall in Hg. by apply Hg. }
  unfold breed in Hbr.
  destruct (breed_while_frame _ _ _ _ _ _ _ _ Hp Hbr) as [[k Hk] Hsub].
  exists fitnesses, m, idx, best. rewrite Hobs, Hobs1, Hpop.
  split; [done|]. split; [done|]. split; [done|]. split; [done|].
  split; [|split].
  - rewrite Hk. apply lookup_app_l_Some. exact Hhead.
  - by exists k.
  - intros g Hin. apply deref_weaken; [done|].
    rewrite Forall_forall in Hp. by apply Hp.
Qed.

Lemma generation_keeps_its_best_witness :
  ∃ fitnesses m idx best,
    observed example_GA_1 = observed (initial example_population)
                              ++ [fitnesses] ∧
    py_max fitnesses = Ok m ∧
    py_index m fitnesses = Ok idx ∧
    population (initial example_population) !! idx = Some best ∧
    population example_GA_1 !! 0%nat = Some best ∧
    selection (population (initial example_population)) fitnesses 2
      `prefix_of` population example_GA_1 ∧
    ∀ survivor,
      survivor ∈ selection (population (initial example_population))
                   fitnesses 2 →
      deref (heap example_state_1) survivor
      = deref (heap example_state) survivor.
Proof.
  apply (generation_keeps_its_best 3 2 1 0 example_fitness
           (initial example_population) example_GA_1
           example_state example_state_1).
  - lia.
  - repeat constructor;
      first [ exists softmax_gene; split; reflexivity
            | exists relu_gene; split; reflexivity ].
  - vm_compute. reflexivity.
Defined.

(** ** How much a run evaluates *)

Section Evaluations.
Variables population_size num_parents : nat.
Variable fitness : nat → nat → list dict → result Q.

(** When the Breed loop returns from a list that is not longer than
    population_size, its result has population_size genomes. *)
Lemma breed_while_size parents fuel :
  ∀ next σ r σ',
  (length next ≤ population_size)%nat →
  breed_while population_size fuel parents next σ = Ok (r, σ') →
  length r = population_size.
Proof.
  induction fuel as [|fuel IH]; intros next σ r σ' Hle H;
    cbn [breed_while] in H;
    destruct (Nat.ltb_spec (length next) population_size) as [Hlt|Hge].
  - done.
  - injection H as <- <-. lia.
  - apply bind_Ok_inv in H as (child & σ1 & _ & H).
    apply (IH _ _ _ _) in H; [done|]. rewrite length_app. cbn. lia.
  - injection H as <- <-. lia.
Qed.

(** One generation evaluates every genome of its population once, and
    leaves a population of population_size genomes. *)
Lemma generation_body_evaluations fuel generation s σ s' σ' :
  (num_parents ≤ population_size)%nat →
  generation_body population_size num_parents fitness fuel generation s σ
    = Ok (s', σ') →
  length (population s') = population_size ∧
  ∃ fitnesses,
    observed s' = observed s ++ [fitnesses] ∧
    length fitnesses = length (population s).
Proof.
  intros Hnp H. apply generation_body_inv in H
    as (fitnesses & σ1 & s1 & next & Hev & Htr & Hbr & Hpop & _ & _ & Hobs).
  apply evaluate_population_spec in Hev as (_ & new & Hnew & Hfl & _).
  cbn [app] in Hnew. subst new.
  apply track_spec in Htr as (_ & _ & _ & _ & _ & _ & Hobs1 & _).
  split.
  - rewrite Hpop. unfold breed in Hbr.
    apply breed_while_size in Hbr; [done|].
    unfold selection. rewrite length_take. lia.
  - exists fitnesses. by rewrite Hobs, Hobs1.
Qed.

Lemma generation_loop_evaluations fuel generations :
  ∀ s σ s' σ',
  (num_parents ≤ population_size)%nat →
  length (population s) = population_size →
  generation_loop population_size num_parents fitness fuel generations s σ
    = Ok (s', σ') →
  length (population s') = population_size ∧
  ∃ new,
    observed s' = observed s ++ new ∧
    length new = length generations ∧
    Forall (λ fitnesses, length fitnesses = population_size) new.
Proof.
  induction generations as [|g gs IH]; intros s σ s' σ' Hnp Hlen H.
  { injection H as <- <-. split; [done|]. exists []. by rewrite app_nil_r. }
  cbn [generation_loop] in H.
  apply bind_Ok_inv in H as (s1 & σ1 & Hbody & H).
  destruct (generation_body_evaluations _ _ _ _ _ _ Hnp Hbody)
    as (Hlen1 & fitnesses & Hobs1 & Hfl).
  destruct (IH _ _ _ _ Hnp Hlen1 H) as (Hlen' & new & Hobs' & Hn & Hall).
  split; [done|]. exists (fitnesses :: new).
  split; [by rewrite Hobs', Hobs1, <- app_assoc|].
  split; [cbn; by rewrite Hn|]. constructor; [congruence|done].
Qed.

Lemma length_concat_uniform {A} (ls : list (list A)) n :
  Forall (λ l, length l = n) ls → length (concat ls) = (length ls * n)%nat.
Proof.
  induction 1 as [|l ls Hl _ IH]; [done|].
  cbn. rewrite length_app, IH, Hl. done.
Qed.
End Evaluations.

(** X21. Nothing is cached from one generation to the next. When the
    loop returns after n generations, started with population_size
    genomes and num_parents <= population_size, every generation g had a
    population of population_size genomes, and its fitness list, the one
    the evaluation loop computed and the run logged, holds for each of
    them, whatever its position and also for a parent carried over from
    the generation before, the value that the evaluator returned for it
    in the call of generation g: n * population_size values in all, none
    taken over from an earlier generation. *)
Theorem loop_evaluates_whole_population
    (population_size num_parents fuel n : nat)
    (fitness : nat → nat → list dict → result Q)
    (population0 : list Genome) (σ0 σ : state) (s : GA) :
  (num_parents ≤ population_size)%nat →
  length population0 = population_size →
  generation_loop population_size num_parents fitness fuel (seq 0 n)
    (initial population0) σ0 = Ok (s, σ) →
  length (concat (observed s)) = (n * population_size)%nat ∧
  ∀ g, (g < n)%nat →
    ∃ s_g σ_g fitnesses,
      generation_loop population_size num_parents fitness fuel (seq 0 g)
        (initial population0) σ0 = Ok (s_g, σ_g) ∧
      length (population s_g) = population_size ∧
      evaluate_population fitness g 0 (population s_g) [] σ_g
        = Ok (fitnesses, σ_g) ∧
      observed s !! g = Some fitnesses ∧
      length fitnesses = population_size ∧
      ∀ i genome,
        population s_g !! i = Some genome →
        ∃ q, fitnesses !! i = Some q ∧
             fitness g i (deref (heap σ_g) genome) = Ok q.
Proof.
  intros Hnp Hlen H.
  destruct (loop_observed_evaluations _ _ _ _ _ _ _ _ _ H) as [Hn Hobs].
  split.
  { apply generation_loop_evaluations in H
      as (_ & new & Ho & Hln & Hall); [|done..].
    cbn in Ho. subst new. rewrite length_seq in Hln.
    by rewrite (length_concat_uniform _ _ Hall), Hln. }
  intros g Hg.
  destruct (lookup_lt_is_Some_2 (observed s) g) as [fitnesses Hf]; [lia|].
  destruct (Hobs g fitnesses Hf) as (s_g & σ_g & Hl & Hev).
  assert (Hsize : length (population s_g) = population_size).
  { by apply generation_loop_evaluations in Hl as [? _]. }
  destruct (evaluate_population_spec fitness _ _ _ _ _ _ _ Hev)
    as (_ & new & Hnew & Hfl & Hfit).
  cbn [app] in Hnew. subst new.
  exists s_g, σ_g, fitnesses. repeat (split; [done|]).
  split; [congruence|]. intros i genome Hi.
  destruct (lookup_lt_is_Some_2 fitnesses i) as [q Hq].
  { rewrite Hfl. by eapply lookup_lt_Some. }
  exists q. split; [done|]. by apply (Hfit i genome q).
Qed.

Lemma loop_evaluates_whole_population_witness :
  length (concat (observed example_GA_1)) = (1 * 3)%nat ∧
  ∀ g, (g < 1)%nat →
    ∃ s_g σ_g fitnesses,
      generation_loop 3 2 example_fitness 1 (seq 0 g)
        (initial example_population) example_state = Ok (s_g, σ_g) ∧
      length (population s_g) = 3%nat ∧
      evaluate_population example_fitness g 0 (population s_g) [] σ_g
        = Ok (fitnesses, σ_g) ∧
      observed example_GA_1 !! g = Some fitnesses ∧
      length fitnesses = 3%nat ∧
      ∀ i genome,
        population s_g !! i = Some genome →
        ∃ q, fitnesses !! i = Some q ∧
             example_fitness g i (deref (heap σ_g) genome) = Ok q.
Proof.
  apply (loop_evaluates_whole_population 3 2 1 1 example_fitness
           example_population example_state example_state_1 example_GA_1).
  - lia.
  - reflexivity.
  - vm_compute. reflexivity.
Defined.

(** ** The search space of a run *)

Section SearchSpace.
Variable blueprint : Blueprint.
Implicit Types (h : gmap loc dict) (t : list N) (d : dict).

Local Abbreviation good := (gene_within blueprint).

Lemma drawn_within d : drawn_from blueprint d → within blueprint d.
Proof.
  intros (n & a & p & -> & Hn & Ha & Hp).
  split; [|split]; eexists; (split; [reflexivity|by left]).
Qed.

Lemma resampled_within d : resampled d → within blueprint d.
Proof.
  intros ((n & Hn & Hin) & (a & Ha & Hia) & (p & Hp & Hip)).
  split; [|split]; eexists; (split; [eassumption|by right]).
Qed.

(** A gene made by [crossover] of two genes of the search space is in
    the search space. *)
Lemma crossed_within d1 d2 d' :
  keys d1 ≡ₚ gene_keys →
  within blueprint d1 → within blueprint d2 → crossed d1 d2 d' →
  within blueprint d'.
Proof.
  intros Hk ((n1 & Hn1 & Hin1) & (a1 & Ha1 & Hia1) & (p1 & Hp1 & Hip1))
    ((n2 & Hn2 & Hin2) & (a2 & Ha2 & Hia2) & (p2 & Hp2 & Hip2)) [_ Hc].
  assert (Hkeys : ∀ k, k ∈ gene_keys → k ∈ keys d1).
  { intros k Hin. by rewrite Hk. }
  split; [|split].
  - destruct (Hc "num_neurons") as (v & Hv & [H1|H2]).
    { apply Hkeys. by left. }
    + exists v. split; [done|]. by assert (v = n1) as -> by congruence.
    + exists v. split; [done|]. by assert (v = n2) as -> by congruence.
  - destruct (Hc "activation") as (v & Hv & [H1|H2]).
    { apply Hkeys. right. by left. }
    + exists v. split; [done|]. by assert (v = a1) as -> by congruence.
    + exists v. split; [done|]. by assert (v = a2) as -> by congruence.
  - destruct (Hc "dropout_rate") as (v & Hv & [H1|H2]).
    { apply Hkeys. right. right. by left. }
    + exists v. split; [done|]. by assert (v = p1) as -> by congruence.
    + exists v. split; [done|]. by assert (v = p2) as -> by congruence.
Qed.

Lemma good_is_gene h l : good h l → is_gene h l.
Proof. intros (d & Hd & Hk & _). by exists d. Qed.

Lemma good_weaken h h' l : h ⊆ h' → good h l → good h' l.
Proof.
  intros Hsub (d & Hd & Hw). exists d. split; [|done].
  by eapply lookup_weaken.
Qed.

Lemma goods_weaken h h' (gs : list Genome) :
  h ⊆ h' → Forall (Forall (good h)) gs → Forall (Forall (good h')) gs.
Proof.
  intros Hsub Hgs. eapply Forall_impl; [exact Hgs|]. intros g Hg.
  eapply Forall_impl; [exact Hg|]. intros l. by apply good_weaken.
Qed.

Lemma goods_are_genes h (gs : list Genome) :
  Forall (Forall (good h)) gs → Forall (Forall (is_gene h)) gs.
Proof.
  intros Hgs. eapply Forall_impl; [exact Hgs|]. intros g Hg.
  eapply Forall_impl; [exact Hg|]. intros l. apply good_is_gene.
Qed.

(** A child of two genomes of the search space is in the search space. *)
Lemma make_child_within (parents : list Genome) h t :
  Forall (Forall (good h)) parents →
  (2 ≤ length parents)%nat →
  ∃ child h' t',
    make_child parents (State h t) = Ok (child, State h' t') ∧
    h ⊆ h' ∧
    Forall (good h') child.
Proof.
  intros Hp Hlen. unfold make_child.
  destruct (random_sample2_run parents h t Hlen)
    as (i & j & p1 & p2 & t1 & Hs & Hij & Hi & Hj).
  rewrite (run_bind _ _ _ _ _ Hs).
  pose proof (Forall_lookup_1 _ _ _ _ Hp Hi) as Hp1.
  pose proof (Forall_lookup_1 _ _ _ _ Hp Hj) as Hp2.
  assert (Hg1 : Forall (is_gene h) p1).
  { eapply Forall_impl; [exact Hp1|]. intros l. apply good_is_gene. }
  assert (Hg2 : Forall (is_gene h) p2).
  { eapply Forall_impl; [exact Hp2|]. intros l. apply good_is_gene. }
  destruct (crossover_run p1 p2 h t1 Hg1 Hg2)
    as (c0 & h1 & t2 & Hc & Hsub & _ & Hfresh & _ & _ & Hgc & Hall).
  rewrite (run_bind _ _ _ _ _ Hc).
  assert (Hc0 : Forall (good h1) c0).
  { apply Forall_forall. intros c Hin.
    apply list_elem_of_lookup_1 in Hin as [k Hk].
    destruct (Forall2_lookup_l _ _ _ _ _ Hall Hk)
      as ([l1 l2] & Hz & d1 & d2 & d' & Hd1 & Hd2 & Hd' & Hcr).
    apply lookup_zip_Some in Hz as [Hl1 Hl2]. cbn in *.
    destruct (Forall_lookup_1 _ _ _ _ Hp1 Hl1) as (e1 & He1 & Hk1 & Hw1).
    destruct (Forall_lookup_1 _ _ _ _ Hp2 Hl2) as (e2 & He2 & _ & Hw2).
    assert (e1 = d1) as -> by congruence.
    assert (e2 = d2) as -> by congruence.
    exists d'. split; [done|]. split.
    - destruct Hcr as [-> _]. done.
    - by eapply crossed_within. }
  destruct (mutate_genes_run 0.1 c0 h1 t2 Hgc)
    as (h2 & t3 & Hm & _ & Hframe & Hloc & _).
  unfold mutate, mutate_with. rewrite (run_bind _ _ _ _ _ Hm).
  exists c0, h2, t3. split; [done|]. split.
  - apply map_subseteq_spec. intros l d Hd.
    rewrite Hframe; [by eapply lookup_weaken|].
    intros Hin. rewrite Forall_forall in Hfresh.
    apply (Hfresh l Hin). by apply elem_of_dom.
  - eapply Forall_impl; [exact Hc0|]. intros l (d & Hd & Hk & Hw).
    destruct (Hloc l d Hd) as (d' & Hd' & Hk' & Hcase).
    exists d'. split; [done|]. split; [by rewrite Hk'|].
    destruct Hcase as [->|[_ Hr]]; [done|by apply resampled_within].
Qed.

Lemma breed_while_within population_size (parents : list Genome) fuel :
  ∀ (next : list Genome) h t r σ',
  Forall (Forall (good h)) parents →
  Forall (Forall (good h)) next →
  breed_while population_size fuel parents next (State h t) = Ok (r, σ') →
  Forall (Forall (good (heap σ'))) r.
Proof.
  induction fuel as [|fuel IH]; intros next h t r σ' Hp Hn H;
    cbn [breed_while] in H;
    destruct (Nat.ltb_spec (length next) population_size) as [Hlt|Hge].
  - done.
  - by injection H as <- <-.
  - destruct (Nat.lt_ge_cases (length parents) 2) as [Hshort|Hlen].
    { exfalso. revert H. unfold make_child, random_sample2.
      destruct (Nat.ltb_spec (length parents) 2); [|lia]. done. }
    destruct (make_child_within parents h t Hp Hlen)
      as (child & h1 & t1 & Hrun & Hsub & Hc).
    rewrite (run_bind _ _ _ _ _ Hrun) in H.
    apply (IH _ _ _ _ _) in H; [done|by eapply goods_weaken|].
    apply Forall_app. split; [by eapply goods_weaken|by constructor].
  - by injection H as <- <-.
Qed.

Section Loop.
Variables population_size num_parents : nat.
Variable fitness : nat → nat → list dict → result Q.

Lemma generation_body_within fuel generation s σ s' σ' :
  Forall (Forall (good (heap σ))) (population s) →
  generation_body population_size num_parents fitness fuel generation s σ
    = Ok (s', σ') →
  Forall (Forall (good (heap σ'))) (population s').
Proof.
  intros Hg H. destruct σ as [h t]. cbn [heap] in Hg.
  apply generation_body_inv in H
    as (fitnesses & σ1 & s1 & next & Hev & _ & Hbr & -> & _).
  apply evaluate_population_spec in Hev as (-> & _).
  unfold breed in Hbr.
  assert (Hp : Forall (Forall (good h))
                 (selection (population s) fitnesses num_parents)).
  { apply Forall_forall. intros g Hin%selection_subset.
    rewrite Forall_forall in Hg. by apply Hg. }
  by eapply breed_while_within.
Qed.

Lemma generation_loop_within fuel generations :
  ∀ s σ s' σ',
  Forall (Forall (good (heap σ))) (population s) →
  generation_loop population_size num_parents fitness fuel generations s σ
    = Ok (s', σ') →
  Forall (Forall (good (heap σ'))) (population s').
Proof.
  induction generations as [|g gs IH]; intros s σ s' σ' Hg H.
  { by injection H as <- <-. }
  cbn [generation_loop] in H.
  apply bind_Ok_inv in H as (s1 & σ1 & Hbody & H).
  eapply IH; [|exact H]. by eapply generation_body_within.
Qed.
End Loop.
End SearchSpace.

(** X22. The search space of a run. In a run that meets the conditions
    under which the loop is entered safely, every gene of the final
    population, after any number of generations, holds under each of its
    three keys a candidate of the blueprint or one of the values [mutate]
    draws from: a width among the blueprint's neurons or 4, 8, 16, 32, an
    activation among the blueprint's or relu, sigmoid, tanh, softmax, a
    dropout rate among the blueprint's or None, 0.1, 0.2, 0.3. Crossover
    and mutation never make any other value. *)
Theorem run_stays_in_search_space
    (population_size num_parents fuel num_generations : nat)
    (fitness : nat → nat → list dict → result Q)
    (blueprint : Blueprint) (σ : state) :
  (∀ generation idx genes, ∃ q, fitness generation idx genes = Ok q) →
  (2 ≤ num_parents ≤ population_size)%nat →
  (population_size - num_parents ≤ fuel)%nat →
  neurons blueprint ≠ [] →
  activations blueprint ≠ [] →
  dropout blueprint ≠ [] →
  1 ≤ max_n_layers blueprint →
  ∃ s σ',
    run population_size num_parents fitness fuel num_generations blueprint σ
      = Ok (s, σ') ∧
    Forall (Forall (gene_within blueprint (heap σ'))) (population s).
Proof.
  intros Hfit Hnp Hfuel Hn Ha Hd Hl. destruct σ as [h t]. unfold run.
  destruct (generate_population_spec blueprint population_size Hn Ha Hd Hl
              [] h t)
    as (pop & h0 & t0 & Hrun & Hlen & _ & _ & _ & _ & Hall & _).
  cbn [app] in Hrun. unfold generate_initial_population.
  rewrite (run_bind _ _ _ _ _ Hrun).
  assert (Hg : Forall (Forall (gene_within blueprint h0)) pop).
  { eapply Forall_impl; [exact Hall|]. intros g Hgs.
    eapply Forall_impl; [exact Hgs|]. intros l (d & Hd0 & Hdr).
    exists d. split; [done|]. split; [|by apply drawn_within].
    destruct Hdr as (n & a & p & -> & _). done. }
  destruct (generation_loop_run population_size num_parents fitness Hfit Hnp
              fuel (seq 0 num_generations) (initial pop) h0 t0)
    as (s & σ' & Hloop & _); [done| |done|].
  { by eapply goods_are_genes. }
  exists s, σ'. split; [done|].
  exact (generation_loop_within blueprint population_size num_parents
           fitness fuel (seq 0 num_generations) (initial pop) (State h0 t0)
           s σ' Hg Hloop).
Qed.

Lemma run_stays_in_search_space_witness :
  ∃ s σ',
    run 4 2 example_fitness 2 3 blueprint (State ∅ [7; 1; 2; 3; 4; 5; 6]%N)
      = Ok (s, σ') ∧
    Forall (Forall (gene_within blueprint (heap σ'))) (population s).
Proof.
  apply (run_stays_in_search_space 4 2 2 3 example_fitness blueprint
           (State ∅ [7; 1; 2; 3; 4; 5; 6]%N)).
  - intros generation idx genes. by eexists.
  - lia.
  - lia.
  - discriminate.
  - discriminate.
  - discriminate.
  - simpl. lia.
Defined.

(** ** Genomes of the search space build *)

Section SearchSpaceBuilds.
Variable blueprint : Blueprint.
Implicit Types (h : gmap loc dict) (t : list N) (d : dict).

Lemma rate_or_none_layers p :
  rate_or_none p →
  dropout_layers p = Ok (if truthy p then [Dropout p] else []).
Proof.
  intros [->|(x & -> & H0 & H1)]; [reflexivity|].
  unfold dropout_layers. destruct (truthy (VFloat x)); [|done].
  by rewrite nn_Dropout_rate.
Qed.

(** With candidates of the data model in the blueprint, a gene of the
    search space has a positive integer width and a rate that is [None]
    or a float between 0 and 1. *)
Lemma within_checked d :
  Forall positive_width (neurons blueprint) →
  Forall rate_or_none (dropout blueprint) →
  within blueprint d →
  (∃ n, getitem d "num_neurons" = Ok (VInt n) ∧ 1 ≤ n) ∧
  (∃ a, getitem d "activation" = Ok a) ∧
  (∃ p, getitem d "dropout_rate" = Ok p ∧ rate_or_none p).
Proof.
  intros Hw Hr ((n & Hn & Hin) & (a & Ha & _) & (p & Hp & Hip)).
  rewrite Forall_forall in Hw, Hr. split; [|split; [by exists a|]].
  - destruct Hin as [Hin|Hin].
    + destruct (Hw n Hin) as (k & -> & Hk). by exists k.
    + unfold mutation_neurons in Hin.
      rewrite !elem_of_cons, elem_of_nil in Hin.
      destruct Hin as [->|[->|[->|[->|[]]]]]; eexists; (split; [done|lia]).
  - exists p. split; [done|]. destruct Hip as [Hip|Hip]; [by apply Hr|].
    unfold mutation_dropout in Hip.
    rewrite !elem_of_cons, elem_of_nil in Hip.
    destruct Hip as [->|[->|[->|[->|[]]]]]; [by left|..];
      right; eexists; (split; [done|]); split; discriminate.
Qed.

Lemma within_hidden dicts :
  Forall positive_width (neurons blueprint) →
  Forall rate_or_none (dropout blueprint) →
  Forall (within blueprint) dicts →
  ∀ layers i, 1 ≤ i →
  ∃ out j, Net_hidden dicts layers (VInt i) = Ok (out, VInt j) ∧ 1 ≤ j.
Proof.
  intros Hw Hr Hall. induction Hall as [|d dicts Hd _ IH]; intros layers i Hi.
  { by exists layers, i. }
  destruct (within_checked d Hw Hr Hd)
    as ((n & Hn & Hpos) & (a & Ha) & (p & Hp & Hrate)).
  rewrite (Net_hidden_cons _ _ _ _ _ _ _ _ _ Hn Ha Hp
             (nn_Linear_widths i n ltac:(lia) ltac:(lia))
             (rate_or_none_layers p Hrate)).
  by apply IH.
Qed.

(** A genome of the search space builds. *)
Lemma within_builds h (g : Genome) D K :
  Forall positive_width (neurons blueprint) →
  Forall rate_or_none (dropout blueprint) →
  1 ≤ D → 1 ≤ K →
  Forall (gene_within blueprint h) g →
  ∃ net, Net_init (deref h g) D K = Ok net.
Proof.
  intros Hw Hr HD HK Hg.
  assert (Hall : Forall (within blueprint) (deref h g)).
  { unfold deref. apply Forall_fmap. eapply Forall_impl; [exact Hg|].
    intros l (d & Hd & _ & Hin). cbn.
    by rewrite (lookup_total_correct _ _ _ Hd). }
  destruct (within_hidden _ Hw Hr Hall [] D HD) as (out & j & Hh & Hj).
  eexists. apply (Net_init_of_hidden _ _ _ _ _ Hh); lia.
Qed.

Section Tracker.
Variables population_size num_parents : nat.
Variable fitness : nat → nat → list dict → result Q.

(** The tracked genome stays in the search space. *)
Lemma generation_body_tracked_within fuel generation s h t s' σ' :
  Forall (Forall (gene_within blueprint h)) (population s) →
  (∀ arch, best_overall_architecture s = Some arch →
           Forall (gene_within blueprint h) arch) →
  generation_body population_size num_parents fitness fuel generation s
    (State h t) = Ok (s', σ') →
  Forall (Forall (gene_within blueprint (heap σ'))) (population s') ∧
  ∀ arch, best_overall_architecture s' = Some arch →
          Forall (gene_within blueprint (heap σ')) arch.
Proof.
  intros Hg Hold H.
  split.
  { exact (generation_body_within blueprint population_size num_parents
             fitness fuel generation s (State h t) s' σ' Hg H). }
  apply generation_body_inv in H
    as (fitnesses & σ1 & s1 & next & Hev & Htr & Hbr & _ & _ & Ha & _).
  pose proof (evaluate_population_spec fitness _ _ _ _ _ _ _ Hev) as [-> _].
  assert (Hp : Forall (Forall (is_gene h))
                 (selection (population s) fitnesses num_parents)).
  { apply Forall_forall. intros g Hin%selection_subset.
    rewrite Forall_forall in Hg. specialize (Hg g Hin).
    eapply Forall_impl; [exact Hg|]. intros l. apply good_is_gene. }
  unfold breed in Hbr.
  destruct (breed_while_frame _ _ _ _ _ _ _ _ Hp Hbr) as [_ Hsub].
  apply track_spec in Htr
    as (m & idx & arch0 & _ & _ & Harch & _ & _ & Hcase).
  intros arch Hs'. rewrite Ha in Hs'.
  assert (Hin : Forall (gene_within blueprint h) arch).
  { destruct (exceeds m (best_overall_fitness s)); destruct Hcase as [_ Hc].
    - rewrite Hc in Hs'. injection Hs' as <-.
      by apply (Forall_lookup_1 _ _ _ _ Hg Harch).
    - rewrite Hc in Hs'. by apply Hold. }
  eapply Forall_impl; [exact Hin|]. intros l. by apply good_weaken.
Qed.

Lemma generation_loop_tracked_within fuel generations :
  ∀ s h t s' σ',
  Forall (Forall (gene_within blueprint h)) (population s) →
  (∀ arch, best_overall_architecture s = Some arch →
           Forall (gene_within blueprint h) arch) →
  generation_loop population_size num_parents fitness fuel generations s
    (State h t) = Ok (s', σ') →
  ∀ arch, best_overall_architecture s' = Some arch →
          Forall (gene_within blueprint (heap σ')) arch.
Proof.
  induction generations as [|g gs IH]; intros s h t s' σ' Hg Hold H.
  { by injection H as <- <-. }
  cbn [generation_loop] in H.
  apply bind_Ok_inv in H as (s1 & [h1 t1] & Hbody & H).
  destruct (generation_body_tracked_within _ _ _ _ _ _ _ Hg Hold Hbody)
    as [Hg1 Hold1].
  by eapply IH.
Qed.
End Tracker.
End SearchSpaceBuilds.

(** X14. In a run that meets the conditions under which the loop is
    entered safely (a fitness evaluator that returns, 2 <= num_parents <=
    population_size) with a blueprint of the data model (positive integer
    widths, rates that are None or floats between 0 and 1, at least one
    candidate of each kind) and D, K >= 1, every genome of the final
    population, after any number of generations, has between 1 and
    max_n_layers genes, each with exactly the three attribute keys, and
    builds into a model. Breeding never produces an empty genome or one
    the builder rejects. *)
Theorem run_population_builds
    (population_size num_parents fuel num_generations : nat)
    (fitness : nat → nat → list dict → result Q)
    (blueprint : Blueprint) (σ : state) (D K : Z) :
  (∀ generation idx genes, ∃ q, fitness generation idx genes = Ok q) →
  (2 ≤ num_parents ≤ population_size)%nat →
  (population_size - num_parents ≤ fuel)%nat →
  neurons blueprint ≠ [] →
  activations blueprint ≠ [] →
  dropout blueprint ≠ [] →
  1 ≤ max_n_layers blueprint →
  Forall positive_width (neurons blueprint) →
  Forall rate_or_none (dropout blueprint) →
  1 ≤ D → 1 ≤ K →
  ∃ s σ',
    run population_size num_parents fitness fuel num_generations blueprint σ
      = Ok (s, σ') ∧
    length (population s) = population_size ∧
    Forall (λ g,
      (1 ≤ length g ≤ Z.to_nat (max_n_layers blueprint))%nat ∧
      Forall (is_gene (heap σ')) g ∧
      ∃ net, Net_init (deref (heap σ') g) D K = Ok net) (population s).
Proof.
  intros Hfit Hnp Hfuel Hn Ha Hd Hl Hw Hr HD HK.
  destruct σ as [h t]. unfold run.
  destruct (generate_population_spec blueprint population_size Hn Ha Hd Hl
              [] h t)
    as (pop & h0 & t0 & Hrun & Hlen & _ & _ & _ & _ & Hall & Hsizes).
  cbn [app] in Hrun. unfold generate_initial_population.
  rewrite (run_bind _ _ _ _ _ Hrun).
  assert (Hg : Forall (Forall (gene_within blueprint h0)) pop).
  { eapply Forall_impl; [exact Hall|]. intros g Hgs.
    eapply Forall_impl; [exact Hgs|]. intros l (d & Hd0 & Hdr).
    exists d. split; [done|]. split; [|by apply drawn_within].
    destruct Hdr as (n & a & p & -> & _). done. }
  pose proof (goods_are_genes blueprint h0 pop Hg) as Hgenes.
  destruct (generation_loop_run population_size num_parents fitness Hfit Hnp
              fuel (seq 0 num_generations) (initial pop) h0 t0)
    as (s & σ' & Hloop & Hsize); [done..|].
  exists s, σ'. split; [done|]. split; [done|].
  destruct (generation_loop_invariant population_size num_parents fitness
              1 (Z.to_nat (max_n_layers blueprint)) fuel
              (seq 0 num_generations) (initial pop) h0 t0 s σ')
    as (_ & Hg' & Hb' & _); try done.
  { eapply Forall_impl; [exact Hsizes|]. intros g Hb. cbn in Hb. lia. }
  pose proof (generation_loop_within blueprint population_size num_parents
                fitness fuel (seq 0 num_generations) (initial pop)
                (State h0 t0) s σ' Hg Hloop) as Hin.
  apply Forall_forall. intros g Hgin. rewrite Forall_forall in Hg', Hb', Hin.
  split; [by apply Hb'|]. split; [by apply Hg'|].
  apply (within_builds blueprint); try done. by apply Hin.
Qed.

Lemma run_population_builds_witness :
  ∃ s σ',
    run 4 2 example_fitness 2 3 blueprint (State ∅ [7; 1; 2; 3; 4; 5; 6]%N)
      = Ok (s, σ') ∧
    length (population s) = 4%nat ∧
    Forall (λ g,
      (1 ≤ length g ≤ Z.to_nat (max_n_layers blueprint))%nat ∧
      Forall (is_gene (heap σ')) g ∧
      ∃ net, Net_init (deref (heap σ') g) 3 4 = Ok net) (population s).
Proof.
  apply (run_population_builds 4 2 2 3 example_fitness blueprint
           (State ∅ [7; 1; 2; 3; 4; 5; 6]%N) 3 4).
  - intros generation idx genes. by eexists.
  - lia.
  - lia.
  - discriminate.
  - discriminate.
  - discriminate.
  - simpl. lia.
  - repeat (apply Forall_cons_2; [eexists; split; [reflexivity|lia]|]).
    apply Forall_nil_2.
  - repeat (apply Forall_cons_2;
              [first [ by left
                     | right; eexists; split; [reflexivity|];
                       split; discriminate ]|]).
    apply Forall_nil_2.
  - lia.
  - lia.
Defined.

(** X15. After a run of at least one generation, in the conditions of
    X14, the tracker holds a genome, and the stored best fitness is a
    fitness that the evaluator returned for this genome as it is at the
    end of the run: the tracker keeps a reference, not a copy, and
    nothing in later generations assigns to the genes it points to. The
    genome is in the search space, so with D, K >= 1 the final
    retraining builds the architecture that was scored. *)
Theorem run_best_architecture_was_scored
    (population_size num_parents fuel num_generations : nat)
    (fitness : nat → nat → list dict → result Q)
    (blueprint : Blueprint) (σ : state) (D K : Z) :
  (∀ generation idx genes, ∃ q, fitness generation idx genes = Ok q) →
  (2 ≤ num_parents ≤ population_size)%nat →
  (population_size - num_parents ≤ fuel)%nat →
  neurons blueprint ≠ [] →
  activations blueprint ≠ [] →
  dropout blueprint ≠ [] →
  1 ≤ max_n_layers blueprint →
  Forall positive_width (neurons blueprint) →
  Forall rate_or_none (dropout blueprint) →
  1 ≤ D → 1 ≤ K →
  (1 ≤ num_generations)%nat →
  ∃ s σ' b arch generation idx net,
    run population_size num_parents fitness fuel num_generations blueprint σ
      = Ok (s, σ') ∧
    best_overall_fitness s = Fin b ∧
    best_overall_architecture s = Some arch ∧
    fitness generation idx (deref (heap σ') arch) = Ok b ∧
    Net_init (deref (heap σ') arch) D K = Ok net.
Proof.
  intros Hfit Hnp Hfuel Hn Ha Hd Hl Hw Hr HD HK Hgen.
  destruct σ as [h t]. unfold run.
  destruct (generate_population_spec blueprint population_size Hn Ha Hd Hl
              [] h t)
    as (pop & h0 & t0 & Hrun & Hlen & _ & _ & _ & _ & Hall & Hsizes).
  cbn [app] in Hrun. unfold generate_initial_population.
  rewrite (run_bind _ _ _ _ _ Hrun).
  assert (Hg : Forall (Forall (gene_within blueprint h0)) pop).
  { eapply Forall_impl; [exact Hall|]. intros g Hgs.
    eapply Forall_impl; [exact Hgs|]. intros l (d & Hd0 & Hdr).
    exists d. split; [done|]. split; [|by apply drawn_within].
    destruct Hdr as (n & a & p & -> & _). done. }
  pose proof (goods_are_genes blueprint h0 pop Hg) as Hgenes.
  destruct (generation_loop_run population_size num_parents fitness Hfit Hnp
              fuel (seq 0 num_generations) (initial pop) h0 t0)
    as (s & σ' & Hloop & Hsize); [done..|].
  destruct (generation_loop_invariant population_size num_parents fitness
              0 (length (concat pop)) fuel
              (seq 0 num_generations) (initial pop) h0 t0 s σ')
    as (_ & _ & _ & Htrk & Hne); try done.
  { apply Forall_forall. intros g Hin. split; [lia|].
    clear -Hin. induction pop as [|g0 pop IH]; [by apply elem_of_nil in Hin|].
    cbn. rewrite length_app. apply elem_of_cons in Hin as [->|Hin]; [lia|].
    specialize (IH Hin). lia. }
  assert (Hs : seq 0 num_generations ≠ []).
  { destruct num_generations; [lia|done]. }
  specialize (Hne Hs). unfold tracked in Htrk.
  destruct (best_overall_fitness s) as [|b] eqn:Eb; [done|].
  destruct (best_overall_architecture s) as [arch|] eqn:Ea; [|done].
  destruct Htrk as [_ (generation & idx & Hf)].
  assert (Harch : Forall (gene_within blueprint (heap σ')) arch).
  { apply (generation_loop_tracked_within blueprint population_size
             num_parents fitness fuel (seq 0 num_generations) (initial pop)
             h0 t0 s σ' Hg); [done|done|exact Ea]. }
  destruct (within_builds blueprint (heap σ') arch D K Hw Hr HD HK Harch)
    as [net Hnet].
  by exists s, σ', b, arch, generation, idx, net.
Qed.

Lemma run_best_architecture_was_scored_witness :
  ∃ s σ' b arch generation idx net,
    run 4 2 example_fitness 2 3 blueprint (State ∅ [7; 1; 2; 3; 4; 5; 6]%N)
      = Ok (s, σ') ∧
    best_overall_fitness s = Fin b ∧
    best_overall_architecture s = Some arch ∧
    example_fitness generation idx (deref (heap σ') arch) = Ok b ∧
    Net_init (deref (heap σ') arch) 3 4 = Ok net.
Proof.
  apply (run_best_architecture_was_scored 4 2 2 3 example_fitness blueprint
           (State ∅ [7; 1; 2; 3; 4; 5; 6]%N) 3 4).
  - intros generation idx genes. by eexists.
  - lia.
  - lia.
  - discriminate.
  - discriminate.
  - discriminate.
  - simpl. lia.
  - repeat (apply Forall_cons_2; [eexists; split; [reflexivity|lia]|]).
    apply Forall_nil_2.
  - repeat (apply Forall_cons_2;
              [first [ by left
                     | right; eexists; split; [reflexivity|];
                       split; discriminate ]|]).
    apply Forall_nil_2.
  - lia.
  - lia.
  - lia.
Defined.

(** X23. What the constructors reject. When the genes before a gene
    build and D is not negative, the gene makes [Net] raise RuntimeError
    if its width is a negative integer, TypeError if its width is not an
    integer, both before its other keys are looked at, and ValueError if
    its width is accepted and its dropout rate is a float below 0 or
    above 1. *)
Theorem Net_init_rejected_values
    (pre post : list dict) (gene : dict) (D K : Z)
    (before : list layer) (w : value) :
  Net_hidden pre [] (VInt D) = Ok (before, w) →
  0 ≤ D →
  (∀ n, getitem gene "num_neurons" = Ok (VInt n) → n < 0 →
     Net_init (pre ++ gene :: post) D K = Raise RuntimeError) ∧
  (∀ v, getitem gene "num_neurons" = Ok v → (∀ n, v ≠ VInt n) →
     Net_init (pre ++ gene :: post) D K = Raise TypeError) ∧
  (∀ n a p,
     getitem gene "num_neurons" = Ok (VInt n) → 0 ≤ n →
     getitem gene "activation" = Ok a →
     getitem gene "dropout_rate" = Ok (VFloat p) →
     (p < 0)%Q ∨ (1 < p)%Q →
     Net_init (pre ++ gene :: post) D K = Raise ValueError).
Proof.
  intros Hpre HD.
  destruct (Net_hidden_width pre [] D before w) as (i & -> & Hi); [done..|].
  unfold Net_init. rewrite (Net_hidden_app _ _ _ _ _ _ Hpre).
  cbn [Net_hidden]. split; [|split].
  - intros n Hn Hneg. rewrite Hn. cbn [mbind result_bind].
    unfold nn_Linear. destruct (Z.ltb_spec i 0); [lia|].
    destruct (Z.ltb_spec n 0); [done|lia].
  - intros v Hv Hnot. rewrite Hv. cbn [mbind result_bind].
    destruct v as [|n| |]; try done. by destruct (Hnot n).
  - intros n a p Hn Hpos Ha Hp Hout. rewrite Hn. cbn [mbind result_bind].
    rewrite nn_Linear_widths by done. cbn [mbind result_bind].
    rewrite Ha. cbn [mbind result_bind]. rewrite Hp.
    cbn [mbind result_bind].
    assert (Hd : dropout_layers (VFloat p) = Raise ValueError).
    { unfold dropout_layers. assert (truthy (VFloat p) = true) as ->.
      { cbn. destruct (Qeq_bool p 0) eqn:E; [|done].
        apply Qeq_bool_eq in E. rewrite E in Hout.
        destruct Hout as [H|H]; [by apply Qlt_irrefl in H|].
        vm_compute in H. discriminate H. }
      unfold nn_Dropout.
      assert (Qltb p 0 || Qltb 1 p = true) as ->; [|done].
      apply orb_true_iff.
      destruct Hout as [H|H]; [left|right]; by apply Qltb_true. }
    by rewrite Hd.
Qed.

Lemma Net_init_rejected_values_witness :
  Net_init [relu_gene; [("num_neurons", VInt (-4))]] 3 4
  = Raise RuntimeError ∧
  Net_init [relu_gene; [("num_neurons", VFloat 8)]] 3 4
  = Raise TypeError ∧
  Net_init [relu_gene; [("num_neurons", VInt 8); ("activation", VStr "tanh");
                        ("dropout_rate", VFloat 1.5)]] 3 4
  = Raise ValueError.
Proof.
  split; [|split].
  - apply (proj1 (Net_init_rejected_values [relu_gene] []
                    [("num_neurons", VInt (-4))] 3 4
                    [Linear (VInt 3) (VInt 16); ReLU; Dropout (VFloat 0.2)]
                    (VInt 16) eq_refl ltac:(lia)) (-4));
      [reflexivity|lia].
  - apply (proj1 (proj2 (Net_init_rejected_values [relu_gene] []
                    [("num_neurons", VFloat 8)] 3 4
                    [Linear (VInt 3) (VInt 16); ReLU; Dropout (VFloat 0.2)]
                    (VInt 16) eq_refl ltac:(lia))) (VFloat 8));
      [reflexivity|discriminate].
  - apply (proj2 (proj2 (Net_init_rejected_values [relu_gene] []
                    [("num_neurons", VInt 8); ("activation", VStr "tanh");
                     ("dropout_rate", VFloat 1.5)] 3 4
                    [Linear (VInt 3) (VInt 16); ReLU; Dropout (VFloat 0.2)]
                    (VInt 16) eq_refl ltac:(lia))) 8 (VStr "tanh") 1.5%Q);
      [reflexivity|lia|reflexivity|reflexivity|by right].
Defined.
